(** * Snapshot script: the device-session workers of [workers.py]

    A shallow embedding of [RunEvent] (its [run], [thread_executor],
    [snapshot_task] and [generate_report] methods) and the properties of
    the batch it runs.

    Conventions of the embedding.
    - A Python [str] is a [string]; each character stands for one code
      point in the range U+0000..U+00FF.
    - A Python [dict] is an insertion-ordered association list ([dict]):
      assigning to a key that is present replaces the value in place,
      assigning to a new key appends it.
    - A Python [float] is the rational it stands for ([Q]); every
      operation on floats is followed by the rounding of binary64
      arithmetic, to the nearest representable number with ties to
      even ([B64.round]).  [Binary64] evaluates the same increments
      with the floats of the machine for batches of a given size.
    - What the program asks of the platform ([os.path.join], [open],
      the workbook of [netcore]) is an oracle ([OS]), like the sessions
      of the network.
    - The worker pool is an interleaving of per-task steps chosen by a
      schedule; every statement of [snapshot_task] that touches shared
      state is one atomic step. *)

From Stdlib Require Import Ascii String QArith Qabs Qround Qpower Lqa.
From stdpp Require Import base decidable option list strings.
From Stdlib Require Import Lia.
From Stdlib Require PrimFloat FloatOps SpecFloat.

Local Open Scope string_scope.
Local Open Scope list_scope.
Local Open Scope nat_scope.

(** ** Python strings *)

Module PyStr.

(** [str.isspace] on one character, for code points below 256:
    U+0009..U+000D, U+001C..U+0020, U+0085 and U+00A0. *)
Definition isspace (c : ascii) : bool :=
  let n := nat_of_ascii c in
  ((9 <=? n) && (n <=? 13)) || ((28 <=? n) && (n <=? 32))
  || (n =? 133) || (n =? 160).

(** [s.lstrip()] *)
Fixpoint lstrip (s : string) : string :=
  match s with
  | EmptyString => EmptyString
  | String c s' => if isspace c then lstrip s' else s
  end.

(** [s.rstrip()] *)
Fixpoint rstrip (s : string) : string :=
  match s with
  | EmptyString => EmptyString
  | String c s' =>
      match rstrip s' with
      | EmptyString => if isspace c then EmptyString else String c EmptyString
      | r => String c r
      end
  end.

(** [s.strip()]: whitespace is removed at both ends. *)
Definition strip (s : string) : string := rstrip (lstrip s).

(** [s[:-1]]: all but the last character; the empty string stays empty. *)
Fixpoint but_last (s : string) : string :=
  match s with
  | EmptyString => EmptyString
  | String c EmptyString => EmptyString
  | String c s' => String c (but_last s')
  end.

(** [c * n] for a one-character string [c]. *)
Fixpoint repeat_char (c : ascii) (n : nat) : string :=
  match n with
  | O => EmptyString
  | S n' => String c (repeat_char c n')
  end.

(** Every character of [s] satisfies [p]. *)
Fixpoint all_chars (p : ascii -> bool) (s : string) : bool :=
  match s with
  | EmptyString => true
  | String c s' => p c && all_chars p s'
  end.

Definition newline : string := String (ascii_of_nat 10) EmptyString.

(** The first character of [s], if any, is not whitespace. *)
Definition starts_clean (s : string) : Prop :=
  match s with
  | EmptyString => True
  | String c _ => isspace c = false
  end.

(** The last character of [s], if any, is not whitespace. *)
Fixpoint ends_clean (s : string) : Prop :=
  match s with
  | EmptyString => True
  | String c EmptyString => isspace c = false
  | String _ s' => ends_clean s'
  end.

End PyStr.

(** ** Python dictionaries (insertion ordered) *)

Module Dict.
Section Dict.
Context {K V : Type} `{EqDecision K}.

Definition dict := list (K * V).

(** [d[k]] as a lookup; [None] stands for [KeyError]. *)
Fixpoint get (k : K) (d : list (K * V)) : option V :=
  match d with
  | [] => None
  | (k', v) :: d' => if decide (k = k') then Some v else get k d'
  end.

(** [d[k] = v] *)
Fixpoint set (k : K) (v : V) (d : list (K * V)) : list (K * V) :=
  match d with
  | [] => [(k, v)]
  | (k', v') :: d' =>
      if decide (k = k') then (k, v) :: d' else (k', v') :: set k v d'
  end.

(** [list(d.keys())] *)
Definition keys (d : list (K * V)) : list K := map fst d.

(** [d.update(e)]: the items of [e] are assigned in the order of [e]. *)
Definition update (d e : list (K * V)) : list (K * V) :=
  fold_left (fun acc kv => set (fst kv) (snd kv) acc) e d.

(** The key order a dictionary has after the keys [ks] were assigned in
    that order: first occurrences, in order. *)
Definition touch (ks : list K) (k : K) : list K :=
  if decide (k ∈ ks) then ks else ks ++ [k].

Definition insertion_order (ks : list K) : list K :=
  fold_left touch ks [].

End Dict.
Arguments dict : clear implicits.
End Dict.

(** ** The session capability of [netcore] *)

Module Netcore.

(** An open session: the object [GenericHandler(...)] returns.  The
    answer of the device to [sendCommand] may depend on how many
    commands the session has served before: the first argument counts
    them.  [None] stands for a raised exception. *)
Record GenericHandler := {
  prompt : string;
  sendCommand : nat -> string -> option string
}.

End Netcore.

(** ** Python floats: binary64 arithmetic *)

Module B64.
Local Open Scope Q_scope.

(** [2 ** k] for an integer [k] of either sign. *)
Definition pow2 (k : Z) : Q := 2 ^ k.

(** The binary exponent of a positive rational [q]: the [e] with
    [2 ** e <= q < 2 ** (e + 1)]. *)
Definition exponent (q : Q) : Z :=
  let l := (Z.log2 (Qnum q) - Z.log2 (Z.pos (Qden q)))%Z in
  if Qle_bool (pow2 l) q then l else (l - 1)%Z.

(** The integer nearest to [q], the even one of two that are equally
    near. *)
Definition nearest_even (q : Q) : Z :=
  let f := Qfloor q in
  match Qcompare (q - inject_Z f) (1 # 2) with
  | Lt => f
  | Gt => (f + 1)%Z
  | Eq => if Z.even f then f else (f + 1)%Z
  end.

(** The binary64 number nearest to a positive rational: 53 significant
    bits, and no exponent below that of the subnormal numbers, -1074.
    Nothing computed here comes near the largest binary64 number, so
    the overflow to infinity is left out. *)
Definition round_pos (q : Q) : Q :=
  let e := Z.max (exponent q - 52) (-1074) in
  inject_Z (nearest_even (q / pow2 e)) * pow2 e.

Definition round (q : Q) : Q :=
  match Qnum q with
  | Z0 => 0
  | Zpos _ => round_pos q
  | Zneg _ => - round_pos (- q)
  end.

(** A literal such as [0.1]: the float nearest to it. *)
Definition lit (q : Q) : Q := round q.

(** [float(n)] for an [int]: what [x / n] does to [n] when [x] is a
    float. *)
Definition of_int (n : Z) : Q := round (inject_Z n).

(** [x * y] and [x / y] on floats, and [m / n] on two [int]s: the exact
    result, rounded once. *)
Definition mul (x y : Q) : Q := round (x * y).
Definition div (x y : Q) : Q := round (x / y).

(** Half the gap between 1 and the next binary64 number: the relative
    error of one rounding. *)
Definition u : Q := pow2 (-53).

(** [x] is [y] up to the relative error [eps]. *)
Definition near (eps x y : Q) : Prop :=
  (1 - eps) * y <= x /\ x <= (1 + eps) * y.

End B64.

(** ** The platform *)

(** What [generate_report] asks of the platform.  [os_path_join] is
    [os.path.join].  [open_w n filepath] says whether the [n]-th
    [open(filepath, "w")] of the text report returns a file; otherwise
    it raises (a directory of the path is missing, the file cannot be
    written).  [XLBW] says whether the calls of the workbook of
    [netcore], lines 149 to 152, return. *)
Record OS := {
  os_path_join : string -> string -> string;
  open_w : nat -> string -> bool;
  XLBW : bool
}.

(** ** Shared state of one [RunEvent] *)

(** The value [{"prompt": ..., "command_output": {...}}] stored per device. *)
Record Entry := {
  prompt : string;
  command_output : Dict.dict string string
}.

Definition empty_entry : Entry := {| prompt := ""; command_output := [] |}.

(** Exceptions a device task can end with.  [ConnectionError] stands
    for whatever lines 90 to 104 raise before the session exists: the
    exception of the constructor, or that of a lookup in
    [self.form.session].  [KeyError] is that of a lookup in
    [self.output_data]. *)
Inductive exn :=
| ConnectionError (device : string)
| CommandError (device command : string)
| ZeroDivisionError
| KeyError (key : string).

(** What the tasks did, in the order it happened: the assignment of line
    82, the calls of [sendCommand] and the calls of [close], each tagged
    with the position of the task's device in the device list. *)
Inductive event :=
| EvAssign (task : nat)
| EvSend (task : nat) (command : string)
| EvClose (task : nat).

#[global] Instance event_eq_dec : EqDecision event.
Proof. solve_decision. Defined.

Record State := {
  output_data : Dict.dict string Entry;
  add_progress : list Q;      (* the increments emitted so far, oldest first *)
  events : list event
}.

Definition initial_state : State :=
  {| output_data := []; add_progress := []; events := [] |}.

(** [self.add_progress.emit(q)] *)
Definition emit (q : Q) (s : State) : State :=
  {| output_data := output_data s;
     add_progress := add_progress s ++ [q];
     events := events s |}.

Definition record (e : event) (s : State) : State :=
  {| output_data := output_data s;
     add_progress := add_progress s;
     events := events s ++ [e] |}.

(** [self.output_data[device] = entry] *)
Definition assign (device : string) (entry : Entry) (s : State) : State :=
  {| output_data := Dict.set device entry (output_data s);
     add_progress := add_progress s;
     events := events s |}.

(** [self.output_data[device][...] = ...]: the entry is looked up by key
    and changed in place; [None] is the [KeyError] of the lookup. *)
Definition modify (device : string) (f : Entry -> Entry) (s : State) : option State :=
  match Dict.get device (output_data s) with
  | Some entry => Some (assign device (f entry) s)
  | None => None
  end.

Definition set_prompt (p : string) (entry : Entry) : Entry :=
  {| prompt := p; command_output := command_output entry |}.

Definition set_output (command result : string) (entry : Entry) : Entry :=
  {| prompt := prompt entry;
     command_output := Dict.set command result (command_output entry) |}.

(** The sum of a list of increments. *)
Definition total (qs : list Q) : Q := fold_right Qplus 0%Q qs.

(** How often task [i] called [close]. *)
Definition close_count (i : nat) (s : State) : nat :=
  length (filter (fun e => e = EvClose i) (events s)).

(** The commands task [i] sent, in order. *)
Definition sent_by (i : nat) (s : State) : list string :=
  omap (fun e => match e with
                 | EvSend j c => if decide (j = i) then Some c else None
                 | _ => None
                 end) (events s).

(** ** [RunEvent.snapshot_task] and [RunEvent.thread_executor] *)

Section Workers.

(** [self.devices], [self.commands], and the behaviour of the network:
    [GenericHandler i hostname] is what lines 90 to 104 do for the task
    at position [i] of the device list, the lookups of the credentials
    in [self.form.session] and the call of the constructor: the session
    they return, or [None] when one of them raises. *)
Variable devices : list string.
Variable commands : list string.
Variable GenericHandler : nat -> string -> option Netcore.GenericHandler.

(** [90 / len(self.devices)] *)
Definition available_progress : Q :=
  B64.div 90 (inject_Z (Z.of_nat (length devices))).

(** [(available_progress * 0.7) / len(self.commands)], evaluated only
    when the command list is not empty. *)
Definition command_progress : Q :=
  B64.div (B64.mul available_progress (B64.lit 0.7))
          (B64.of_int (Z.of_nat (length commands))).

(** *** The task as the sequential function it is written as *)

(** The [for command in self.commands] loop from its [k]-th iteration
    on, followed by [handler.close()]. *)
Fixpoint command_loop (i : nat) (device : string) (handler : Netcore.GenericHandler)
    (k : nat) (rest : list string) (s : State) : option exn * State :=
  match rest with
  | [] => (None, record (EvClose i) s)
  | command :: rest' =>
      let s := record (EvSend i command) s in
      match Netcore.sendCommand handler k command with
      | None => (Some (CommandError device command), s)
      | Some raw =>
          let result := PyStr.strip raw in
          match modify device (set_output command result) s with
          | None => (Some (KeyError device), s)
          | Some s => command_loop i device handler (S k) rest' (emit command_progress s)
          end
      end
  end.

(** Lines 106 to 119, once the handler exists. *)
Definition with_handler (i : nat) (device : string) (handler : Netcore.GenericHandler)
    (s : State) : option exn * State :=
  match modify device (set_prompt (Netcore.prompt handler)) s with
  | None => (Some (KeyError device), s)
  | Some s =>
      let s := emit (B64.mul available_progress (B64.lit 0.2)) s in
      match commands with
      | [] => (Some ZeroDivisionError, s)
      | _ => command_loop i device handler 0 commands s
      end
  end.

(** Lines 81 to 88. *)
Definition begin_task (i : nat) (device : string) (s : State) : State :=
  emit (B64.mul available_progress (B64.lit 0.1))
       (assign device empty_entry (record (EvAssign i) s)).

(** [snapshot_task(device)] for the device at position [i]: the
    exception it ends with, if any, and the state it leaves. *)
Definition snapshot_task (i : nat) (device : string) (s : State) : option exn * State :=
  let s := begin_task i device s in
  match GenericHandler i device with
  | None => (Some (ConnectionError device), s)
  | Some handler => with_handler i device handler s
  end.

(** *** The task as the pool runs it, one atomic step at a time *)

Inductive pc :=
| Submitted
| Connecting
| Connected (handler : Netcore.GenericHandler)
| Sending (handler : Netcore.GenericHandler) (k : nat) (rest : list string)
| Finished (exception : option exn).

Definition snapshot_step (i : nat) (device : string) (p : pc) (s : State) : pc * State :=
  match p with
  | Submitted => (Connecting, begin_task i device s)
  | Connecting =>
      match GenericHandler i device with
      | None => (Finished (Some (ConnectionError device)), s)
      | Some handler => (Connected handler, s)
      end
  | Connected handler =>
      match modify device (set_prompt (Netcore.prompt handler)) s with
      | None => (Finished (Some (KeyError device)), s)
      | Some s =>
          let s := emit (B64.mul available_progress (B64.lit 0.2)) s in
          match commands with
          | [] => (Finished (Some ZeroDivisionError), s)
          | _ => (Sending handler 0 commands, s)
          end
      end
  | Sending handler k rest =>
      match rest with
      | [] => (Finished None, record (EvClose i) s)
      | command :: rest' =>
          let s := record (EvSend i command) s in
          match Netcore.sendCommand handler k command with
          | None => (Finished (Some (CommandError device command)), s)
          | Some raw =>
              match modify device (set_output command (PyStr.strip raw)) s with
              | None => (Finished (Some (KeyError device)), s)
              | Some s => (Sending handler (S k) rest', emit command_progress s)
              end
          end
      end
  | Finished _ => (p, s)
  end.

(** The futures of the pool with the shared state. *)
Definition Pool : Type := State * list pc.

(** One step of the task at position [i]. *)
Definition step (c : Pool) (i : nat) : Pool :=
  match devices !! i, c.2 !! i with
  | Some device, Some p =>
      let '(p', s') := snapshot_step i device p c.1 in
      (s', <[i := p']> c.2)
  | _, _ => c
  end.

(** An upper bound on the steps a task still takes. *)
Definition steps_left (p : pc) : nat :=
  match p with
  | Submitted => length commands + 4
  | Connecting => length commands + 3
  | Connected _ => length commands + 2
  | Sending _ _ rest => length rest + 1
  | Finished _ => 0
  end.

(** Task [i] runs until it has finished. *)
Definition finish (c : Pool) (i : nat) : Pool :=
  match c.2 !! i with
  | Some p => Nat.iter (steps_left p) (fun c => step c i) c
  | None => c
  end.

(** [executor.shutdown(wait=True)]: every task that has not finished
    runs to its end. *)
Definition shutdown (c : Pool) : Pool :=
  fold_left finish (seq 0 (length devices)) c.

(** The dictionary [futures]: a device that occurs twice keeps the
    future submitted last. *)
Definition futures : Dict.dict string nat :=
  fold_left (fun d '(i, device) => Dict.set device i d)
            (imap (fun i device => (i, device)) devices) [].

(** The loop over [futures.items()]: what [logger.error] is called with. *)
Definition logged (tasks : list pc) : list (string * exn) :=
  omap (fun '(device, i) =>
          match tasks !! i with
          | Some (Finished (Some e)) => Some (device, e)
          | _ => None
          end) futures.

(** [thread_executor()], the workers interleaved as [schedule] says
    (a list of positions in the device list: who takes the next step)
    until [shutdown] lets the rest run.  It returns with the state, the
    futures and the logged errors.  The bound of 8 workers only rules
    schedules out; it is not modelled, so what holds for every schedule
    here holds for every schedule of the pool. *)
Definition thread_executor (schedule : list nat) (s : State) : State * list pc * list (string * exn) :=
  let s := emit 9 s in
  let c := (s, replicate (length devices) Submitted) in
  let c := fold_left step schedule c in
  let c := shutdown c in
  (c.1, c.2, logged c.2).

End Workers.

(** ** [RunEvent.generate_report] and [RunEvent.run] *)

(** The fields of [datetime.now()] the text report uses. *)
Record datetime := { year : nat; month : nat; day : nat }.

Module Report.

Definition digit (n : nat) : ascii := ascii_of_nat (48 + n mod 10).

(** [strftime('%Y-%m-%d')]: four digits, two digits, two digits. *)
Definition strftime_Ymd (t : datetime) : string :=
  String (digit (year t / 1000)) (String (digit (year t / 100))
    (String (digit (year t / 10)) (String (digit (year t))
    (String "-" (String (digit (month t / 10)) (String (digit (month t))
    (String "-" (String (digit (day t / 10)) (String (digit (day t)) ""))))))))).

(** [f"{prompt}{command}\n{output}\n{'-' * 79}\n"] *)
Definition section (prompt command output : string) : string :=
  prompt +:+ command +:+ PyStr.newline +:+ output +:+ PyStr.newline
    +:+ PyStr.repeat_char "-" 79 +:+ PyStr.newline.

(** The inner loop of the text branch: what [file.write] has put into
    the file opened with mode ["w"] when the loop ends. *)
Definition write_file (data : Entry) : string :=
  fold_left (fun file '(command, output) => file +:+ section (prompt data) command output)
            (command_output data) "".

(** [f"{prompt[:-1]}_{datetime.now().strftime('%Y-%m-%d')}.txt"] *)
Definition filename (data : Entry) (t : datetime) : string :=
  PyStr.but_last (prompt data) +:+ "_" +:+ strftime_Ymd t +:+ ".txt".

(** What [generate_report] can raise: the exception of
    [open(filepath, "w")], or that of the workbook. *)
Inductive error :=
| OSError (filepath : string)
| XLBWError.

(** The loop of the text branch from its [n]-th iteration on: the files
    written, oldest first, as pairs of path and content, and the
    exception that ends the loop, if any.  [now n] is the clock at the
    [n]-th call of [datetime.now()]. *)
Fixpoint text_loop (os : OS) (output_dir : string) (now : nat -> datetime)
    (n : nat) (items : list (string * Entry)) : list (string * string) * option error :=
  match items with
  | [] => ([], None)
  | (device, data) :: items' =>
      let filepath := os_path_join os output_dir (filename data (now n)) in
      if open_w os n filepath
      then let '(files, exception) := text_loop os output_dir now (S n) items' in
           ((filepath, write_file data) :: files, exception)
      else ([], Some (OSError filepath))
  end.

(** The text branch. *)
Definition text_report (os : OS) (output_dir : string) (now : nat -> datetime)
    (output_data : Dict.dict string Entry) : list (string * string) * option error :=
  text_loop os output_dir now 0 output_data.

(** The Excel branch up to the call of [workbook.dump]: [dump_data]. *)
Definition dump_data (output_data : Dict.dict string Entry)
    : Dict.dict nat (Dict.dict string string) :=
  (fold_left (fun '(idx, dump) '(device, data) =>
                let dump := Dict.set idx [("Device", PyStr.but_last (prompt data))] dump in
                let dump :=
                  match Dict.get idx dump with
                  | Some row => Dict.set idx (Dict.update row (command_output data)) dump
                  | None => dump
                  end in
                (S idx, dump))
             output_data (1, [])).2.

(** What [generate_report] hands to the file system: the text files
    written, or the rows built for the worksheet ["Snapshot"]. *)
Inductive report :=
| TextFiles (files : list (string * string))
| Workbook (worksheet : string) (rows : Dict.dict nat (Dict.dict string string)).

(** [generate_report()]: what it hands over, and the exception it
    raises, if any. *)
Definition generate_report (os : OS) (output_type output_dir : string)
    (now : nat -> datetime) (output_data : Dict.dict string Entry)
    : report * option error :=
  if decide (output_type = "Text")
  then let '(files, exception) := text_report os output_dir now output_data in
       (TextFiles files, exception)
  else (Workbook "Snapshot" (dump_data output_data),
        if XLBW os then None else Some XLBWError).

End Report.

(** What [run] leaves behind. *)
Record Outcome := {
  final : State;
  tasks : list pc;
  errors : list (string * exn);
  written : Report.report * option Report.error
}.

(** The exception [run] ends with, if any: that of [generate_report]. *)
Definition raised (batch : Outcome) : option Report.error := (written batch).2.

(** [run()], from [self.output_data = {}] on.  When [generate_report]
    raises, line 50 is not reached. *)
Definition run (devices commands : list string)
    (GenericHandler : nat -> string -> option Netcore.GenericHandler)
    (os : OS) (output_type output_dir : string) (now : nat -> datetime)
    (schedule : list nat) : Outcome :=
  let '(s, futures, errors) :=
    thread_executor devices commands GenericHandler schedule initial_state in
  let report := Report.generate_report os output_type output_dir now (output_data s) in
  {| final := match report.2 with
              | None => emit 2 s
              | Some _ => s
              end;
     tasks := futures; errors := errors; written := report |}.
(** ** Notions the properties are stated with *)

(** The task is done: its future holds a result or an exception. *)
Definition finished (p : pc) : Prop :=
  match p with Finished _ => True | _ => False end.

(** The positions of the tasks in the order in which they executed the
    assignment of line 82. *)
Definition assigned (s : State) : list nat :=
  omap (fun e => match e with EvAssign i => Some i | _ => None end) (events s).

(** The task an event belongs to. *)
Definition task_of (e : event) : nat :=
  match e with EvAssign i | EvSend i _ | EvClose i => i end.

(** The entry of [device], if it has one. *)
Definition entry_of (device : string) (s : State) : option Entry :=
  Dict.get device (output_data s).

(** What a step of the task at position [i], whose device is [device],
    can change: it adds events of its own, it assigns to the key
    [device] only, and it removes no key. *)
Record touches (i : nat) (device : string) (s s' : State) : Prop := {
  touches_events :
    exists evs, events s' = events s ++ evs /\ Forall (fun e => task_of e = i) evs;
  touches_entry :
    forall d, d ≠ device -> entry_of d s' = entry_of d s;
  touches_keys :
    forall d, d ∈ Dict.keys (output_data s) -> d ∈ Dict.keys (output_data s')
}.

Section Preserved.
Variable devices : list string.
Variable commands : list string.
Variable GenericHandler : nat -> string -> option Netcore.GenericHandler.

(** [I] survives every step of every task. *)
Definition preserved (I : State -> list pc -> Prop) : Prop :=
  forall s tasks i device p,
    I s tasks -> devices !! i = Some device -> tasks !! i = Some p ->
    I (snapshot_step devices commands GenericHandler i device p s).2
      (<[i := (snapshot_step devices commands GenericHandler i device p s).1]> tasks).

(** A property of each task and the shared state. *)
Definition each_task (L : nat -> string -> pc -> State -> Prop) : State -> list pc -> Prop :=
  fun s tasks =>
    forall j d p, devices !! j = Some d -> tasks !! j = Some p -> L j d p s.

End Preserved.

(** The devices in the order in which their tasks assigned to them. *)
Definition assigned_devices (devices : list string) (s : State) : list string :=
  omap (fun i => devices !! i) (assigned s).

(** The keys of [output_data] follow the assignments, and a task has
    made its assignment exactly when it has left [Submitted]. *)
Definition keys_ok (devices : list string) (s : State) (tasks : list pc) : Prop :=
  Dict.keys (output_data s) = Dict.insertion_order (assigned_devices devices s)
  /\ NoDup (assigned s)
  /\ (forall i, i ∈ assigned s <-> exists p, tasks !! i = Some p /\ p ≠ Submitted).

Section TaskShape.
Variable devices : list string.
Variable commands : list string.
Variable GenericHandler : nat -> string -> option Netcore.GenericHandler.

(** The device at position [i] occurs nowhere else in the device list. *)
Definition once (d : string) (i : nat) : Prop :=
  forall j, devices !! j = Some d -> j = i.

(** The session answers each of the first [k] commands of the list. *)
Definition answers (handler : Netcore.GenericHandler) (k : nat) : Prop :=
  forall j c, j < k -> commands !! j = Some c ->
    is_Some (Netcore.sendCommand handler j c).

(** [command_output] after the answers to the first [k] commands were
    stored. *)
Fixpoint stored (handler : Netcore.GenericHandler) (k : nat) : Dict.dict string string :=
  match k with
  | O => []
  | S k' =>
      match commands !! k' with
      | Some c =>
          match Netcore.sendCommand handler k' c with
          | Some raw => Dict.set c (PyStr.strip raw) (stored handler k')
          | None => stored handler k'
          end
      | None => stored handler k'
      end
  end.

(** What is known of a task that finished with [r]: what it sent, how
    often it closed, and (through [holds]) the entry it left. *)
Definition final_shape (i : nat) (d : string) (r : option exn)
    (sent : list string) (close : nat) (holds : Entry -> Prop) : Prop :=
  match r with
  | None =>
      exists h, GenericHandler i d = Some h /\ commands ≠ []
        /\ answers h (length commands)
        /\ sent = commands /\ close = 1
        /\ holds {| prompt := Netcore.prompt h; command_output := stored h (length commands) |}
  | Some (ConnectionError d') =>
      d' = d /\ GenericHandler i d = None /\ sent = [] /\ close = 0 /\ holds empty_entry
  | Some ZeroDivisionError =>
      exists h, GenericHandler i d = Some h /\ commands = []
        /\ sent = [] /\ close = 0
        /\ holds {| prompt := Netcore.prompt h; command_output := [] |}
  | Some (CommandError d' c) =>
      d' = d /\ exists h n, GenericHandler i d = Some h /\ answers h n
        /\ commands !! n = Some c /\ Netcore.sendCommand h n c = None
        /\ sent = take (S n) commands /\ close = 0
        /\ holds {| prompt := Netcore.prompt h; command_output := stored h n |}
  | Some (KeyError _) => False
  end.

(** The same for a task at [p]; [key] says that the device has an
    entry. *)
Definition task_shape (i : nat) (d : string) (p : pc)
    (sent : list string) (close : nat) (key : Prop) (holds : Entry -> Prop) : Prop :=
  match p with
  | Submitted => sent = [] /\ close = 0
  | Connecting => key /\ sent = [] /\ close = 0 /\ holds empty_entry
  | Connected h =>
      GenericHandler i d = Some h /\ key /\ sent = [] /\ close = 0 /\ holds empty_entry
  | Sending h k rest =>
      GenericHandler i d = Some h /\ commands ≠ [] /\ rest = drop k commands
        /\ k <= length commands /\ answers h k /\ key
        /\ sent = take k commands /\ close = 0
        /\ holds {| prompt := Netcore.prompt h; command_output := stored h k |}
  | Finished r => final_shape i d r sent close holds
  end.

(** The entry of a device that occurs once is [e]. *)
Definition holds_in (i : nat) (d : string) (s : State) (e : Entry) : Prop :=
  once d i -> entry_of d s = Some e.

Definition task_ok (i : nat) (d : string) (p : pc) (s : State) : Prop :=
  task_shape i d p (sent_by i s) (close_count i s)
             (d ∈ Dict.keys (output_data s)) (holds_in i d s).

End TaskShape.

Section Owed.
Variable devices : list string.
Variable commands : list string.
Variable GenericHandler : nat -> string -> option Netcore.GenericHandler.

(** A natural number as a rational. *)
Definition Qnat (n : nat) : Q := inject_Z (Z.of_nat n).

(** What the loop will still emit from its [k]-th turn on. *)
Fixpoint loop_owed (handler : Netcore.GenericHandler) (k : nat) (rest : list string) : Q :=
  match rest with
  | [] => 0
  | command :: rest' =>
      match Netcore.sendCommand handler k command with
      | None => 0
      | Some _ => command_progress devices commands + loop_owed handler (S k) rest'
      end
  end.

Definition handler_owed (handler : Netcore.GenericHandler) : Q :=
  B64.mul (available_progress devices) (B64.lit 0.2)
  + match commands with
    | [] => 0
    | _ => loop_owed handler 0 commands
    end.

Definition connect_owed (i : nat) (d : string) : Q :=
  match GenericHandler i d with
  | None => 0
  | Some handler => handler_owed handler
  end.

(** What the task at [p] will still emit until it has finished. *)
Definition owed (i : nat) (d : string) (p : pc) : Q :=
  match p with
  | Submitted => B64.mul (available_progress devices) (B64.lit 0.1) + connect_owed i d
  | Connecting => connect_owed i d
  | Connected handler => handler_owed handler
  | Sending handler k rest => loop_owed handler k rest
  | Finished _ => 0
  end.

(** What the task at position [j] emits from start to end. *)
Definition spent (j : nat) : Q :=
  match devices !! j with
  | Some d => owed j d Submitted
  | None => 0
  end.

Definition owed_at (tasks : list pc) (j : nat) : Q :=
  match devices !! j, tasks !! j with
  | Some d, Some p => owed j d p
  | _, _ => 0
  end.

(** The sum of [g] over the positions [l]. *)
Definition sum_over (l : list nat) (g : nat -> Q) : Q := total (map g l).

(** What was emitted and what is still owed add up to the 9 of the
    start and what all the tasks emit. *)
Definition progress_ok (s : State) (tasks : list pc) : Prop :=
  (total (add_progress s) + sum_over (seq 0 (length devices)) (owed_at tasks)
   == 9 + sum_over (seq 0 (length devices)) spent)%Q.

(** The task at position [i] fails to open its session. *)
Definition fails_open (i : nat) : bool :=
  match devices !! i with
  | Some d => match GenericHandler i d with None => true | Some _ => false end
  | None => false
  end.

(** The number of tasks whose session does not open. *)
Definition failures : nat :=
  length (filter (fun j => fails_open j = true) (seq 0 (length devices))).

(** The task at position [i] opens its session and every command is
    answered. *)
Definition succeeds (i : nat) : Prop :=
  exists d h, devices !! i = Some d /\ GenericHandler i d = Some h
              /\ answers commands h (length commands).

End Owed.

(** ** The increments with the floats of the machine *)

Module Binary64.
Import PrimFloat.
Local Open Scope float_scope.

(** The rational a finite float stands for. *)
Definition to_Q (f : float) : option Q :=
  match FloatOps.Prim2SF f with
  | SpecFloat.S754_zero _ => Some 0%Q
  | SpecFloat.S754_finite negative m e =>
      Some ((if negative then -1 else 1) * inject_Z (Z.pos m) * B64.pow2 e)%Q
  | _ => None
  end.

(** [float(n)] *)
Fixpoint of_nat (n : nat) : float :=
  match n with
  | O => 0
  | S n' => of_nat n' + 1
  end.

(** [90 / len(self.devices)] *)
Definition available_progress (devices : nat) : float := 90 / of_nat devices.

(** [(available_progress * 0.7) / len(self.commands)]; the literal is
    the binary64 number nearest to 0.7. *)
Definition command_progress (devices commands : nat) : float :=
  (available_progress devices * 0x1.6666666666666p-1) / of_nat commands.

(** What one task emits: [available_progress * 0.1], and when its
    session opens, [available_progress * 0.2] and [command_progress]
    once per command (every command answered). *)
Definition task (devices commands : nat) (opens : bool) : list float :=
  available_progress devices * 0x1.999999999999ap-4
  :: (if opens
      then available_progress devices * 0x1.999999999999ap-3
           :: repeat (command_progress devices commands) commands
      else []).

(** What a run emits when the tasks run one after the other; [sessions]
    says for each device whether its session opens. *)
Definition increments (sessions : list bool) (commands : nat) : list float :=
  9 :: concat (map (task (length sessions) commands) sessions) ++ [2].

(** The increments added up in the order of their emission. *)
Definition total (l : list float) : float := fold_left add l 0.

End Binary64.

(** ** Sample devices *)

Module Sample.

(** A session that answers every command with ["Output"]. *)
Definition router1 : Netcore.GenericHandler :=
  {| Netcore.prompt := "router1#";
     Netcore.sendCommand := fun _ _ => Some "Output" |}.

(** Every device can be reached. *)
Definition reachable (i : nat) (hostname : string) : option Netcore.GenericHandler :=
  Some router1.

(** No device can be reached. *)
Definition unreachable (i : nat) (hostname : string) : option Netcore.GenericHandler :=
  None.

(** A session whose answers come with whitespace around them. *)
Definition padded : Netcore.GenericHandler :=
  {| Netcore.prompt := "router1#";
     Netcore.sendCommand := fun _ _ => Some "  Output  " |}.

(** The first connection fails, the others succeed. *)
Definition first_fails (i : nat) (hostname : string) : option Netcore.GenericHandler :=
  match i with
  | O => None
  | S _ => Some router1
  end.




(** A session with the prompt ["A#"] that answers every command with
    ["X"]. *)
Definition device_A : Netcore.GenericHandler :=
  {| Netcore.prompt := "A#";
     Netcore.sendCommand := fun _ _ => Some "X" |}.

(** The first device is [device_A], the others cannot be reached. *)
Definition only_first (i : nat) (hostname : string) : option Netcore.GenericHandler :=
  match i with
  | O => Some device_A
  | S _ => None
  end.

Definition clock (n : nat) : datetime := {| year := 2026; month := 11; day := 4 |}.

(** [posixpath.join(a, b)], the [os.path.join] of Linux and macOS. *)
Definition posixpath_join (a b : string) : string :=
  match b with
  | String "/" _ => b
  | _ =>
      match a with
      | "" => b
      | _ =>
          match String.get (String.length a - 1) a with
          | Some "/"%char => a +:+ b
          | _ => a +:+ "/" +:+ b
          end
      end
  end.

(** A platform on which every file can be written. *)
Definition posix : OS :=
  {| os_path_join := posixpath_join; open_w := fun _ _ => true; XLBW := true |}.

(** A session with the prompt of a route processor. *)
Definition route_processor : Netcore.GenericHandler :=
  {| Netcore.prompt := "RP/0/RSP0/CPU0:ios#";
     Netcore.sendCommand := fun _ _ => Some "Output" |}.

(** The first connection reaches the route processor, the others
    [router1]. *)
Definition first_route_processor (i : nat) (hostname : string)
    : option Netcore.GenericHandler :=
  match i with
  | O => Some route_processor
  | S _ => Some router1
  end.

Fixpoint slashes (s : string) : nat :=
  match s with
  | EmptyString => 0
  | String c s' => (if Ascii.eqb c "/" then 1 else 0) + slashes s'
  end.

(** A platform on which the output directory ["out"] has no directory
    inside: a path with a second slash cannot be opened. *)
Definition flat : OS :=
  {| os_path_join := posixpath_join;
     open_w := fun _ filepath => slashes filepath <=? 1;
     XLBW := true |}.

(** A platform on which no file can be written. *)
Definition read_only : OS :=
  {| os_path_join := posixpath_join; open_w := fun _ _ => false; XLBW := false |}.

End Sample.

(** ** [RunEvent.run]: reading the device and command lists *)

Module Input.

(** The characters at which [str.splitlines] ends a line, for code
    points below 256: U+000A..U+000D, U+001C..U+001E and U+0085. *)
Definition is_linebreak (c : ascii) : bool :=
  let n := nat_of_ascii c in
  ((10 <=? n) && (n <=? 13)) || ((28 <=? n) && (n <=? 30)) || (n =? 133).

Definition is_cr (c : ascii) : bool := nat_of_ascii c =? 13.
Definition is_lf (c : ascii) : bool := nat_of_ascii c =? 10.

(** [s.splitlines()]; [after_cr] says that the character before [s] was
    a carriage return, whose line feed belongs to the same line end. *)
Fixpoint splitlines_after (after_cr : bool) (s : string) : list string :=
  match s with
  | EmptyString => []
  | String c s' =>
      if after_cr && is_lf c then splitlines_after false s'
      else if is_linebreak c then EmptyString :: splitlines_after (is_cr c) s'
      else match splitlines_after false s' with
           | [] => [String c EmptyString]
           | line :: lines => String c line :: lines
           end
  end.

Definition splitlines (s : string) : list string := splitlines_after false s.

(** The truth value of a string: it is not empty. *)
Definition truthy (s : string) : bool :=
  match s with
  | EmptyString => false
  | String _ _ => true
  end.

(** [list(filter(None, text.splitlines()))] *)
Definition lines_of (text : string) : list string :=
  List.filter truthy (splitlines text).

(** The line holds no line end. *)
Definition unbroken (line : string) : Prop :=
  PyStr.all_chars (fun c => negb (is_linebreak c)) line = true.

(** ["\n".join(lines)] *)
Fixpoint join_lines (lines : list string) : string :=
  match lines with
  | [] => EmptyString
  | [line] => line
  | line :: lines' => line +:+ PyStr.newline +:+ join_lines lines'
  end.

End Input.

(** [run()] from the text of the two edit boxes on. *)
Definition run_text (devices_text commands_text : string)
    (GenericHandler : nat -> string -> option Netcore.GenericHandler)
    (os : OS) (output_type output_dir : string) (now : nat -> datetime)
    (schedule : list nat) : Outcome :=
  run (Input.lines_of devices_text) (Input.lines_of commands_text)
      GenericHandler os output_type output_dir now schedule.

(** ** The files of the text report on disk *)

(** What a path holds after the files were written in order with
    [open(filepath, "w")]: a later file written to the same path
    replaces the earlier one. *)
Definition on_disk (files : list (string * string)) (path : string) : option string :=
  Dict.get path (Dict.update [] files).

(** ** [Form]: the progress bar *)

Module Ui.

(** [QProgressBar.setValue] with the range 0..100 the bar is created
    with: a value outside the range is ignored. *)
Definition setValue (value bar : Z) : Z :=
  if ((value <? 0) || (100 <? value))%Z then bar else value.

(** [int(value)]: the fraction is cut off, towards zero. *)
Definition int (value : Q) : Z := Z.quot (Qnum value) (Z.pos (Qden value)).

(** [update_progress(value)] *)
Definition update_progress (value : Q) (bar : Z) : Z :=
  setValue (bar + int value) bar.

(** The bar after the slot was called with each increment in turn. *)
Definition received (increments : list Q) (bar : Z) : Z :=
  fold_left (fun bar value => update_progress value bar) increments bar.

(** [run_start_event()], for the bar. *)
Definition run_start_event (bar : Z) : Z := setValue 0 bar.

(** [run_finish_event()], for the bar. *)
Definition run_finish_event (bar : Z) : Z := setValue 100 bar.

End Ui.

(** * Properties *)

(** ** Dictionaries *)

Section DictFacts.
Context {K V : Type} `{EqDecision K}.
Implicit Types (d : list (K * V)) (k : K) (v : V).

Lemma get_set_eq d k v : Dict.get k (Dict.set k v d) = Some v.
Proof.
  induction d as [|[k' v'] d IH]; simpl.
  - by rewrite decide_True.
  - destruct (decide (k = k')) as [->|Hne]; simpl.
    + by rewrite decide_True.
    + by rewrite decide_False.
Qed.

Lemma get_set_ne d k k' v : k' ≠ k -> Dict.get k' (Dict.set k v d) = Dict.get k' d.
Proof.
  intros Hne. induction d as [|[k0 v0] d IH]; simpl.
  - by rewrite decide_False.
  - destruct (decide (k = k0)) as [->|Hk]; simpl.
    + by rewrite !decide_False.
    + by rewrite IH.
Qed.

Lemma get_Some_keys d k v : Dict.get k d = Some v -> k ∈ Dict.keys d.
Proof.
  induction d as [|[k' v'] d IH]; simpl; [done|].
  destruct (decide (k = k')) as [->|Hne]; intros Hg.
  - apply list_elem_of_here.
  - apply list_elem_of_further. by apply IH.
Qed.

Lemma keys_get_Some d k : k ∈ Dict.keys d -> is_Some (Dict.get k d).
Proof.
  induction d as [|[k' v'] d IH]; simpl.
  - intros Hin. by apply elem_of_nil in Hin.
  - intros Hin. destruct (decide (k = k')) as [->|Hne]; [by eexists|].
    apply IH. apply elem_of_cons in Hin as [?|?]; [done|done].
Qed.

Lemma get_None_keys d k : Dict.get k d = None -> k ∉ Dict.keys d.
Proof.
  intros Hg Hin. apply keys_get_Some in Hin as [v Hv]. congruence.
Qed.

(** Assignment keeps the key order: a present key stays where it is, a
    new key goes to the end. *)
Lemma keys_set_present d k v :
  k ∈ Dict.keys d -> Dict.keys (Dict.set k v d) = Dict.keys d.
Proof.
  unfold Dict.keys. induction d as [|[k' v'] d IH]; cbn [Dict.set map fst].
  - intros Hin. by apply elem_of_nil in Hin.
  - intros Hin. destruct (decide (k = k')) as [->|Hne]; cbn [map fst]; [reflexivity|].
    f_equal. apply IH. by apply elem_of_cons in Hin as [?|?].
Qed.

Lemma keys_set_new d k v :
  k ∉ Dict.keys d -> Dict.keys (Dict.set k v d) = Dict.keys d ++ [k].
Proof.
  unfold Dict.keys. induction d as [|[k' v'] d IH]; cbn [Dict.set map fst].
  - reflexivity.
  - intros Hout. destruct (decide (k = k')) as [->|Hne]; cbn [map fst].
    + exfalso. apply Hout, list_elem_of_here.
    + cbn [app]. f_equal. apply IH. intros Hin. apply Hout.
      by apply list_elem_of_further.
Qed.

Lemma keys_set d k v : Dict.keys (Dict.set k v d) = Dict.touch (Dict.keys d) k.
Proof.
  unfold Dict.touch. destruct (decide (k ∈ Dict.keys d)) as [Hin|Hout].
  - by apply keys_set_present.
  - by apply keys_set_new.
Qed.

Lemma length_set_present d k v :
  k ∈ Dict.keys d -> length (Dict.set k v d) = length d.
Proof.
  intros Hin. rewrite <- (length_map fst (Dict.set k v d)), <- (length_map fst d).
  change (map fst ?x) with (Dict.keys x). by rewrite keys_set_present.
Qed.

Lemma touch_elem (ks : list K) k k' : k' ∈ Dict.touch ks k <-> k' ∈ ks \/ k' = k.
Proof.
  unfold Dict.touch. destruct (decide (k ∈ ks)) as [Hin|Hout].
  - split; [by left|]. intros [?| ->]; done.
  - rewrite elem_of_app, list_elem_of_singleton. done.
Qed.

Lemma touch_NoDup (ks : list K) k : NoDup ks -> NoDup (Dict.touch ks k).
Proof.
  intros Hnd. unfold Dict.touch. destruct (decide (k ∈ ks)) as [Hin|Hout]; [done|].
  apply NoDup_app. split; [done|]. split.
  - intros x Hx ->%list_elem_of_singleton. done.
  - apply NoDup_singleton.
Qed.

Lemma insertion_order_snoc (ks : list K) k :
  Dict.insertion_order (ks ++ [k]) = Dict.touch (Dict.insertion_order ks) k.
Proof. unfold Dict.insertion_order. by rewrite fold_left_app. Qed.

Lemma insertion_order_elem (ks : list K) k : k ∈ Dict.insertion_order ks <-> k ∈ ks.
Proof.
  induction ks as [|k0 ks IH] using rev_ind.
  - done.
  - rewrite insertion_order_snoc, touch_elem, IH, elem_of_app, list_elem_of_singleton. done.
Qed.

Lemma insertion_order_NoDup (ks : list K) : NoDup (Dict.insertion_order ks).
Proof.
  induction ks as [|k0 ks IH] using rev_ind.
  - apply NoDup_nil_2.
  - rewrite insertion_order_snoc. by apply touch_NoDup.
Qed.

Lemma insertion_order_id (ks : list K) : NoDup ks -> Dict.insertion_order ks = ks.
Proof.
  induction ks as [|k0 ks IH] using rev_ind; [done|].
  intros [Hnd [Hdis _]]%NoDup_app. rewrite insertion_order_snoc, IH by done.
  unfold Dict.touch. rewrite decide_False; [done|].
  intros Hin. apply (Hdis k0 Hin). apply list_elem_of_here.
Qed.

End DictFacts.

(** ** The pool: invariants and termination *)

Section PoolFacts.
Variable devices : list string.
Variable commands : list string.
Variable GenericHandler : nat -> string -> option Netcore.GenericHandler.

Lemma shutdown_eq c :
  shutdown devices commands GenericHandler c
  = fold_left (finish devices commands GenericHandler) (seq 0 (length devices)) c.
Proof. reflexivity. Qed.

Lemma thread_executor_futures schedule s :
  (thread_executor devices commands GenericHandler schedule s).1.2
  = (shutdown devices commands GenericHandler
       (fold_left (step devices commands GenericHandler) schedule
          (emit 9 s, replicate (length devices) Submitted))).2.
Proof. reflexivity. Qed.

Lemma thread_executor_state schedule s :
  (thread_executor devices commands GenericHandler schedule s).1.1
  = (shutdown devices commands GenericHandler
       (fold_left (step devices commands GenericHandler) schedule
          (emit 9 s, replicate (length devices) Submitted))).1.
Proof. reflexivity. Qed.

Lemma thread_executor_logged schedule s :
  (thread_executor devices commands GenericHandler schedule s).2
  = logged devices (thread_executor devices commands GenericHandler schedule s).1.2.
Proof. reflexivity. Qed.

Local Abbreviation snapshot_step := (snapshot_step devices commands GenericHandler).
Local Abbreviation step := (step devices commands GenericHandler).
Local Abbreviation finish := (finish devices commands GenericHandler).
Local Abbreviation shutdown := (shutdown devices commands GenericHandler).
Local Abbreviation thread_executor := (thread_executor devices commands GenericHandler).

(** A property of the pool that every step of every task keeps holds
    when [thread_executor] returns. *)
Section Invariant.
Variable I : State -> list pc -> Prop.
Hypothesis I_step : preserved devices commands GenericHandler I.

Lemma step_invariant c i : I c.1 c.2 -> I (step c i).1 (step c i).2.
Proof.
  intros HI. unfold step.
  destruct (devices !! i) as [device|] eqn:Hd; [|done].
  destruct (c.2 !! i) as [p|] eqn:Hp; [|done].
  specialize (I_step _ _ _ _ _ HI Hd Hp).
  by destruct (snapshot_step i device p c.1).
Qed.

Lemma schedule_invariant schedule c :
  I c.1 c.2 -> I (fold_left step schedule c).1 (fold_left step schedule c).2.
Proof.
  revert c. induction schedule as [|i schedule IH]; intros c HI; [done|].
  simpl. by apply IH, step_invariant.
Qed.

Lemma iter_invariant n i c :
  I c.1 c.2 -> I (Nat.iter n (fun c => step c i) c).1 (Nat.iter n (fun c => step c i) c).2.
Proof. intros HI. induction n as [|n IH]; [done|]. simpl. by apply step_invariant. Qed.

Lemma finish_invariant c i : I c.1 c.2 -> I (finish c i).1 (finish c i).2.
Proof.
  intros HI. unfold finish. destruct (c.2 !! i); [|done]. by apply iter_invariant.
Qed.

Lemma shutdown_invariant c : I c.1 c.2 -> I (shutdown c).1 (shutdown c).2.
Proof.
  rewrite shutdown_eq. generalize (seq 0 (length devices)). intros l. revert c.
  induction l as [|i l IH]; intros c HI; [done|].
  simpl. by apply IH, finish_invariant.
Qed.

Lemma executor_invariant schedule s :
  I (emit 9 s) (replicate (length devices) Submitted) ->
  I (thread_executor schedule s).1.1 (thread_executor schedule s).1.2.
Proof.
  intros HI. rewrite thread_executor_state, thread_executor_futures.
  apply shutdown_invariant, schedule_invariant. exact HI.
Qed.
End Invariant.

(** *** Every task reaches a terminal state *)

Lemma steps_left_step i device p s :
  steps_left commands (snapshot_step i device p s).1 <= pred (steps_left commands p).
Proof.
  destruct p as [| |h|h k rest|r]; simpl; repeat case_match; simpl; lia.
Qed.

Lemma steps_left_0 p : steps_left commands p = 0 -> finished p.
Proof. destruct p; simpl; (lia || done). Qed.

Lemma step_length c i : length (step c i).2 = length c.2.
Proof.
  unfold step. destruct (devices !! i); [|done]. destruct (c.2 !! i); [|done].
  destruct (snapshot_step _ _ _ _). simpl. apply length_insert.
Qed.

Lemma step_lookup_ne c i j : i ≠ j -> (step c i).2 !! j = c.2 !! j.
Proof.
  intros Hne. unfold step. destruct (devices !! i); [|done]. destruct (c.2 !! i); [|done].
  destruct (snapshot_step _ _ _ _). simpl. by apply list_lookup_insert_ne.
Qed.

Lemma step_lookup_eq c i device p :
  devices !! i = Some device -> c.2 !! i = Some p ->
  (step c i).2 !! i = Some (snapshot_step i device p c.1).1.
Proof.
  intros Hd Hp. unfold step. rewrite Hd, Hp.
  destruct (snapshot_step _ _ _ _) eqn:E. simpl.
  apply list_lookup_insert_eq. by eapply lookup_lt_Some.
Qed.

(** A finished task stays as it is, whoever steps. *)
Lemma step_finished_stable c i j r :
  c.2 !! j = Some (Finished r) -> (step c i).2 !! j = Some (Finished r).
Proof.
  intros Hj. destruct (decide (i = j)) as [->|Hne].
  - unfold step. destruct (devices !! j) eqn:Hd; [|done]. rewrite Hj. simpl.
    apply list_lookup_insert_eq. by eapply lookup_lt_Some.
  - by rewrite step_lookup_ne.
Qed.

Lemma iter_length n i c : length (Nat.iter n (fun c => step c i) c).2 = length c.2.
Proof. induction n as [|n IH]; [done|]. simpl. by rewrite step_length. Qed.

Lemma iter_finished_stable n i j r c :
  c.2 !! j = Some (Finished r) ->
  (Nat.iter n (fun c => step c i) c).2 !! j = Some (Finished r).
Proof. intros Hj. induction n as [|n IH]; [done|]. simpl. by apply step_finished_stable. Qed.

Lemma iter_finishes n i device c p :
  devices !! i = Some device -> c.2 !! i = Some p -> steps_left commands p <= n ->
  exists r, (Nat.iter n (fun c => step c i) c).2 !! i = Some (Finished r).
Proof.
  intros Hd. revert c p. induction n as [|n IH]; intros c p Hp Hn.
  - simpl. assert (Hf : finished p) by (apply steps_left_0; lia).
    destruct p; try done. by eexists.
  - rewrite Nat.iter_succ_r.
    apply (IH (step c i) (snapshot_step i device p c.1).1).
    + by apply step_lookup_eq.
    + pose proof (steps_left_step i device p c.1). lia.
Qed.

Lemma finish_length c i : length (finish c i).2 = length c.2.
Proof. unfold finish. destruct (c.2 !! i); [|done]. apply iter_length. Qed.

Lemma finish_finished_stable c i j r :
  c.2 !! j = Some (Finished r) -> (finish c i).2 !! j = Some (Finished r).
Proof.
  intros Hj. unfold finish. destruct (c.2 !! i); [|done]. by apply iter_finished_stable.
Qed.

Lemma finish_finishes c i :
  length c.2 = length devices -> i < length devices ->
  exists r, (finish c i).2 !! i = Some (Finished r).
Proof.
  intros Hlen Hi. unfold finish.
  destruct (lookup_lt_is_Some_2 c.2 i) as [p Hp]; [lia|].
  destruct (lookup_lt_is_Some_2 devices i) as [device Hd]; [lia|].
  rewrite Hp. by eapply iter_finishes.
Qed.

Lemma fold_finish_length l c : length (fold_left finish l c).2 = length c.2.
Proof.
  revert c. induction l as [|i l IH]; intros c; [done|].
  simpl. by rewrite IH, finish_length.
Qed.

Lemma fold_finish_stable l c j r :
  c.2 !! j = Some (Finished r) -> (fold_left finish l c).2 !! j = Some (Finished r).
Proof.
  revert c. induction l as [|i l IH]; intros c Hj; [done|].
  simpl. by apply IH, finish_finished_stable.
Qed.

Lemma fold_finish_finishes l c j :
  length c.2 = length devices -> j ∈ l -> j < length devices ->
  exists r, (fold_left finish l c).2 !! j = Some (Finished r).
Proof.
  revert c. induction l as [|i l IH]; intros c Hlen Hin Hj.
  - by apply elem_of_nil in Hin.
  - simpl. apply elem_of_cons in Hin as [->|Hin].
    + destruct (finish_finishes c i Hlen Hj) as [r Hr].
      exists r. by apply fold_finish_stable.
    + apply IH; [by rewrite finish_length|done|done].
Qed.

Lemma schedule_length schedule c : length (fold_left step schedule c).2 = length c.2.
Proof.
  revert c. induction schedule as [|i l IH]; intros c; [done|].
  simpl. by rewrite IH, step_length.
Qed.

Lemma executor_length schedule s :
  length (thread_executor schedule s).1.2 = length devices.
Proof.
  rewrite thread_executor_futures, shutdown_eq.
  rewrite fold_finish_length, schedule_length. simpl. apply length_replicate.
Qed.

(** [shutdown(wait=True)] returns with every future done. *)
Lemma executor_all_finished schedule s i :
  i < length devices ->
  exists r, (thread_executor schedule s).1.2 !! i = Some (Finished r).
Proof.
  intros Hi. rewrite thread_executor_futures, shutdown_eq.
  apply fold_finish_finishes; [|by apply elem_of_seq; lia|done].
  rewrite schedule_length. simpl. apply length_replicate.
Qed.

End PoolFacts.

(** ** What one step can change *)

Section EventFacts.
Implicit Types (s : State) (e : event) (i j : nat).

Lemma sent_by_app i s evs :
  sent_by i {| output_data := output_data s; add_progress := add_progress s;
               events := events s ++ evs |}
  = sent_by i s ++ sent_by i {| output_data := []; add_progress := []; events := evs |}.
Proof. unfold sent_by. simpl. apply omap_app. Qed.

Lemma sent_by_events i s s' : events s' = events s -> sent_by i s' = sent_by i s.
Proof. unfold sent_by. by intros ->. Qed.

Lemma close_count_events i s s' : events s' = events s -> close_count i s' = close_count i s.
Proof. unfold close_count. by intros ->. Qed.

Lemma assigned_events s s' : events s' = events s -> assigned s' = assigned s.
Proof. unfold assigned. by intros ->. Qed.

Lemma sent_by_other i s s' evs :
  events s' = events s ++ evs -> Forall (fun e => task_of e ≠ i) evs ->
  sent_by i s' = sent_by i s.
Proof.
  unfold sent_by. intros -> Hevs. rewrite omap_app.
  rewrite <- (app_nil_r (omap _ (events s))) at 2. f_equal.
  induction Hevs as [|e evs He _ IH]; [done|].
  simpl. destruct e as [t|t c|t]; simpl in *; try done.
  by rewrite decide_False.
Qed.

Lemma close_count_other i s s' evs :
  events s' = events s ++ evs -> Forall (fun e => task_of e ≠ i) evs ->
  close_count i s' = close_count i s.
Proof.
  unfold close_count. intros -> Hevs. rewrite filter_app, length_app.
  assert (filter (fun e => e = EvClose i) evs = []) as ->; [|simpl; lia].
  induction Hevs as [|e evs He _ IH]; [done|].
  rewrite filter_cons_False; [done|]. intros ->. by apply He.
Qed.

Lemma assigned_other i s s' evs :
  events s' = events s ++ evs -> Forall (fun e => task_of e ≠ i) evs ->
  i ∈ assigned s' <-> i ∈ assigned s.
Proof.
  unfold assigned. intros -> Hevs. rewrite omap_app, elem_of_app.
  split; [|by left]. intros [?|Hin]; [done|]. exfalso.
  apply list_elem_of_omap in Hin as (e & He & Hi).
  rewrite Forall_forall in Hevs. specialize (Hevs e He).
  destruct e; by simplify_eq.
Qed.

Lemma sent_by_send i c s :
  sent_by i (record (EvSend i c) s) = sent_by i s ++ [c].
Proof. unfold sent_by. simpl. rewrite omap_app. simpl. by rewrite decide_True. Qed.

Lemma sent_by_record i e s :
  (forall c, e ≠ EvSend i c) -> sent_by i (record e s) = sent_by i s.
Proof.
  intros He. unfold sent_by. simpl. rewrite omap_app. simpl.
  destruct e as [t|t c|t]; simpl; rewrite ?app_nil_r; try done.
  destruct (decide (t = i)) as [->|]; [by destruct (He c)|by rewrite app_nil_r].
Qed.

Lemma close_count_close i s :
  close_count i (record (EvClose i) s) = S (close_count i s).
Proof.
  unfold close_count. simpl. rewrite filter_app, length_app.
  rewrite filter_cons_True by done. simpl. lia.
Qed.

Lemma close_count_record i e s :
  e ≠ EvClose i -> close_count i (record e s) = close_count i s.
Proof.
  intros He. unfold close_count. simpl. rewrite filter_app, length_app.
  rewrite filter_cons_False by done. simpl. lia.
Qed.

Lemma assigned_assign i s : assigned (record (EvAssign i) s) = assigned s ++ [i].
Proof. unfold assigned. simpl. by rewrite omap_app. Qed.

Lemma assigned_record e s :
  (forall i, e ≠ EvAssign i) -> assigned (record e s) = assigned s.
Proof.
  intros He. unfold assigned. simpl. rewrite omap_app. simpl.
  destruct e as [t|t c|t]; simpl; rewrite ?app_nil_r; try done.
  by destruct (He t).
Qed.

End EventFacts.

Section Footprint.
Variable devices : list string.
Variable commands : list string.
Variable GenericHandler : nat -> string -> option Netcore.GenericHandler.

Local Abbreviation snapshot_step := (snapshot_step devices commands GenericHandler).

Lemma touches_refl i device s : touches i device s s.
Proof.
  split; [|done|done]. exists []. by rewrite app_nil_r.
Qed.

Lemma touches_trans i device s1 s2 s3 :
  touches i device s1 s2 -> touches i device s2 s3 -> touches i device s1 s3.
Proof.
  intros [(e1 & He1 & Hf1) Hg1 Hk1] [(e2 & He2 & Hf2) Hg2 Hk2]. split.
  - exists (e1 ++ e2). rewrite He2, He1, app_assoc. split; [done|].
    by apply Forall_app.
  - intros d Hd. by rewrite Hg2, Hg1.
  - intros d Hd. by apply Hk2, Hk1.
Qed.

Lemma touches_emit i device q s : touches i device s (emit q s).
Proof.
  split; [|done|done]. exists []. simpl. by rewrite app_nil_r.
Qed.

Lemma touches_record i device e s : task_of e = i -> touches i device s (record e s).
Proof.
  intros He. split; [|done|done]. exists [e]. split; [done|]. by constructor.
Qed.

Lemma touches_assign i device entry s : touches i device s (assign device entry s).
Proof.
  split.
  - exists []. by rewrite app_nil_r.
  - intros d Hd. unfold entry_of. simpl. by apply get_set_ne.
  - intros d Hd. simpl. rewrite keys_set. apply touch_elem. by left.
Qed.

Lemma touches_modify i device f s s' :
  modify device f s = Some s' -> touches i device s s'.
Proof.
  unfold modify. destruct (Dict.get device (output_data s)); [|done].
  intros [= <-]. apply touches_assign.
Qed.

Lemma touches_begin_task i device s :
  touches i device s (begin_task devices i device s).
Proof.
  unfold begin_task.
  eapply touches_trans; [apply (touches_record i device (EvAssign i)); done|].
  eapply touches_trans; [apply touches_assign|apply touches_emit].
Qed.

(** The footprint of a step of task [i]. *)
Lemma snapshot_step_touches i device p s :
  touches i device s (snapshot_step i device p s).2.
Proof.
  destruct p as [| |h|h k rest|r]; simpl.
  - apply touches_begin_task.
  - destruct (GenericHandler i device); apply touches_refl.
  - destruct (modify _ _ _) as [s1|] eqn:Hm; [|apply touches_refl].
    apply touches_modify with (i := i) in Hm.
    destruct commands; simpl; (eapply touches_trans; [exact Hm|apply touches_emit]).
  - destruct rest as [|c rest]; simpl.
    + by apply touches_record.
    + pose proof (touches_record i device (EvSend i c) s eq_refl) as Hr.
      destruct (Netcore.sendCommand _ _ _); simpl; [|done].
      destruct (modify _ _ _) as [s1|] eqn:Hm; simpl; [|done].
      apply touches_modify with (i := i) in Hm.
      eapply touches_trans; [exact Hr|].
      eapply touches_trans; [exact Hm|apply touches_emit].
  - apply touches_refl.
Qed.

Lemma touches_not_task i j (evs : list event) :
  i ≠ j -> Forall (fun e => task_of e = i) evs -> Forall (fun e => task_of e ≠ j) evs.
Proof. intros Hne Hevs. eapply Forall_impl; [exact Hevs|]. by intros e ->. Qed.

(** A property of each task is preserved when the task's own steps
    keep it and the steps of the others, through their footprint,
    cannot break it. *)
Lemma each_task_preserved (L : nat -> string -> pc -> State -> Prop) :
  (forall s i d p, devices !! i = Some d -> L i d p s ->
     L i d (snapshot_step i d p s).1 (snapshot_step i d p s).2) ->
  (forall s s' i d j d' q, i ≠ j -> devices !! i = Some d -> devices !! j = Some d' ->
     touches i d s s' -> L j d' q s -> L j d' q s') ->
  preserved devices commands GenericHandler (each_task devices L).
Proof.
  intros Hown Hframe s tasks i device p HL Hd Hp j d q Hdj Hq.
  destruct (decide (i = j)) as [<-|Hne].
  - rewrite list_lookup_insert_eq in Hq by (by eapply lookup_lt_Some).
    simplify_eq. by apply Hown, HL.
  - rewrite list_lookup_insert_ne in Hq by done.
    eapply Hframe; [exact Hne|exact Hd|exact Hdj|apply snapshot_step_touches|].
    by apply HL.
Qed.

Lemma preserved_and (J I : State -> list pc -> Prop) :
  preserved devices commands GenericHandler J ->
  (forall s tasks i device p,
     J s tasks -> I s tasks -> devices !! i = Some device -> tasks !! i = Some p ->
     I (snapshot_step i device p s).2 (<[i := (snapshot_step i device p s).1]> tasks)) ->
  preserved devices commands GenericHandler (fun s tasks => J s tasks /\ I s tasks).
Proof.
  intros HJ HI s tasks i device p [Hj Hi] Hd Hp. split.
  - by apply HJ.
  - by apply HI.
Qed.

End Footprint.

(** ** The keys of [output_data] *)

Section Keys.
Variable devices : list string.
Variable commands : list string.
Variable GenericHandler : nat -> string -> option Netcore.GenericHandler.

Local Abbreviation snapshot_step := (snapshot_step devices commands GenericHandler).
Local Abbreviation thread_executor := (thread_executor devices commands GenericHandler).

Lemma modify_keys device f s s' :
  modify device f s = Some s' ->
  Dict.keys (output_data s') = Dict.keys (output_data s) /\ events s' = events s.
Proof.
  unfold modify. destruct (Dict.get device (output_data s)) eqn:Hg; [|done].
  intros [= <-]. simpl. split; [|done].
  apply keys_set_present. by eapply get_Some_keys.
Qed.

(** A step that is not the first one of its task changes neither the
    keys nor the order of assignment. *)
Lemma later_step_keys i device p s :
  p ≠ Submitted ->
  Dict.keys (output_data (snapshot_step i device p s).2) = Dict.keys (output_data s)
  /\ assigned (snapshot_step i device p s).2 = assigned s
  /\ (snapshot_step i device p s).1 ≠ Submitted.
Proof.
  intros Hp. destruct p as [| |h|h k rest|r]; simpl; [done| | | |done].
  - by destruct (GenericHandler i device).
  - destruct (modify _ _ _) as [s1|] eqn:Hm; [|done].
    apply modify_keys in Hm as [Hk He].
    destruct commands; simpl; rewrite Hk; (split; [done|]);
      (split; [by apply assigned_events|done]).
  - destruct rest as [|c rest]; simpl.
    + split; [done|]. split; [|done]. by apply assigned_record.
    + pose proof (assigned_record (EvSend i c) s) as Ha.
      destruct (Netcore.sendCommand _ _ _); simpl; [|by rewrite Ha].
      destruct (modify _ _ _) as [s1|] eqn:Hm; simpl; [|by rewrite Ha].
      apply modify_keys in Hm as [Hk He]. rewrite Hk. simpl.
      split; [done|]. split; [|done].
      rewrite <- Ha by done. by apply assigned_events.
Qed.

Lemma begin_task_assigned i device s :
  assigned (begin_task devices i device s) = assigned s ++ [i].
Proof. unfold begin_task. rewrite <- assigned_assign. by apply assigned_events. Qed.

Lemma begin_task_keys i device s :
  Dict.keys (output_data (begin_task devices i device s))
  = Dict.touch (Dict.keys (output_data s)) device.
Proof. unfold begin_task. simpl. apply keys_set. Qed.

Lemma keys_ok_preserved : preserved devices commands GenericHandler (keys_ok devices).
Proof.
  intros s tasks i device p (Hkeys & Hnd & Hiff) Hd Hp.
  assert (Hlt : i < length tasks) by (by eapply lookup_lt_Some).
  assert (p = Submitted \/ p ≠ Submitted) as [->|Hne]
    by (destruct p; [by left|by right..]).
  - change (snapshot_step i device Submitted s)
      with (Connecting, begin_task devices i device s).
    unfold keys_ok, assigned_devices. cbn [fst snd].
    rewrite begin_task_assigned, begin_task_keys.
    assert (Hi : i ∉ assigned s).
    { intros Hin. apply Hiff in Hin as (p & Hp' & Hsub). congruence. }
    split; [|split].
    + rewrite omap_app. simpl. rewrite Hd. simpl.
      rewrite insertion_order_snoc. f_equal. exact Hkeys.
    + apply NoDup_app. split; [done|]. split; [|apply NoDup_singleton].
      intros x Hx ->%list_elem_of_singleton. done.
    + intros j. rewrite elem_of_app, list_elem_of_singleton, Hiff.
      destruct (decide (j = i)) as [->|Hji].
      * rewrite list_lookup_insert_eq by done. split; [|by right].
        intros _. by exists Connecting.
      * rewrite list_lookup_insert_ne by done. split; [|by left].
        by intros [?|?].
  - destruct (later_step_keys i device p s Hne) as (Hk & Ha & Hp1).
    unfold keys_ok, assigned_devices. rewrite Hk, Ha. split; [done|]. split; [done|].
    intros j. rewrite Hiff. destruct (decide (j = i)) as [->|Hji].
    + rewrite list_lookup_insert_eq by done. split.
      * intros _. by eexists.
      * intros _. by exists p.
    + by rewrite list_lookup_insert_ne.
Qed.

Lemma keys_ok_initial s0 :
  output_data s0 = [] -> events s0 = [] ->
  keys_ok devices (emit 9 s0) (replicate (length devices) Submitted).
Proof.
  intros Ho He. unfold keys_ok, assigned_devices, assigned. simpl. rewrite Ho, He. simpl.
  split; [done|]. split; [apply NoDup_nil_2|].
  intros i. split; [by intros ?%elem_of_nil|].
  intros (p & Hp & Hne). apply lookup_replicate in Hp as [-> _]. done.
Qed.

Lemma executor_keys_ok schedule :
  keys_ok devices (thread_executor schedule initial_state).1.1
          (thread_executor schedule initial_state).1.2.
Proof.
  apply executor_invariant; [apply keys_ok_preserved|by apply keys_ok_initial].
Qed.

(** When the executor returns, every task has made its assignment,
    once. *)
Lemma executor_assigned schedule i :
  i ∈ assigned (thread_executor schedule initial_state).1.1 <-> i < length devices.
Proof.
  destruct (executor_keys_ok schedule) as (_ & _ & Hiff). rewrite Hiff. split.
  - intros (p & Hp & _). apply lookup_lt_Some in Hp. by rewrite executor_length in Hp.
  - intros Hi. destruct (executor_all_finished devices commands GenericHandler schedule
                           initial_state i Hi) as [r Hr].
    by exists (Finished r).
Qed.

Lemma executor_assigned_devices schedule d :
  d ∈ assigned_devices devices (thread_executor schedule initial_state).1.1 <-> d ∈ devices.
Proof.
  unfold assigned_devices. rewrite list_elem_of_omap. split.
  - intros (i & _ & Hi). by eapply list_elem_of_lookup_2.
  - intros (i & Hi)%list_elem_of_lookup_1. exists i. split; [|done].
    apply executor_assigned. by eapply lookup_lt_Some.
Qed.

End Keys.

Section KeysOrder.
Variable devices : list string.
Variable commands : list string.
Variable GenericHandler : nat -> string -> option Netcore.GenericHandler.

Lemma omap_lookup_seq {A} (pre l : list A) :
  omap (fun i => (pre ++ l) !! i) (seq (length pre) (length l)) = l.
Proof.
  revert pre. induction l as [|x l IH]; intros pre; [done|].
  simpl. rewrite list_lookup_middle by done. simpl. f_equal.
  specialize (IH (pre ++ [x])). rewrite length_app, <- app_assoc in IH.
  simpl in IH. rewrite Nat.add_1_r in IH. exact IH.
Qed.

Lemma assigned_devices_in_order s :
  assigned s = seq 0 (length devices) -> assigned_devices devices s = devices.
Proof. unfold assigned_devices. intros ->. apply (omap_lookup_seq [] devices). Qed.

(** Every device of the list has an entry when the executor returns. *)
Lemma output_data_keys_present schedule d :
  d ∈ devices ->
  d ∈ Dict.keys (output_data
         (thread_executor devices commands GenericHandler schedule initial_state).1.1).
Proof.
  intros Hd. destruct (executor_keys_ok devices commands GenericHandler schedule)
    as (Hkeys & _ & _).
  rewrite Hkeys, insertion_order_elem. by apply executor_assigned_devices.
Qed.

(** C1, as amended.  Whatever the schedule, and so whatever the order
    in which the tasks complete, [output_data] ends with exactly one
    entry per distinct device identifier: its keys are pairwise
    distinct and are the identifiers of the device list.  The keys
    iterate in the order in which the tasks executed the assignment of
    line 82, first occurrences only.  For pairwise distinct
    identifiers the number of entries is the number of devices, and
    when the tasks execute that assignment in submission order the
    keys are the device list itself. *)
Theorem output_data_keys_by_assignment schedule :
  let s := (thread_executor devices commands GenericHandler schedule initial_state).1.1 in
  NoDup (Dict.keys (output_data s))
  /\ (forall d, d ∈ Dict.keys (output_data s) <-> d ∈ devices)
  /\ Dict.keys (output_data s) = Dict.insertion_order (assigned_devices devices s)
  /\ (NoDup devices -> length (output_data s) = length devices)
  /\ (NoDup devices -> assigned s = seq 0 (length devices) ->
      Dict.keys (output_data s) = devices).
Proof.
  intros s. destruct (executor_keys_ok devices commands GenericHandler schedule)
    as (Hkeys & _ & _). fold s in Hkeys.
  assert (Hnd : NoDup (Dict.keys (output_data s))).
  { rewrite Hkeys. apply insertion_order_NoDup. }
  assert (Hel : forall d, d ∈ Dict.keys (output_data s) <-> d ∈ devices).
  { intros d. rewrite Hkeys, insertion_order_elem.
    apply executor_assigned_devices. }
  split; [done|]. split; [done|]. split; [done|]. split.
  - intros Hdev. rewrite <- (length_map fst (output_data s)).
    apply Permutation_length, NoDup_Permutation; done.
  - intros Hdev Hseq. rewrite Hkeys, assigned_devices_in_order by done.
    by apply insertion_order_id.
Qed.

End KeysOrder.

(** ** What each task has done *)

Section TaskFacts.
Variable devices : list string.
Variable commands : list string.
Variable GenericHandler : nat -> string -> option Netcore.GenericHandler.

Local Abbreviation step1 := (snapshot_step devices commands GenericHandler).
Local Abbreviation shape := (task_shape commands GenericHandler).
Local Abbreviation ok := (task_ok devices commands GenericHandler).

Lemma final_shape_mono i d r sent close (holds holds' : Entry -> Prop) :
  (forall e, holds e -> holds' e) ->
  final_shape commands GenericHandler i d r sent close holds ->
  final_shape commands GenericHandler i d r sent close holds'.
Proof.
  intros Hh. destruct r as [[d'|d' c| |k]|]; simpl.
  - intros (? & ? & ? & ? & ?). repeat split; auto.
  - intros (? & h & n & ? & ? & ? & ? & ? & ? & ?). split; [done|].
    exists h, n. repeat split; auto.
  - intros (h & ? & ? & ? & ? & ?). exists h. repeat split; auto.
  - done.
  - intros (h & ? & ? & ? & ? & ? & ?). exists h. repeat split; auto.
Qed.

Lemma task_shape_mono i d p sent close (key key' : Prop) (holds holds' : Entry -> Prop) :
  (key -> key') -> (forall e, holds e -> holds' e) ->
  shape i d p sent close key holds -> shape i d p sent close key' holds'.
Proof.
  intros Hk Hh. destruct p as [| |h|h k rest|r]; simpl.
  - done.
  - intros (? & ? & ? & ?). repeat split; auto.
  - intros (? & ? & ? & ? & ?). repeat split; auto.
  - intros (? & ? & ? & ? & ? & ? & ? & ? & ?). repeat split; auto.
  - by apply final_shape_mono.
Qed.

(** The steps of another task cannot break what is known of a task. *)
Lemma task_ok_frame s s' i d j d' q :
  i ≠ j -> devices !! i = Some d -> devices !! j = Some d' ->
  touches i d s s' -> ok j d' q s -> ok j d' q s'.
Proof.
  intros Hne Hi Hj [(evs & Hev & Hall) Hentry Hkeys]. unfold task_ok.
  pose proof (touches_not_task i j evs Hne Hall) as Hnot.
  rewrite (sent_by_other j s s' evs Hev Hnot), (close_count_other j s s' evs Hev Hnot).
  apply task_shape_mono; [apply Hkeys|].
  intros e He Honce. rewrite Hentry; [by apply He|].
  intros ->. apply Hne. by apply Honce.
Qed.

Lemma drop_cons_inv {A} (l : list A) k x rest :
  drop k l = x :: rest -> l !! k = Some x /\ rest = drop (S k) l.
Proof.
  intros Hd. assert (Hx : l !! k = Some x).
  { rewrite <- (Nat.add_0_r k), <- lookup_drop, Hd. done. }
  split; [done|]. rewrite (drop_S _ _ _ Hx) in Hd. by simplify_eq.
Qed.

Lemma drop_nil_inv {A} (l : list A) k : drop k l = [] -> length l <= k.
Proof. intros Hd. pose proof (length_drop l k) as Hl. rewrite Hd in Hl. simpl in Hl. lia. Qed.

Lemma modify_present device f s e :
  entry_of device s = Some e ->
  modify device f s = Some (assign device (f e) s).
Proof. unfold modify, entry_of. by intros ->. Qed.

Lemma entry_of_assign device e s : entry_of device (assign device e s) = Some e.
Proof. unfold entry_of. simpl. apply get_set_eq. Qed.

Lemma keys_assign device e s d :
  d ∈ Dict.keys (output_data s) -> d ∈ Dict.keys (output_data (assign device e s)).
Proof. simpl. rewrite keys_set, touch_elem. by left. Qed.

Lemma key_assign device e s : device ∈ Dict.keys (output_data (assign device e s)).
Proof. simpl. rewrite keys_set, touch_elem. by right. Qed.

Lemma answers_S h k c raw :
  answers commands h k -> commands !! k = Some c ->
  Netcore.sendCommand h k c = Some raw -> answers commands h (S k).
Proof.
  intros Ha Hc Hs j c' Hj Hc'. destruct (decide (j = k)) as [->|Hne].
  - simplify_eq. by eexists.
  - apply Ha; [lia|done].
Qed.

Lemma stored_S h k c raw :
  commands !! k = Some c -> Netcore.sendCommand h k c = Some raw ->
  stored commands h (S k) = Dict.set c (PyStr.strip raw) (stored commands h k).
Proof. intros Hc Hs. simpl. by rewrite Hc, Hs. Qed.

(** A step of the task itself. *)
Lemma task_ok_own s i d p :
  devices !! i = Some d -> ok i d p s -> ok i d (step1 i d p s).1 (step1 i d p s).2.
Proof.
  intros Hd. unfold task_ok. destruct p as [| |h|h k rest|r].
  - (* the assignment of line 82 *)
    intros [Hsent Hclose].
    change (step1 i d Submitted s) with (Connecting, begin_task devices i d s).
    cbn [fst snd task_shape]. unfold begin_task.
    rewrite (sent_by_events i (record (EvAssign i) s) (emit _ _)) by done.
    rewrite (close_count_events i (record (EvAssign i) s) (emit _ _)) by done.
    rewrite sent_by_record, close_count_record by done.
    split; [apply key_assign|]. split; [done|]. split; [done|].
    intros _. apply entry_of_assign.
  - (* the call of the constructor *)
    intros (Hkey & Hsent & Hclose & Hentry). simpl.
    destruct (GenericHandler i d) as [h|] eqn:Hgh; simpl; by rewrite ?Hgh.
  - (* the prompt *)
    intros (Hgh & Hkey & Hsent & Hclose & Hentry). simpl.
    apply keys_get_Some in Hkey as [e He].
    rewrite (modify_present d _ s e He).
    set (s1 := assign d (set_prompt (Netcore.prompt h) e) s).
    assert (Hentry1 : forall x, holds_in devices i d s1
               {| prompt := Netcore.prompt h; command_output := x |} ->
             holds_in devices i d (emit (available_progress devices * 0.2) s1)
               {| prompt := Netcore.prompt h; command_output := x |}) by done.
    assert (Hp : holds_in devices i d s1
               {| prompt := Netcore.prompt h; command_output := [] |}).
    { intros Ho. specialize (Hentry Ho). unfold s1. rewrite entry_of_assign.
      assert (e = empty_entry) as -> by (unfold entry_of in *; congruence). done. }
    destruct commands as [|c0 cs] eqn:Hcs; simpl.
    + exists h. by rewrite Hgh.
    + split; [done|]. split; [done|]. split; [done|]. split; [lia|].
      split; [intros j c Hj; lia|]. split; [by apply key_assign|].
      split; [done|]. split; [done|]. by apply Hentry1.
  - (* one turn of the loop, or the call of close *)
    intros (Hgh & Hne & Hrest & Hk & Hans & Hkey & Hsent & Hclose & Hentry).
    destruct rest as [|c rest].
    + simpl. symmetry in Hrest. apply drop_nil_inv in Hrest.
      assert (k = length commands) as -> by lia.
      exists h. rewrite close_count_close, Hclose.
      rewrite sent_by_record, Hsent, firstn_all by done. done.
    + symmetry in Hrest. apply drop_cons_inv in Hrest as [Hc Hrest].
      assert (Hk' : S k <= length commands) by (apply lookup_lt_Some in Hc; lia).
      assert (Hsent' : sent_by i (record (EvSend i c) s) = take (S k) commands).
      { rewrite sent_by_send, Hsent. symmetry. by apply take_S_r. }
      assert (Hclose' : close_count i (record (EvSend i c) s) = 0).
      { by rewrite close_count_record. }
      simpl. destruct (Netcore.sendCommand h k c) as [raw|] eqn:Hs; simpl.
      * apply keys_get_Some in Hkey as [e He].
        rewrite (modify_present d _ (record (EvSend i c) s) e He). simpl.
        split; [done|]. split; [done|]. split; [done|]. split; [done|].
        split; [by eapply answers_S|]. split; [by apply key_assign|].
        split; [exact Hsent'|]. split; [exact Hclose'|].
        intros Ho. specialize (Hentry Ho).
        assert (e = {| prompt := Netcore.prompt h; command_output := stored commands h k |})
          as -> by (unfold entry_of in *; simpl in *; congruence).
        unfold entry_of. simpl. rewrite get_set_eq. unfold set_output. simpl.
        by rewrite Hc, Hs.
      * split; [done|]. exists h, k. done.
  - done.
Qed.

Lemma task_ok_preserved :
  preserved devices commands GenericHandler (each_task devices ok).
Proof.
  apply each_task_preserved.
  - intros s i d p Hd. by apply task_ok_own.
  - intros s s' i d j d' q. apply task_ok_frame.
Qed.

Lemma task_ok_initial s0 :
  events s0 = [] ->
  each_task devices ok (emit 9 s0) (replicate (length devices) Submitted).
Proof.
  intros He j d p Hd [-> _]%lookup_replicate.
  unfold task_ok, sent_by, close_count. simpl. by rewrite He.
Qed.

(** Every future ends holding what its task did. *)
Lemma executor_task_ok schedule i d :
  devices !! i = Some d ->
  exists r,
    (thread_executor devices commands GenericHandler schedule initial_state).1.2 !! i
      = Some (Finished r)
    /\ ok i d (Finished r)
         (thread_executor devices commands GenericHandler schedule initial_state).1.1.
Proof.
  intros Hd.
  destruct (executor_all_finished devices commands GenericHandler schedule initial_state i)
    as [r Hr]; [by eapply lookup_lt_Some|].
  exists r. split; [done|].
  pose proof (executor_invariant devices commands GenericHandler _ task_ok_preserved
                schedule initial_state (task_ok_initial initial_state eq_refl)) as Hall.
  by apply Hall.
Qed.

End TaskFacts.

(** ** The progress emitted *)

Section SumFacts.

Lemma total_snoc qs q : (total (qs ++ [q]) == total qs + q)%Q.
Proof.
  induction qs as [|x qs IH]; simpl.
  - ring.
  - rewrite IH. ring.
Qed.

Lemma total_emit q s : (total (add_progress (emit q s)) == total (add_progress s) + q)%Q.
Proof. simpl. apply total_snoc. Qed.

Lemma total_app qs qs' : (total (qs ++ qs') == total qs + total qs')%Q.
Proof.
  induction qs as [|x qs IH]; simpl.
  - ring.
  - rewrite IH. ring.
Qed.

Lemma sum_over_cons j l g : sum_over (j :: l) g = (g j + sum_over l g)%Q.
Proof. reflexivity. Qed.

Lemma sum_over_ext l g g' :
  (forall j, j ∈ l -> (g j == g' j)%Q) -> (sum_over l g == sum_over l g')%Q.
Proof.
  induction l as [|j l IH]; intros Hext; [reflexivity|].
  rewrite !sum_over_cons, IH, (Hext j).
  - reflexivity.
  - apply list_elem_of_here.
  - intros j' Hj'. apply Hext. by apply list_elem_of_further.
Qed.

(** Changing [g] at one position changes the sum by the difference. *)
Lemma sum_over_update l g g' i :
  NoDup l -> i ∈ l -> (forall j, j ≠ i -> (g' j == g j)%Q) ->
  (sum_over l g' + g i == sum_over l g + g' i)%Q.
Proof.
  intros Hnd Hin Hext. induction Hnd as [|j l Hj Hnd IH]; [by apply elem_of_nil in Hin|].
  rewrite !sum_over_cons. destruct (decide (j = i)) as [->|Hne].
  - rewrite (sum_over_ext l g' g).
    + ring.
    + intros j' Hj'. apply Hext. by intros ->.
  - apply elem_of_cons in Hin as [->|Hin]; [done|].
    rewrite (Hext j Hne). specialize (IH Hin).
    transitivity (g j + (sum_over l g' + g i))%Q; [ring|].
    rewrite IH. ring.
Qed.

Lemma Qnat_S n : (Qnat (S n) == Qnat n + 1)%Q.
Proof.
  unfold Qnat. rewrite Nat2Z.inj_succ, <- Z.add_1_r, inject_Z_plus. reflexivity.
Qed.

Lemma Qnat_nonzero n : n <> 0 -> ~ (Qnat n == 0)%Q.
Proof.
  intros Hn. unfold Qnat, Qeq. simpl. lia.
Qed.

(** The sum of a function with two values. *)
Lemma sum_over_two_values l (g : nat -> Q) (b : nat -> bool) (x y : Q) :
  (forall j, j ∈ l -> (g j == if b j then x else y)%Q) ->
  (sum_over l g == Qnat (length l) * y - Qnat (length (filter (fun j => b j = true) l)) * (y - x))%Q.
Proof.
  induction l as [|j l IH]; intros Hg.
  - unfold sum_over, Qnat. simpl. ring.
  - rewrite sum_over_cons, IH by (intros j' Hj'; apply Hg; by apply list_elem_of_further).
    rewrite (Hg j) by apply list_elem_of_here.
    cbn [length]. rewrite Qnat_S. destruct (b j) eqn:Hb.
    + rewrite filter_cons_True by done. cbn [length]. rewrite Qnat_S. ring.
    + rewrite filter_cons_False by (rewrite Hb; done). ring.
Qed.

End SumFacts.

Section Progress.
Variable devices : list string.
Variable commands : list string.
Variable GenericHandler : nat -> string -> option Netcore.GenericHandler.

Local Abbreviation step1 := (snapshot_step devices commands GenericHandler).
Local Abbreviation ok := (task_ok devices commands GenericHandler).
Local Abbreviation owed1 := (owed devices commands GenericHandler).

(** A step emits what it no longer owes. *)
Lemma step_owed s i d p :
  ok i d p s ->
  (total (add_progress (step1 i d p s).2) + owed1 i d (step1 i d p s).1
   == total (add_progress s) + owed1 i d p)%Q.
Proof.
  unfold task_ok. destruct p as [| |h|h k rest|r]; simpl.
  - intros _. rewrite total_snoc. ring.
  - intros _. unfold connect_owed. destruct (GenericHandler i d); simpl; reflexivity.
  - intros (_ & Hkey & _). apply keys_get_Some in Hkey as [e He].
    rewrite (modify_present d _ s e He). unfold handler_owed.
    destruct commands; simpl; rewrite total_snoc; ring.
  - intros (_ & _ & _ & _ & _ & Hkey & _).
    destruct rest as [|c rest]; simpl; [reflexivity|].
    destruct (Netcore.sendCommand h k c); simpl; [|reflexivity].
    apply keys_get_Some in Hkey as [e He].
    rewrite (modify_present d _ (record (EvSend i c) s) e He). simpl.
    rewrite total_snoc. ring.
  - intros _. reflexivity.
Qed.

Lemma owed_at_insert_eq tasks i d p :
  devices !! i = Some d -> i < length tasks ->
  owed_at devices commands GenericHandler (<[i := p]> tasks) i = owed1 i d p.
Proof.
  intros Hd Hi. unfold owed_at. by rewrite Hd, list_lookup_insert_eq.
Qed.

Lemma owed_at_insert_ne tasks i j p :
  j ≠ i ->
  owed_at devices commands GenericHandler (<[i := p]> tasks) j
  = owed_at devices commands GenericHandler tasks j.
Proof. intros Hne. unfold owed_at. by rewrite list_lookup_insert_ne. Qed.

Lemma progress_ok_preserved :
  preserved devices commands GenericHandler
    (fun s tasks => each_task devices ok s tasks
                    /\ progress_ok devices commands GenericHandler s tasks).
Proof.
  apply preserved_and; [apply task_ok_preserved|].
  intros s tasks i d p Hall Hsum Hd Hp. unfold progress_ok in *.
  assert (Hi : i < length tasks) by (by eapply lookup_lt_Some).
  assert (Hin : i ∈ seq 0 (length devices)).
  { apply elem_of_seq. apply lookup_lt_Some in Hd. lia. }
  pose proof (sum_over_update (seq 0 (length devices))
                (owed_at devices commands GenericHandler tasks)
                (owed_at devices commands GenericHandler (<[i := (step1 i d p s).1]> tasks))
                i (NoDup_seq _ _) Hin) as Hup.
  rewrite (owed_at_insert_eq tasks i d _ Hd Hi) in Hup.
  assert (Hold : owed_at devices commands GenericHandler tasks i = owed1 i d p).
  { unfold owed_at. by rewrite Hd, Hp. }
  rewrite Hold in Hup.
  specialize (Hup (fun j Hj => eq_ind_r (fun x => (x == _)%Q) (Qeq_refl _)
                                 (owed_at_insert_ne tasks i j _ Hj))).
  pose proof (step_owed s i d p (Hall i d p Hd Hp)) as Hstep.
  rewrite <- Hsum.
  apply (Qplus_inj_r _ _ (owed1 i d p)).
  transitivity (total (add_progress (step1 i d p s).2)
      + (sum_over (seq 0 (length devices))
          (owed_at devices commands GenericHandler (<[i:=(step1 i d p s).1]> tasks))
      + owed1 i d p))%Q; [ring|].
  rewrite Hup.
  transitivity (total (add_progress (step1 i d p s).2) + owed1 i d (step1 i d p s).1
      + sum_over (seq 0 (length devices)) (owed_at devices commands GenericHandler tasks))%Q;
    [ring|].
  rewrite Hstep. ring.
Qed.

Lemma progress_ok_initial :
  progress_ok devices commands GenericHandler (emit 9 initial_state)
    (replicate (length devices) Submitted).
Proof.
  unfold progress_ok. simpl.
  rewrite (sum_over_ext _ _ (spent devices commands GenericHandler)); [ring|].
  intros j [_ Hj]%elem_of_seq. unfold owed_at, spent.
  destruct (devices !! j); [|reflexivity].
  rewrite lookup_replicate_2 by lia. reflexivity.
Qed.

(** Whatever the schedule, [thread_executor] has emitted the 9 of its
    start and what each task spends. *)
Lemma executor_progress schedule :
  (total (add_progress
            (thread_executor devices commands GenericHandler schedule initial_state).1.1)
   == 9 + sum_over (seq 0 (length devices)) (spent devices commands GenericHandler))%Q.
Proof.
  pose proof (executor_invariant devices commands GenericHandler _ progress_ok_preserved
                schedule initial_state
                (conj (task_ok_initial devices commands GenericHandler initial_state eq_refl)
                      progress_ok_initial)) as [_ Hsum].
  unfold progress_ok in Hsum. rewrite <- Hsum.
  rewrite (sum_over_ext _ _ (fun _ => 0%Q)).
  - assert (forall l, (sum_over l (fun _ => 0) == 0)%Q) as ->; [|ring].
    induction l as [|j l IH]; [reflexivity|]. rewrite sum_over_cons, IH. ring.
  - intros j [_ Hj]%elem_of_seq. unfold owed_at.
    destruct (devices !! j); [|reflexivity].
    destruct (executor_all_finished devices commands GenericHandler schedule
                initial_state j) as [r ->]; [lia|]. reflexivity.
Qed.

End Progress.

Section RunFacts.
Variable devices : list string.
Variable commands : list string.
Variable GenericHandler : nat -> string -> option Netcore.GenericHandler.
Variable os : OS.
Variables (output_type output_dir : string) (now : nat -> datetime).
Variable schedule : list nat.

Lemma run_final :
  final (run devices commands GenericHandler os output_type output_dir now schedule)
  = match raised (run devices commands GenericHandler os output_type output_dir now schedule)
    with
    | None => emit 2 (thread_executor devices commands GenericHandler schedule
                                      initial_state).1.1
    | Some _ => (thread_executor devices commands GenericHandler schedule initial_state).1.1
    end.
Proof.
  unfold run, raised.
  by destruct (thread_executor devices commands GenericHandler schedule initial_state)
    as [[s f] e].
Qed.

Lemma run_output_data :
  output_data (final (run devices commands GenericHandler os output_type output_dir now
                          schedule))
  = output_data (thread_executor devices commands GenericHandler schedule initial_state).1.1.
Proof. rewrite run_final. by destruct (raised _). Qed.

Lemma run_events :
  events (final (run devices commands GenericHandler os output_type output_dir now schedule))
  = events (thread_executor devices commands GenericHandler schedule initial_state).1.1.
Proof. rewrite run_final. by destruct (raised _). Qed.

Lemma run_sent_by i :
  sent_by i (final (run devices commands GenericHandler os output_type output_dir now
                        schedule))
  = sent_by i (thread_executor devices commands GenericHandler schedule initial_state).1.1.
Proof. unfold sent_by. by rewrite run_events. Qed.

Lemma run_close_count i :
  close_count i (final (run devices commands GenericHandler os output_type output_dir now
                            schedule))
  = close_count i (thread_executor devices commands GenericHandler schedule
                                   initial_state).1.1.
Proof. unfold close_count. by rewrite run_events. Qed.

Lemma run_add_progress :
  add_progress (final (run devices commands GenericHandler os output_type output_dir now
                           schedule))
  = add_progress (thread_executor devices commands GenericHandler schedule
                                  initial_state).1.1
    ++ match raised (run devices commands GenericHandler os output_type output_dir now
                         schedule)
       with
       | None => [2%Q]
       | Some _ => []
       end.
Proof. rewrite run_final. destruct (raised _); [by rewrite app_nil_r|done]. Qed.

Lemma run_tasks :
  tasks (run devices commands GenericHandler os output_type output_dir now schedule)
  = (thread_executor devices commands GenericHandler schedule initial_state).1.2.
Proof.
  unfold run.
  by destruct (thread_executor devices commands GenericHandler schedule initial_state)
    as [[s f] e].
Qed.

Lemma run_errors :
  errors (run devices commands GenericHandler os output_type output_dir now schedule)
  = logged devices
      (thread_executor devices commands GenericHandler schedule initial_state).1.2.
Proof.
  unfold run. rewrite <- thread_executor_logged.
  by destruct (thread_executor devices commands GenericHandler schedule initial_state)
    as [[s f] e].
Qed.

Lemma run_written :
  written (run devices commands GenericHandler os output_type output_dir now schedule)
  = Report.generate_report os output_type output_dir now
      (output_data
         (thread_executor devices commands GenericHandler schedule initial_state).1.1).
Proof.
  unfold run.
  by destruct (thread_executor devices commands GenericHandler schedule initial_state)
    as [[s f] e].
Qed.


(** The increments of a whole run: 9, what each task spends, and the 2
    of line 50 when [generate_report] has returned. *)
Lemma run_progress :
  (total (add_progress
            (final (run devices commands GenericHandler os output_type output_dir now schedule)))
   == match raised (run devices commands GenericHandler os output_type output_dir now
                        schedule)
      with
      | None => 11
      | Some _ => 9
      end
      + sum_over (seq 0 (length devices)) (spent devices commands GenericHandler))%Q.
Proof.
  rewrite run_add_progress, total_app, executor_progress.
  destruct (raised _); simpl; ring.
Qed.

End RunFacts.

(** ** Binary64 rounding *)

Section B64Facts.
Import B64.
Local Open Scope Q_scope.

Lemma pow2_pos k : 0 < pow2 k.
Proof. apply Qpower_0_lt. reflexivity. Qed.

Lemma pow2_add a b : pow2 (a + b) == pow2 a * pow2 b.
Proof. apply Qpower_plus. discriminate. Qed.

Lemma pow2_le a b : (a <= b)%Z -> pow2 a <= pow2 b.
Proof. intros H. apply Qpower_le_compat_l; [exact H|discriminate]. Qed.

Lemma pow2_lt_inv a b : pow2 a < pow2 b -> (a < b)%Z.
Proof. intros H. apply (Qpower_lt_compat_l_inv 2); [exact H|reflexivity]. Qed.

Lemma pow2_inject k : (0 <= k)%Z -> pow2 k == inject_Z (2 ^ k).
Proof. intros H. unfold pow2. by rewrite Zpower_Qpower. Qed.

(** [exponent q] is the integer part of the binary logarithm. *)
Lemma exponent_spec q :
  0 < q -> pow2 (exponent q) <= q /\ q < pow2 (exponent q + 1).
Proof.
  intros Hq. destruct q as [n d]. unfold exponent. cbn [Qnum Qden].
  assert (Hn : (0 < n)%Z) by (unfold Qlt in Hq; simpl in Hq; lia).
  set (ln := Z.log2 n). set (ld := Z.log2 (Z.pos d)). set (l := (ln - ld)%Z).
  destruct (Z.log2_spec n Hn) as [Hn1 Hn2]. fold ln in Hn1, Hn2.
  destruct (Z.log2_spec (Z.pos d) eq_refl) as [Hd1 Hd2]. fold ld in Hd1, Hd2.
  assert (Hln : (0 <= ln)%Z) by apply Z.log2_nonneg.
  assert (Hld : (0 <= ld)%Z) by apply Z.log2_nonneg.
  assert (Hqd : (n # d) * inject_Z (Z.pos d) == inject_Z n).
  { rewrite (Qmake_Qdiv n d). field. discriminate. }
  assert (Hdpos : 0 < inject_Z (Z.pos d)) by reflexivity.
  assert (Hlow : pow2 (l - 1) <= n # d).
  { apply (Qmult_le_r _ _ (inject_Z (Z.pos d))); [exact Hdpos|]. rewrite Hqd.
    apply Qle_trans with (pow2 (l - 1) * pow2 (ld + 1)).
    - apply Qmult_le_l; [apply pow2_pos|].
      rewrite pow2_inject by lia. rewrite <- Zle_Qle. lia.
    - rewrite <- pow2_add. replace (l - 1 + (ld + 1))%Z with ln by (unfold l; lia).
      rewrite pow2_inject by lia. by rewrite <- Zle_Qle. }
  assert (Hhigh : n # d < pow2 (l + 1)).
  { apply (Qmult_lt_r _ _ (inject_Z (Z.pos d))); [exact Hdpos|]. rewrite Hqd.
    apply Qlt_le_trans with (pow2 (l + 1) * pow2 ld).
    - rewrite <- pow2_add. replace (l + 1 + ld)%Z with (ln + 1)%Z by (unfold l; lia).
      rewrite pow2_inject by lia. rewrite <- Zlt_Qlt. lia.
    - apply Qmult_le_l; [apply pow2_pos|].
      rewrite pow2_inject by lia. by rewrite <- Zle_Qle. }
  destruct (Qle_bool (pow2 l) (n # d)) eqn:Hcmp.
  - apply Qle_bool_iff in Hcmp. by split.
  - split; [exact Hlow|]. replace (l - 1 + 1)%Z with l by lia.
    apply Qnot_le_lt. intros Hle. apply Qle_bool_iff in Hle. congruence.
Qed.

(** [nearest_even] is at most a half away. *)
Lemma nearest_even_spec y : Qabs (inject_Z (nearest_even y) - y) <= 1 # 2.
Proof.
  unfold nearest_even.
  pose proof (Qfloor_le y) as Hlo. pose proof (Qlt_floor y) as Hhi.
  rewrite inject_Z_plus in Hhi. change (inject_Z 1) with 1 in Hhi.
  apply Qabs_Qle_condition.
  destruct (Qcompare (y - inject_Z (Qfloor y)) (1 # 2)) eqn:Hcmp.
  - apply Qeq_alt in Hcmp. destruct (Z.even (Qfloor y)).
    + split; lra.
    + rewrite inject_Z_plus. change (inject_Z 1) with 1. split; lra.
  - apply Qlt_alt in Hcmp. split; lra.
  - apply Qgt_alt in Hcmp. rewrite inject_Z_plus. change (inject_Z 1) with 1. split; lra.
Qed.

(** From the least normal number on, rounding moves a number by at most
    the fraction [u] of it. *)
Lemma round_pos_error q :
  pow2 (-1022) <= q -> Qabs (round_pos q - q) <= u * q.
Proof.
  intros Hmin.
  assert (Hq : 0 < q) by (eapply Qlt_le_trans; [apply (pow2_pos (-1022))|exact Hmin]).
  destruct (exponent_spec q Hq) as [Hlo Hhi].
  assert (HE : (-1022 <= exponent q)%Z).
  { assert (pow2 (-1022) < pow2 (exponent q + 1)) by (eapply Qle_lt_trans; eassumption).
    apply pow2_lt_inv in H. lia. }
  unfold round_pos. rewrite Z.max_l by lia.
  set (e := (exponent q - 52)%Z). set (y := q / pow2 e).
  pose proof (pow2_pos e) as He.
  assert (Hy : y * pow2 e == q).
  { unfold y. field. intros H0. rewrite H0 in He. by apply Qlt_irrefl in He. }
  pose proof (nearest_even_spec y) as Hm. apply Qabs_Qle_condition in Hm.
  assert (Hu : u * q >= (1 # 2) * pow2 e).
  { unfold u. apply Qle_trans with (pow2 (-53) * pow2 (exponent q)).
    - rewrite <- pow2_add. replace (-53 + exponent q)%Z with (-1 + e)%Z by (unfold e; lia).
      rewrite pow2_add. apply Qle_refl.
    - apply Qmult_le_l; [apply pow2_pos|exact Hlo]. }
  apply Qabs_Qle_condition.
  set (m := inject_Z (nearest_even y)) in *.
  assert (Hdiff : m * pow2 e - q == (m - y) * pow2 e) by (rewrite <- Hy; ring).
  rewrite Hdiff. destruct Hm as [Hm1 Hm2].
  clear Hy Hdiff. revert He Hu. generalize (pow2 e) (u * q). intros p b He Hu.
  split; nra.
Qed.

Lemma round_near q : pow2 (-1022) <= q -> near u (round q) q.
Proof.
  intros Hmin.
  assert (Hq : 0 < q) by (eapply Qlt_le_trans; [apply (pow2_pos (-1022))|exact Hmin]).
  pose proof (round_pos_error q Hmin) as Herr. apply Qabs_Qle_condition in Herr.
  unfold round. destruct q as [[|n|n] d]; [done| |done].
  cbn [Qnum]. unfold near. split; lra.
Qed.

(** *** Relative errors *)

Lemma near_eq eps x y y' : y == y' -> near eps x y -> near eps x y'.
Proof. unfold near. intros Heq [H1 H2]. rewrite <- Heq. by split. Qed.

Lemma near_weaken eps eps' x y :
  eps <= eps' -> 0 <= y -> near eps x y -> near eps' x y.
Proof. unfold near. intros He Hy [H1 H2]. split; nra. Qed.

Lemma near_add eps x x' y y' :
  near eps x x' -> near eps y y' -> near eps (x + y) (x' + y').
Proof. unfold near. intros [H1 H2] [H3 H4]. split; lra. Qed.

Lemma near_scale eps c x x' :
  0 <= c -> near eps x x' -> near eps (c * x) (c * x').
Proof. unfold near. intros Hc [H1 H2]. split; nra. Qed.

Lemma near_trans e1 e2 x y z :
  0 <= e1 <= 1 -> 0 <= e2 -> 0 <= z ->
  near e1 x y -> near e2 y z -> near (e1 + e2 + e1 * e2) x z.
Proof. unfold near. intros [Ha Hb] Hc Hz [H1 H2] [H3 H4]. split; nra. Qed.

Lemma near_mul e1 e2 x x' y y' :
  0 <= e1 <= 1 -> 0 <= e2 <= 1 -> 0 <= x' -> 0 <= y' ->
  near e1 x x' -> near e2 y y' -> near (e1 + e2 + e1 * e2) (x * y) (x' * y').
Proof.
  unfold near. intros [Ha Hb] [Hc Hd] Hx Hy [H1 H2] [H3 H4].
  assert (Hx0 : 0 <= x) by nra. assert (Hy0 : 0 <= y) by nra.
  split; nra.
Qed.

Lemma near_abs eps x y b :
  0 <= eps -> 0 <= y <= b -> near eps x y -> Qabs (x - y) <= eps * b.
Proof.
  unfold near. intros He [Hy Hb] [H1 H2]. apply Qabs_Qle_condition. split; nra.
Qed.

End B64Facts.

Section NearMore.
Import B64.
Local Open Scope Q_scope.

Lemma near_div e1 e2 x x' y y' :
  0 <= e1 <= 1 -> 0 <= e2 <= 1 # 2 -> 0 <= x' -> 0 < y' ->
  near e1 x x' -> near e2 y y' ->
  near (e1 + 2 * e2 + 2 * e1 * e2) (x / y) (x' / y').
Proof.
  unfold near. intros [Ha Hb] [Hc Hd] Hx Hy [H1 H2] [H3 H4].
  assert (Hy0 : 0 < y) by nra.
  set (r := x' / y').
  assert (Hr : 0 <= r) by (apply Qle_shift_div_l; [done|lra]).
  assert (Hx' : x' == r * y').
  { unfold r. field. intros H0. rewrite H0 in Hy. by apply Qlt_irrefl in Hy. }
  rewrite Hx' in H1, H2.
  assert (Hv1 : (1 - e2) * (r * y') <= r * y) by nra.
  assert (Hv2 : r * y <= (1 + e2) * (r * y')) by nra.
  assert (Hw : 0 <= r * y') by nra.
  assert (Hv : 0 <= r * y) by nra.
  set (b := e1 + 2 * e2 + 2 * e1 * e2).
  assert (HP : 0 <= (1 - e1) - (1 - b) * (1 + e2)) by (unfold b; nra).
  assert (HQ : 0 <= (1 + b) * (1 - e2) - (1 + e1)).
  { unfold b. assert (0 <= e2 * (1 - 2 * e2)) by nra.
    assert (0 <= e1 * (e2 * (1 - 2 * e2))) by nra. nra. }
  assert (Hb0 : 0 <= b) by (unfold b; nra).
  clearbody b. clear H3 H4 Hx' Hx. clearbody r.
  revert H1 H2 Hv1 Hv2 Hw Hv. generalize (r * y'). intros w H1 H2 Hv1 Hv2 Hw Hv.
  split.
  - apply Qle_shift_div_l; [done|].
    apply Qle_trans with ((1 - b) * (r * y)); [apply Qle_lteq; right; ring|].
    revert Hv1 Hv2 Hv. generalize (r * y). intros v Hv1 Hv2 Hv.
    destruct (Qlt_le_dec (1 - b) 0) as [Hneg|Hpos]; nra.
  - apply Qle_shift_div_r; [done|].
    apply Qle_trans with ((1 + b) * (r * y)); [|apply Qle_lteq; right; ring].
    revert Hv1 Hv2 Hv. generalize (r * y). intros v Hv1 Hv2 Hv.
    assert (0 <= (1 + b) * (v - (1 - e2) * w)) by nra.
    nra.
Qed.

End NearMore.

Section Rounded.
Import B64.
Local Open Scope Q_scope.

Lemma near_round e q q' :
  0 <= e <= 1 # 2 -> pow2 (-1021) <= q' -> near e q q' ->
  near (u + e + u * e) (round q) q'.
Proof.
  intros [He1 He2] Hq' Hn.
  assert (Hpos : 0 < q') by (eapply Qlt_le_trans; [apply (pow2_pos (-1021))|exact Hq']).
  assert (Hq : pow2 (-1022) <= q).
  { assert (Hhalf : pow2 (-1021) == 2 * pow2 (-1022)).
    { change (-1021)%Z with (1 + -1022)%Z. rewrite pow2_add. reflexivity. }
    destruct Hn as [Hn _]. rewrite Hhalf in Hq'.
    revert Hq'. generalize (pow2 (-1022)) (pow2_pos (-1022)). intros p Hp Hq'. nra. }
  apply (near_trans u e (round q) q q'); [|done|lra|by apply round_near|done].
  split; by vm_compute.
Qed.

(** The tolerance the increments are known within: eight roundings. *)
Local Abbreviation tol := (pow2 (-50)).

Lemma lit_near q : pow2 (-1022) <= q -> near u (lit q) q.
Proof. apply round_near. Qed.

Lemma length_bounds {A} (l : list A) :
  l ≠ [] -> (Z.of_nat (length l) < 2 ^ 63)%Z ->
  1 <= inject_Z (Z.of_nat (length l)) /\ inject_Z (Z.of_nat (length l)) <= inject_Z (2 ^ 63).
Proof.
  intros Hl Hfit. split.
  - change 1 with (inject_Z 1). rewrite <- Zle_Qle. destruct l; [done|]. simpl. lia.
  - rewrite <- Zle_Qle. lia.
Qed.

Variable devices : list string.
Variable commands : list string.
Hypothesis some_devices : devices ≠ [].
Hypothesis devices_fit : (Z.of_nat (length devices) < 2 ^ 63)%Z.

Local Abbreviation D := (inject_Z (Z.of_nat (length devices))).
Local Abbreviation C := (inject_Z (Z.of_nat (length commands))).
Local Abbreviation avail := (available_progress devices).

Lemma devices_bounds : 1 <= D /\ D <= inject_Z (2 ^ 63).
Proof. by apply length_bounds. Qed.

Lemma avail_near : near u avail (90 / D).
Proof.
  destruct devices_bounds as [HD1 HD2].
  unfold available_progress, B64.div. apply round_near.
  apply Qle_shift_div_l; [lra|].
  assert (Hp : pow2 (-1022) * inject_Z (2 ^ 63) <= 1) by (by vm_compute).
  revert Hp HD2. generalize (pow2 (-1022)) (pow2_pos (-1022)) (inject_Z (2 ^ 63)).
  intros p Hp0 M Hp HD2. nra.
Qed.

(** A share of [available_progress]: the product with a literal. *)
Lemma share_near (q : Q) :
  1 # 20 <= q <= 1 -> near (pow2 (-51)) (B64.mul avail (B64.lit q)) (90 * q / D).
Proof.
  intros [Hq1 Hq2]. destruct devices_bounds as [HD1 HD2].
  assert (Hlit : near u (lit q) q).
  { apply lit_near. apply Qle_trans with (1 # 20); [by vm_compute|done]. }
  assert (H90 : 0 <= 90 / D) by (apply Qle_shift_div_l; lra).
  assert (Hmul : near (u + u + u * u) (avail * lit q) (90 / D * q)).
  { apply near_mul; [split; by vm_compute|split; by vm_compute|done|lra|
                     apply avail_near|done]. }
  assert (Hexact : 90 / D * q == 90 * q / D) by (field; lra).
  apply (near_eq _ _ _ _ Hexact) in Hmul.
  assert (Hmin : pow2 (-1021) <= 90 * q / D).
  { apply Qle_shift_div_l; [lra|].
    assert (Hp : pow2 (-1021) * inject_Z (2 ^ 63) <= 1) by (by vm_compute).
    revert Hp HD2. generalize (pow2 (-1021)) (pow2_pos (-1021)) (inject_Z (2 ^ 63)).
    intros p Hp0 M Hp HD2. nra. }
  unfold B64.mul.
  apply (near_weaken (u + (u + u + u * u) + u * (u + u + u * u))).
  - by vm_compute.
  - apply Qle_shift_div_l; lra.
  - apply near_round; [split; by vm_compute|done|done].
Qed.

Hypothesis some_commands : commands ≠ [].
Hypothesis commands_fit : (Z.of_nat (length commands) < 2 ^ 63)%Z.

Lemma commands_bounds : 1 <= C /\ C <= inject_Z (2 ^ 63).
Proof. by apply length_bounds. Qed.

Lemma command_progress_near :
  near tol (command_progress devices commands) (63 / D / C).
Proof.
  destruct devices_bounds as [HD1 HD2]. destruct commands_bounds as [HC1 HC2].
  pose proof (share_near (7 # 10) ltac:(split; by vm_compute)) as Hshare.
  assert (Hexact : 90 * (7 # 10) / D == 63 / D) by (field; lra).
  apply (near_eq _ _ _ _ Hexact) in Hshare.
  assert (H63 : 0 <= 63 / D) by (apply Qle_shift_div_l; lra).
  assert (HCf : near u (B64.of_int (Z.of_nat (length commands))) C).
  { apply round_near. apply Qle_trans with 1; [by vm_compute|done]. }
  assert (Hdiv : near (pow2 (-51) + 2 * u + 2 * pow2 (-51) * u)
                       (B64.mul avail (B64.lit 0.7) / B64.of_int (Z.of_nat (length commands)))
                       (63 / D / C)).
  { apply near_div; [split; by vm_compute|split; by vm_compute|done|lra|done|done]. }
  assert (Hmin : pow2 (-1021) <= 63 / D / C).
  { apply Qle_shift_div_l; [lra|]. apply Qle_shift_div_l; [lra|].
    assert (Hp : pow2 (-1021) * inject_Z (2 ^ 63) * inject_Z (2 ^ 63) <= 1)
      by (by vm_compute).
    assert (HM : 1 <= inject_Z (2 ^ 63)) by (by vm_compute).
    revert Hp HD2 HC2 HM.
    generalize (pow2 (-1021)) (pow2_pos (-1021)) (inject_Z (2 ^ 63)).
    intros p Hp0 M Hp HD2 HC2 HM.
    assert (H1 : p * D <= p * M) by nra. assert (H2 : 0 <= p * M) by nra.
    assert (H3 : p * D * C <= p * M * C) by nra.
    assert (H4 : p * M * C <= p * M * M) by nra. nra. }
  unfold command_progress, B64.div.
  apply (near_weaken (u + (pow2 (-51) + 2 * u + 2 * pow2 (-51) * u)
                        + u * (pow2 (-51) + 2 * u + 2 * pow2 (-51) * u))).
  - by vm_compute.
  - apply Qle_shift_div_l; [lra|]. rewrite Qmult_0_l. done.
  - apply near_round; [split; by vm_compute|done|done].
Qed.

End Rounded.

Section Spent.
Variable devices : list string.
Variable commands : list string.
Variable GenericHandler : nat -> string -> option Netcore.GenericHandler.

Local Abbreviation avail := (available_progress devices).
Local Abbreviation tenth := (B64.mul (available_progress devices) (B64.lit 0.1)).
Local Abbreviation two_tenths := (B64.mul (available_progress devices) (B64.lit 0.2)).
Local Abbreviation per_command := (command_progress devices commands).

Lemma loop_owed_answered h rest k :
  rest = drop k commands -> answers commands h (length commands) ->
  (loop_owed devices commands h k rest == Qnat (length rest) * per_command)%Q.
Proof.
  intros Hrest Hans. revert k Hrest.
  induction rest as [|c rest IH]; intros k Hrest.
  - simpl. unfold Qnat. simpl. ring.
  - symmetry in Hrest. apply drop_cons_inv in Hrest as [Hc Hrest].
    destruct (Hans k c) as [raw Hraw]; [by eapply lookup_lt_Some|done|].
    cbn [loop_owed length]. rewrite Hraw, (IH (S k) Hrest), Qnat_S. ring.
Qed.

Lemma handler_owed_nonempty h :
  commands ≠ [] ->
  handler_owed devices commands h
  = (two_tenths + loop_owed devices commands h 0 commands)%Q.
Proof. unfold handler_owed. by destruct commands. Qed.

(** What a task emits whose session opens and answers every command. *)
Lemma spent_success i :
  commands ≠ [] -> succeeds devices commands GenericHandler i ->
  (spent devices commands GenericHandler i
   == tenth + two_tenths + Qnat (length commands) * per_command)%Q.
Proof.
  intros Hne (d & h & Hd & Hgh & Hans). unfold spent, owed, connect_owed.
  rewrite Hd, Hgh, (handler_owed_nonempty h Hne).
  rewrite (loop_owed_answered h commands 0 eq_refl Hans). ring.
Qed.

(** What a task emits whose session does not open. *)
Lemma spent_fails_open i :
  fails_open devices GenericHandler i = true ->
  (spent devices commands GenericHandler i == tenth)%Q.
Proof.
  unfold fails_open, spent, owed, connect_owed.
  destruct (devices !! i) as [d|]; [|done].
  destruct (GenericHandler i d); [done|]. intros _. ring.
Qed.

Lemma succeeds_not_fails i :
  succeeds devices commands GenericHandler i -> fails_open devices GenericHandler i = false.
Proof. intros (d & h & Hd & Hgh & _). unfold fails_open. by rewrite Hd, Hgh. Qed.

Lemma failures_le : failures devices GenericHandler <= length devices.
Proof.
  unfold failures. etransitivity; [apply length_filter|]. by rewrite length_seq.
Qed.

Lemma sum_spent :
  commands ≠ [] ->
  (forall i, i < length devices ->
     fails_open devices GenericHandler i = true
     \/ succeeds devices commands GenericHandler i) ->
  (sum_over (seq 0 (length devices)) (spent devices commands GenericHandler)
   == Qnat (length devices) * tenth
      + (Qnat (length devices) - Qnat (failures devices GenericHandler))
        * (two_tenths + Qnat (length commands) * per_command))%Q.
Proof.
  intros Hc Hall.
  rewrite (sum_over_two_values _ _ (fails_open devices GenericHandler)
             tenth (tenth + two_tenths + Qnat (length commands) * per_command)%Q).
  - fold (failures devices GenericHandler). rewrite length_seq. ring.
  - intros j [_ Hj]%elem_of_seq. destruct (Hall j) as [Hf|Hs]; [lia| |].
    + rewrite Hf. by apply spent_fails_open.
    + rewrite (succeeds_not_fails j Hs). by apply spent_success.
Qed.

Lemma no_failures :
  (forall i, i < length devices -> succeeds devices commands GenericHandler i) ->
  failures devices GenericHandler = 0.
Proof.
  intros Hall. unfold failures.
  assert (forall l, (forall j, j ∈ l -> j < length devices) ->
            filter (fun j => fails_open devices GenericHandler j = true) l = []) as ->.
  - induction l as [|j l IH]; intros Hl; [done|].
    rewrite filter_cons_False.
    + apply IH. intros j' Hj'. apply Hl. by apply list_elem_of_further.
    + rewrite (succeeds_not_fails j); [done|]. apply Hall, Hl, list_elem_of_here.
  - done.
  - by intros j [_ Hj]%elem_of_seq.
Qed.

(** The tasks of a batch in which each session fails to open or answers
    every command emit 90 - 81 k / D for k failures among D devices, up
    to the roundings. *)
Lemma sum_spent_near :
  devices ≠ [] -> commands ≠ [] ->
  (Z.of_nat (length devices) < 2 ^ 63)%Z -> (Z.of_nat (length commands) < 2 ^ 63)%Z ->
  (forall i, i < length devices ->
     fails_open devices GenericHandler i = true
     \/ succeeds devices commands GenericHandler i) ->
  (Qabs (sum_over (seq 0 (length devices)) (spent devices commands GenericHandler)
         - (90 - 81 * Qnat (failures devices GenericHandler) / Qnat (length devices)))
   <= 1 # 1000000)%Q.
Proof.
  intros Hd Hc HD HC Hall. rewrite (sum_spent Hc Hall).
  destruct (length_bounds devices Hd HD) as [HD1 HD2].
  destruct (length_bounds commands Hc HC) as [HC1 HC2].
  fold (Qnat (length devices)) in HD1, HD2. fold (Qnat (length commands)) in HC1, HC2.
  assert (Hk0 : (0 <= Qnat (failures devices GenericHandler))%Q).
  { unfold Qnat. change 0%Q with (inject_Z 0). rewrite <- Zle_Qle. lia. }
  assert (Hk : (Qnat (failures devices GenericHandler) <= Qnat (length devices))%Q).
  { unfold Qnat. rewrite <- Zle_Qle. pose proof failures_le. lia. }
  set (tol := B64.pow2 (-50)).
  assert (Htol : (B64.pow2 (-51) <= tol)%Q) by (by vm_compute).
  assert (H1 : B64.near tol tenth (9 / Qnat (length devices))).
  { apply (near_eq _ _ (90 * 0.1 / Qnat (length devices))); [field; lra|].
    apply (near_weaken (B64.pow2 (-51))); [done|apply Qle_shift_div_l; lra|].
    apply share_near; [done|done|split; by vm_compute]. }
  assert (H2 : B64.near tol two_tenths (18 / Qnat (length devices))).
  { apply (near_eq _ _ (90 * 0.2 / Qnat (length devices))); [field; lra|].
    apply (near_weaken (B64.pow2 (-51))); [done|apply Qle_shift_div_l; lra|].
    apply share_near; [done|done|split; by vm_compute]. }
  assert (H3 : B64.near tol (Qnat (length commands) * per_command)
                 (63 / Qnat (length devices))).
  { apply (near_eq _ _ (Qnat (length commands)
                        * (63 / Qnat (length devices) / Qnat (length commands))));
      [field; lra|].
    apply near_scale; [lra|]. by apply command_progress_near. }
  assert (H4 : B64.near tol
                 (Qnat (length devices) * tenth
                  + (Qnat (length devices) - Qnat (failures devices GenericHandler))
                    * (two_tenths + Qnat (length commands) * per_command))
                 (90 - 81 * Qnat (failures devices GenericHandler)
                       / Qnat (length devices))).
  { apply (near_eq _ _ (Qnat (length devices) * (9 / Qnat (length devices))
                        + (Qnat (length devices) - Qnat (failures devices GenericHandler))
                          * (18 / Qnat (length devices) + 63 / Qnat (length devices))));
      [field; lra|].
    apply near_add; (apply near_scale; [lra|]); [done|by apply near_add]. }
  apply Qle_trans with (tol * 90)%Q; [|by vm_compute].
  apply near_abs; [by vm_compute| |done].
  assert (Hfrac : (0 <= 81 * Qnat (failures devices GenericHandler)
                        / Qnat (length devices) <= 81)%Q).
  { split.
    - apply Qle_shift_div_l; [lra|]. lra.
    - apply Qle_shift_div_r; [lra|]. lra. }
  lra.
Qed.

End Spent.

(** C3, as amended.  Over a run in which every session opens, every
    command is answered and the report is written, for at least one
    device and at least one command (and fewer than 2^63 of each, as in
    any Python list) and whatever the schedule, the binary64 increments
    emitted (the 9 of the pool start, the three kinds of per-device
    increments and the 2 after the report) add up to 101 within
    1e-6. *)
Theorem full_success_emits_101 devices commands GenericHandler
    os output_type output_dir now schedule :
  devices ≠ [] -> commands ≠ [] ->
  (Z.of_nat (length devices) < 2 ^ 63)%Z -> (Z.of_nat (length commands) < 2 ^ 63)%Z ->
  (forall i, i < length devices -> succeeds devices commands GenericHandler i) ->
  let batch := run devices commands GenericHandler os output_type output_dir now schedule in
  raised batch = None ->
  (Qabs (total (add_progress (final batch)) - 101) <= 1 # 1000000)%Q.
Proof.
  intros Hd Hc HD HC Hall batch Hraised. unfold batch.
  rewrite run_progress. fold batch. rewrite Hraised.
  pose proof (sum_spent_near devices commands GenericHandler Hd Hc HD HC) as Hsum.
  rewrite (no_failures devices commands GenericHandler Hall) in Hsum.
  specialize (Hsum (fun i Hi => or_intror (Hall i Hi))).
  revert Hsum. generalize (sum_over (seq 0 (length devices))
                             (spent devices commands GenericHandler)).
  intros x Hsum. apply Qabs_Qle_condition in Hsum. apply Qabs_Qle_condition.
  assert (H0 : (81 * Qnat 0 / Qnat (length devices) == 0)%Q).
  { unfold Qnat at 1. simpl. unfold Qdiv. ring. }
  rewrite H0 in Hsum. lra.
Qed.

(** C9, as amended.  A task whose session does not open emits only the
    increment of its connection start, a tenth of the share of its
    device; the other nine tenths are never emitted.  When each session
    either fails to open or answers every command (at least one device
    and one command, fewer than 2^63 of each), the binary64 increments
    of the run add up, within 1e-6, to 101 - 81 k / D for k failed
    sessions among D devices when the report is written, and to 2 less
    when [generate_report] raises. *)
Theorem failed_open_loses_nine_tenths devices commands GenericHandler
    os output_type output_dir now schedule :
  devices ≠ [] -> commands ≠ [] ->
  (Z.of_nat (length devices) < 2 ^ 63)%Z -> (Z.of_nat (length commands) < 2 ^ 63)%Z ->
  (forall i, i < length devices ->
     fails_open devices GenericHandler i = true
     \/ succeeds devices commands GenericHandler i) ->
  let batch := run devices commands GenericHandler os output_type output_dir now schedule in
  let emitted := total (add_progress (final batch)) in
  let lost := (81 * Qnat (failures devices GenericHandler) / Qnat (length devices))%Q in
  (forall i d s, devices !! i = Some d -> GenericHandler i d = None ->
     exists s',
       snapshot_task devices commands GenericHandler i d s = (Some (ConnectionError d), s')
       /\ add_progress s'
          = add_progress s ++ [B64.mul (available_progress devices) (B64.lit 0.1)])
  /\ (Qabs (emitted - (match raised batch with None => 101 | Some _ => 99 end - lost))
      <= 1 # 1000000)%Q.
Proof.
  intros Hd Hc HD HC Hall batch emitted lost. split.
  - intros i d s Hi Hgh. unfold snapshot_task. rewrite Hgh. by eexists.
  - unfold emitted, batch. rewrite run_progress. fold batch.
    pose proof (sum_spent_near devices commands GenericHandler Hd Hc HD HC Hall) as Hsum.
    fold lost in Hsum.
    revert Hsum. generalize (sum_over (seq 0 (length devices))
                               (spent devices commands GenericHandler)).
    intros x Hsum. apply Qabs_Qle_condition in Hsum. apply Qabs_Qle_condition.
    clearbody lost. destruct (raised batch); lra.
Qed.

(** ** More on dictionaries *)

Section DictMore.
Context {K V : Type} `{EqDecision K}.
Implicit Types (d : list (K * V)) (k : K) (v : V).



Lemma set_keys_NoDup d k v : NoDup (Dict.keys d) -> NoDup (Dict.keys (Dict.set k v d)).
Proof. intros Hnd. rewrite keys_set. by apply touch_NoDup. Qed.

(** In a dictionary the pairs are what the lookups return. *)
Lemma elem_of_get d k v : NoDup (Dict.keys d) -> (k, v) ∈ d <-> Dict.get k d = Some v.
Proof.
  induction d as [|[k' v'] d IH]; simpl.
  - intros _. split; [by intros ?%elem_of_nil|done].
  - intros [Hk' Hnd]%NoDup_cons. rewrite elem_of_cons.
    destruct (decide (k = k')) as [->|Hne].
    + split.
      * intros [[= ->]|Hin]; [done|]. exfalso. apply Hk'.
        apply list_elem_of_fmap. by exists (k', v).
      * intros [= ->]. by left.
    + rewrite <- (IH Hnd). split; [|by right].
      intros [[= -> ->]|?]; done.
Qed.

Lemma update_snoc d e k v :
  Dict.update d (e ++ [(k, v)]) = Dict.set k v (Dict.update d e).
Proof. unfold Dict.update. by rewrite fold_left_app. Qed.

Lemma update_keys_NoDup d e : NoDup (Dict.keys d) -> NoDup (Dict.keys (Dict.update d e)).
Proof.
  intros Hnd. induction e as [|[k v] e IH] using rev_ind; [done|].
  rewrite update_snoc. by apply set_keys_NoDup.
Qed.

(** [d.update(e)] holds the values of [e] and, for the other keys,
    those of [d]. *)
Lemma get_update_in d e k v :
  NoDup (Dict.keys e) -> Dict.get k e = Some v -> Dict.get k (Dict.update d e) = Some v.
Proof.
  induction e as [|[k' v'] e IH] using rev_ind; [done|].
  unfold Dict.keys. rewrite map_app. simpl. intros [Hnd [Hdis _]]%NoDup_app.
  rewrite update_snoc. intros Hg. destruct (decide (k = k')) as [->|Hne].
  - rewrite get_set_eq.
    assert (Dict.get k' e = None) as Hnone.
    { destruct (Dict.get k' e) eqn:He; [|done]. exfalso.
      apply get_Some_keys in He. apply (Hdis k' He). apply list_elem_of_here. }
    clear IH. revert Hg. clear -Hnone. induction e as [|[k0 v0] e IH]; simpl in *.
    + rewrite decide_True by done. congruence.
    + destruct (decide (k' = k0)); [done|]. by apply IH.
  - rewrite get_set_ne by done. apply IH; [done|].
    clear -Hg Hne. induction e as [|[k0 v0] e IH]; simpl in *.
    + by rewrite decide_False in Hg.
    + destruct (decide (k = k0)); [done|]. by apply IH.
Qed.

Lemma get_update_out d e k :
  Dict.get k e = None -> Dict.get k (Dict.update d e) = Dict.get k d.
Proof.
  induction e as [|[k' v'] e IH] using rev_ind; [done|].
  rewrite update_snoc. intros Hg.
  assert (k ≠ k' /\ Dict.get k e = None) as [Hne Hnone].
  { clear IH. induction e as [|[k0 v0] e IH]; simpl in *.
    - destruct (decide (k = k')); [done|]. done.
    - destruct (decide (k = k0)); [done|]. by apply IH. }
  rewrite get_set_ne by done. by apply IH.
Qed.

End DictMore.

(** ** The dictionary of futures *)

Section Futures.

Lemma futures_snoc (l : list string) x :
  futures (l ++ [x]) = Dict.set x (length l) (futures l).
Proof.
  unfold futures. rewrite imap_app, fold_left_app. simpl.
  by rewrite Nat.add_0_r.
Qed.

Lemma futures_keys_NoDup (l : list string) : NoDup (Dict.keys (futures l)).
Proof.
  induction l as [|x l IH] using rev_ind; [apply NoDup_nil_2|].
  rewrite futures_snoc. by apply set_keys_NoDup.
Qed.

(** The future kept for a device is the one submitted last for it. *)
Lemma futures_get (l : list string) d i :
  Dict.get d (futures l) = Some i
  <-> l !! i = Some d /\ forall j, l !! j = Some d -> j <= i.
Proof.
  revert i. induction l as [|x l IH] using rev_ind; intros i.
  - split; [done|]. by intros [? _].
  - rewrite futures_snoc. destruct (decide (d = x)) as [->|Hne].
    + rewrite get_set_eq. split.
      * intros [= <-]. split; [by apply list_lookup_middle|].
        intros j Hj%lookup_lt_Some. rewrite length_app in Hj. simpl in Hj. lia.
      * intros [Hi Hlast]. f_equal.
        pose proof (Hlast (length l) (list_lookup_middle l [] x _ eq_refl)).
        apply lookup_lt_Some in Hi. rewrite length_app in Hi. simpl in Hi. lia.
    + rewrite get_set_ne by done. rewrite IH. split.
      * intros [Hi Hlast]. split; [by apply lookup_app_l_Some|].
        intros j Hj. apply Hlast.
        apply lookup_app_Some in Hj as [?|[_ Hj]]; [done|].
        apply list_lookup_singleton_Some in Hj as [_ ->]. done.
      * intros [Hi Hlast].
        assert (Hi' : l !! i = Some d).
        { apply lookup_app_Some in Hi as [?|[_ Hi]]; [done|].
          apply list_lookup_singleton_Some in Hi as [_ ->]. done. }
        split; [done|]. intros j Hj. apply Hlast. by apply lookup_app_l_Some.
Qed.

(** What is logged: the exception of the future kept for a device. *)
Lemma logged_spec (devices : list string) (tasks : list pc) d e :
  (d, e) ∈ logged devices tasks
  <-> exists i, devices !! i = Some d /\ (forall j, devices !! j = Some d -> j <= i)
                /\ tasks !! i = Some (Finished (Some e)).
Proof.
  unfold logged. rewrite list_elem_of_omap. split.
  - intros ([d' i] & Hin & Hsome).
    apply elem_of_get in Hin; [|apply futures_keys_NoDup].
    apply futures_get in Hin as [Hi Hlast].
    destruct (tasks !! i) as [[| | | |[e'|]]|] eqn:Ht; simplify_eq.
    by exists i.
  - intros (i & Hi & Hlast & Ht). exists (d, i). split.
    + apply elem_of_get; [apply futures_keys_NoDup|]. by apply futures_get.
    + by rewrite Ht.
Qed.

End Futures.

(** ** The outputs stored for a device *)

Section Stored.
Variable commands : list string.
Implicit Types (h : Netcore.GenericHandler).


(** The answer to a command is found under its key as long as the
    same command was not sent again. *)
Lemma stored_get h k j c raw :
  j < k -> commands !! j = Some c -> Netcore.sendCommand h j c = Some raw ->
  (forall j', j < j' -> j' < k -> commands !! j' ≠ Some c) ->
  Dict.get c (stored commands h k) = Some (PyStr.strip raw).
Proof.
  intros Hj Hc Hraw. induction k as [|k IH]; intros Hlast; [lia|].
  destruct (decide (j = k)) as [->|Hne].
  - rewrite (stored_S commands h k c raw Hc Hraw). apply get_set_eq.
  - assert (IH' : Dict.get c (stored commands h k) = Some (PyStr.strip raw)).
    { apply IH; [lia|]. intros j' ? ?. apply Hlast; lia. }
    simpl. destruct (commands !! k) as [c'|] eqn:Hc'; [|done].
    destruct (Netcore.sendCommand h k c'); [|done].
    rewrite get_set_ne; [done|]. intros ->. apply (Hlast k); [lia|lia|done].
Qed.

(** The first command that is not answered is determined. *)
Lemma first_failure_unique h n n' c c' :
  answers commands h n -> commands !! n = Some c -> Netcore.sendCommand h n c = None ->
  answers commands h n' -> commands !! n' = Some c' -> Netcore.sendCommand h n' c' = None ->
  n = n'.
Proof.
  intros Ha Hc Hs Ha' Hc' Hs'.
  destruct (Nat.lt_trichotomy n n') as [Hlt|[?|Hlt]]; [|done|].
  - destruct (Ha' n c Hlt Hc) as [? ?]. congruence.
  - destruct (Ha n' c' Hlt Hc') as [? ?]. congruence.
Qed.

End Stored.

(** ** How a task ends *)

Section Endings.
Variable devices : list string.
Variable commands : list string.
Variable GenericHandler : nat -> string -> option Netcore.GenericHandler.
Implicit Types (h : Netcore.GenericHandler) (r : option exn).

Local Abbreviation final1 := (final_shape commands GenericHandler).

Lemma ends_unopened i d r sent close holds :
  GenericHandler i d = None -> final1 i d r sent close holds ->
  r = Some (ConnectionError d) /\ sent = [] /\ close = 0 /\ holds empty_entry.
Proof.
  intros Hgh. destruct r as [[d'|d' c| |k]|]; simpl.
  - by intros (-> & _ & ? & ? & ?).
  - intros (_ & h & n & ? & _). congruence.
  - intros (h & ? & _). congruence.
  - done.
  - intros (h & ? & _). congruence.
Qed.

Lemma ends_without_commands i d h r sent close holds :
  GenericHandler i d = Some h -> commands = [] -> final1 i d r sent close holds ->
  r = Some ZeroDivisionError /\ sent = [] /\ close = 0
  /\ holds {| prompt := Netcore.prompt h; command_output := [] |}.
Proof.
  intros Hgh Hc. destruct r as [[d'|d' c| |k]|]; simpl.
  - intros (_ & ? & _). congruence.
  - intros (_ & h' & n & _ & _ & Hn & _). rewrite Hc in Hn. done.
  - intros (h' & ? & _ & ? & ? & ?). by simplify_eq.
  - done.
  - intros (h' & _ & ? & _). done.
Qed.

Lemma ends_answered i d h r sent close holds :
  GenericHandler i d = Some h -> commands ≠ [] ->
  answers commands h (length commands) -> final1 i d r sent close holds ->
  r = None /\ sent = commands /\ close = 1
  /\ holds {| prompt := Netcore.prompt h;
              command_output := stored commands h (length commands) |}.
Proof.
  intros Hgh Hc Hans. destruct r as [[d'|d' c| |k]|]; simpl.
  - intros (_ & ? & _). congruence.
  - intros (_ & h' & n & ? & _ & Hn & Hs & _). simplify_eq.
    destruct (Hans n c) as [? ?]; [by eapply lookup_lt_Some|done|congruence].
  - intros (h' & _ & ? & _). done.
  - done.
  - intros (h' & ? & _ & _ & ? & ? & ?). by simplify_eq.
Qed.

Lemma ends_at_first_failure i d h n c r sent close holds :
  GenericHandler i d = Some h -> answers commands h n ->
  commands !! n = Some c -> Netcore.sendCommand h n c = None ->
  final1 i d r sent close holds ->
  r = Some (CommandError d c) /\ sent = take (S n) commands /\ close = 0
  /\ holds {| prompt := Netcore.prompt h; command_output := stored commands h n |}.
Proof.
  intros Hgh Hans Hc Hs. destruct r as [[d'|d' c'| |k]|]; simpl.
  - intros (_ & ? & _). congruence.
  - intros (-> & h' & n' & ? & Hans' & Hc' & Hs' & ? & ? & ?). simplify_eq.
    assert (n = n') as <- by (by eapply first_failure_unique).
    by simplify_eq.
  - intros (h' & _ & Hnil & _). rewrite Hnil in Hc. done.
  - done.
  - intros (h' & ? & _ & Hans' & _). simplify_eq.
    destruct (Hans' n c) as [? ?]; [by eapply lookup_lt_Some|done|congruence].
Qed.


(** The entry of a device none of whose sessions opens is empty as
    long as it exists. *)
Lemma unopened_entry_preserved d :
  (forall j, devices !! j = Some d -> GenericHandler j d = None) ->
  preserved devices commands GenericHandler
    (fun s tasks => each_task devices (task_ok devices commands GenericHandler) s tasks
                    /\ forall e, entry_of d s = Some e -> e = empty_entry).
Proof.
  intros Hfail. apply preserved_and; [apply task_ok_preserved|].
  intros s tasks i device p Hall Hent Hd Hp e.
  destruct (decide (device = d)) as [->|Hne].
  - specialize (Hall i d p Hd Hp). specialize (Hfail i Hd). unfold task_ok in Hall.
    destruct p as [| |h|h k rest|r]; simpl in *.
    + unfold entry_of. simpl. rewrite get_set_eq. congruence.
    + rewrite Hfail. simpl. apply Hent.
    + destruct Hall as [? _]. congruence.
    + destruct Hall as [? _]. congruence.
    + apply Hent.
  - rewrite (touches_entry _ _ _ _ (snapshot_step_touches devices commands GenericHandler
                                      i device p s) d) by done.
    apply Hent.
Qed.

End Endings.

(** ** The batch *)

Section Batch.
Variable devices : list string.
Variable commands : list string.
Variable GenericHandler : nat -> string -> option Netcore.GenericHandler.
Variable os : OS.
Variables (output_type output_dir : string) (now : nat -> datetime).
Variable schedule : list nat.

Local Abbreviation batch :=
  (run devices commands GenericHandler os output_type output_dir now schedule).

(** What [executor_task_ok] says, for the outcome of [run]. *)
Lemma run_task_ok i d :
  devices !! i = Some d ->
  exists r, tasks batch !! i = Some (Finished r)
    /\ final_shape commands GenericHandler i d r
         (sent_by i (final batch)) (close_count i (final batch))
         (fun e => once devices d i -> Dict.get d (output_data (final batch)) = Some e).
Proof.
  intros Hd.
  destruct (executor_task_ok devices commands GenericHandler schedule i d Hd)
    as (r & Hr & Hok).
  exists r. rewrite run_tasks, run_sent_by, run_close_count, run_output_data.
  split; [done|]. exact Hok.
Qed.

Lemma run_has_key d :
  d ∈ devices -> is_Some (Dict.get d (output_data (final batch))).
Proof.
  intros Hd. rewrite run_output_data. apply keys_get_Some.
  by apply (output_data_keys_present devices commands GenericHandler schedule).
Qed.

End Batch.

(** C5, as amended.  Every device of the list has an entry in the batch
    result when the run ends, whatever the schedule.  The entry has the
    empty prompt and no command output when none of the sessions opened
    for its identifier opens, so for a device that occurs once in the
    list and whose session does not open.  (A session that opens for
    the same identifier writes into the same entry.) *)
Theorem unopened_device_has_empty_entry devices commands GenericHandler
    os output_type output_dir now schedule d :
  d ∈ devices ->
  let result :=
    output_data
      (final (run devices commands GenericHandler os output_type output_dir now schedule)) in
  is_Some (Dict.get d result)
  /\ ((forall j, devices !! j = Some d -> GenericHandler j d = None) ->
      Dict.get d result = Some {| prompt := ""; command_output := [] |})
  /\ (forall i, once devices d i -> GenericHandler i d = None ->
      Dict.get d result = Some {| prompt := ""; command_output := [] |}).
Proof.
  intros Hd result.
  destruct (run_has_key devices commands GenericHandler os output_type output_dir now
              schedule d Hd) as [e He].
  fold result in He.
  assert (Hall : (forall j, devices !! j = Some d -> GenericHandler j d = None) ->
                 Dict.get d result = Some {| prompt := ""; command_output := [] |}).
  { intros Hfail. rewrite He. f_equal. unfold result in He.
    rewrite run_output_data in He.
    pose proof (executor_invariant devices commands GenericHandler _
                  (unopened_entry_preserved devices commands GenericHandler d Hfail)
                  schedule initial_state) as [_ Hent].
    - split; [by apply task_ok_initial|]. done.
    - by apply Hent. }
  split; [by rewrite He|]. split; [exact Hall|].
  intros i Honce Hgh. apply Hall. intros j Hj. by rewrite (Honce j Hj).
Qed.

(** X19.  Whatever the sessions do and whatever the schedule, [run] gets
    as far as the report: every future ends in a terminal state, with
    the exception of its task held inside it; a task whose own session
    opens and answers every command of a command list that is not
    empty returns normally, whatever happens to the other tasks; what
    is logged for a device is an exception held in the future of one
    of its tasks, and the exception of the task of a device listed
    once is logged; and [generate_report] is called with the batch
    result. *)
Theorem device_exceptions_are_contained devices commands GenericHandler
    os output_type output_dir now schedule :
  let batch := run devices commands GenericHandler os output_type output_dir now schedule in
  length (tasks batch) = length devices
  /\ (forall i, i < length devices -> exists r, tasks batch !! i = Some (Finished r))
  /\ (forall i, commands ≠ [] -> succeeds devices commands GenericHandler i ->
        tasks batch !! i = Some (Finished None))
  /\ (forall d e, (d, e) ∈ errors batch ->
        exists i, devices !! i = Some d /\ tasks batch !! i = Some (Finished (Some e)))
  /\ (forall i d e, devices !! i = Some d -> once devices d i ->
        tasks batch !! i = Some (Finished (Some e)) -> (d, e) ∈ errors batch)
  /\ written batch
     = Report.generate_report os output_type output_dir now
         (output_data
            (thread_executor devices commands GenericHandler schedule initial_state).1.1).
Proof.
  intros batch. unfold batch. split; [|split; [|split; [|split; [|split]]]].
  - rewrite run_tasks. apply executor_length.
  - intros i Hi. rewrite run_tasks. by apply executor_all_finished.
  - intros i Hc (d & h & Hd & Hgh & Hans).
    destruct (run_task_ok devices commands GenericHandler os output_type output_dir now
                schedule i d Hd) as (r & Hr & Hshape).
    by pose proof (ends_answered commands GenericHandler i d h _ _ _ _
                     Hgh Hc Hans Hshape) as (-> & _).
  - intros d e. rewrite run_errors, run_tasks. intros (i & Hi & _ & Ht)%logged_spec.
    by exists i.
  - intros i d e Hd Honce. rewrite run_errors, run_tasks. intros Ht.
    apply logged_spec. exists i. split; [done|]. split; [|done].
    intros j Hj. by rewrite (Honce j Hj).
  - apply run_written.
Qed.

(** C10.  With an empty command list, a task whose session opens ends
    with a division by zero: [snapshot_task] returns that exception from
    any state with the prompt recorded in the entry of the device, no
    command sent and the session not closed; in the pool, whatever the
    schedule, the future of the task holds the exception, the task has
    sent no command and has not called [close], the entry of a device
    that occurs once holds the prompt and no output, the exception is
    logged for the task submitted last for its device, every future is
    done and the report is generated. *)
Theorem empty_command_list_divides_by_zero devices GenericHandler
    os output_type output_dir now schedule i d h :
  devices !! i = Some d -> GenericHandler i d = Some h ->
  let batch := run devices [] GenericHandler os output_type output_dir now schedule in
  (forall s, exists s',
      snapshot_task devices [] GenericHandler i d s = (Some ZeroDivisionError, s')
      /\ Dict.get d (output_data s')
         = Some {| prompt := Netcore.prompt h; command_output := [] |}
      /\ sent_by i s' = sent_by i s /\ close_count i s' = close_count i s)
  /\ tasks batch !! i = Some (Finished (Some ZeroDivisionError))
  /\ sent_by i (final batch) = []
  /\ close_count i (final batch) = 0
  /\ (once devices d i ->
      Dict.get d (output_data (final batch))
      = Some {| prompt := Netcore.prompt h; command_output := [] |})
  /\ ((forall j, devices !! j = Some d -> j <= i) -> (d, ZeroDivisionError) ∈ errors batch)
  /\ (forall j, j < length devices -> exists r, tasks batch !! j = Some (Finished r))
  /\ written batch
     = Report.generate_report os output_type output_dir now
         (output_data
            (thread_executor devices [] GenericHandler schedule initial_state).1.1).
Proof.
  intros Hd Hgh batch.
  destruct (run_task_ok devices [] GenericHandler os output_type output_dir now
              schedule i d Hd) as (r & Hr & Hshape).
  apply (ends_without_commands [] GenericHandler i d h) in Hshape
    as (-> & Hsent & Hclose & Hentry); [|done|done].
  split; [|split; [done|split; [done|split; [done|split; [done|split; [|split]]]]]].
  - intros s. unfold snapshot_task, with_handler. rewrite Hgh.
    assert (Hm : modify d (set_prompt (Netcore.prompt h)) (begin_task devices i d s)
                 = Some (assign d (set_prompt (Netcore.prompt h) empty_entry)
                           (begin_task devices i d s))).
    { apply modify_present. unfold begin_task, entry_of. simpl. apply get_set_eq. }
    rewrite Hm. eexists. split; [reflexivity|]. simpl. split; [apply get_set_eq|].
    unfold begin_task. split.
    + change (sent_by i (record (EvAssign i) s) = sent_by i s). by apply sent_by_record.
    + change (close_count i (record (EvAssign i) s) = close_count i s).
      by apply close_count_record.
  - intros Hlast. unfold batch. rewrite run_errors. apply logged_spec.
    exists i. rewrite <- run_tasks with (os := os) (output_type := output_type)
      (output_dir := output_dir) (now := now). done.
  - intros j Hj. unfold batch. rewrite run_tasks. by apply executor_all_finished.
  - apply run_written.
Qed.


(** ** [str.strip] *)

Section Strip.
Import PyStr.

Lemma append_cons c (a b : string) : String c a +:+ b = String c (a +:+ b).
Proof. reflexivity. Qed.

Lemma append_nil_l (b : string) : "" +:+ b = b.
Proof. reflexivity. Qed.

Lemma lstrip_split s :
  exists lead, s = lead +:+ lstrip s /\ all_chars isspace lead = true.
Proof.
  induction s as [|c s IH]; simpl.
  - by exists "".
  - destruct (isspace c) eqn:Hc.
    + destruct IH as (lead & Hs & Hlead). exists (String c lead). split.
      * rewrite append_cons. by f_equal.
      * cbn [all_chars]. by rewrite Hc, Hlead.
    + by exists "".
Qed.

Lemma rstrip_split s :
  exists trail, s = rstrip s +:+ trail /\ all_chars isspace trail = true.
Proof.
  induction s as [|c s IH]; simpl.
  - by exists "".
  - destruct IH as (trail & Hs & Htrail).
    destruct (rstrip s) as [|c' r] eqn:Hr.
    + rewrite append_nil_l in Hs. subst trail. destruct (isspace c) eqn:Hc.
      * exists (String c s). split; [done|]. cbn [all_chars]. by rewrite Hc, Htrail.
      * by exists s.
    + exists trail. split; [|done]. rewrite append_cons. by f_equal.
Qed.

Lemma lstrip_starts_clean s : starts_clean (lstrip s).
Proof.
  induction s as [|c s IH]; simpl; [done|].
  destruct (isspace c) eqn:Hc; [done|]. simpl. exact Hc.
Qed.

Lemma rstrip_ends_clean s : ends_clean (rstrip s).
Proof.
  induction s as [|c s IH]; simpl; [done|].
  destruct (rstrip s) as [|c' r] eqn:Hr.
  - destruct (isspace c) eqn:Hc; simpl; done.
  - exact IH.
Qed.

Lemma rstrip_starts_clean s : starts_clean s -> starts_clean (rstrip s).
Proof.
  destruct s as [|c s]; simpl; [done|]. intros Hc.
  destruct (rstrip s); [by rewrite Hc|done].
Qed.

Lemma append_assoc (a b c : string) : (a +:+ b) +:+ c = a +:+ (b +:+ c).
Proof.
  induction a as [|x a IH]; [done|]. rewrite !append_cons. by rewrite IH.
Qed.

(** [strip] removes whitespace, and nothing else, at both ends. *)
Lemma strip_spec s :
  exists lead trail,
    s = lead +:+ strip s +:+ trail
    /\ all_chars isspace lead = true /\ all_chars isspace trail = true
    /\ starts_clean (strip s) /\ ends_clean (strip s).
Proof.
  destruct (lstrip_split s) as (lead & Hs & Hlead).
  destruct (rstrip_split (lstrip s)) as (trail & Ht & Htrail).
  exists lead, trail. unfold strip. split; [|split; [done|split; [done|split]]].
  - by rewrite <- Ht.
  - apply rstrip_starts_clean, lstrip_starts_clean.
  - apply rstrip_ends_clean.
Qed.

End Strip.

Section StoredOutput.
Variable commands : list string.
Variable GenericHandler : nat -> string -> option Netcore.GenericHandler.

(** The outputs left by a task whose session opened: those of the
    commands before the first one that failed, or of all of them. *)
Lemma ends_stored i d h r sent close holds :
  GenericHandler i d = Some h -> commands ≠ [] ->
  final_shape commands GenericHandler i d r sent close holds ->
  exists k, k <= length commands /\ answers commands h k
    /\ (k = length commands
        \/ exists c, commands !! k = Some c /\ Netcore.sendCommand h k c = None)
    /\ holds {| prompt := Netcore.prompt h; command_output := stored commands h k |}.
Proof.
  intros Hgh Hc. destruct r as [[d'|d' c| |k]|]; simpl.
  - intros (_ & ? & _). congruence.
  - intros (_ & h' & n & ? & Hans & Hn & Hs & _ & _ & ?). simplify_eq.
    exists n. split; [apply lookup_lt_Some in Hn; lia|]. split; [done|].
    split; [|done]. right. by exists c.
  - intros (h' & _ & ? & _). done.
  - done.
  - intros (h' & ? & _ & Hans & _ & _ & ?). simplify_eq.
    exists (length commands). split; [lia|]. split; [done|]. split; [by left|done].
Qed.

End StoredOutput.

(** C8, as amended.  When a session answers a command, the text the
    task stores under the command is the captured output with the
    whitespace removed at both ends, the leading whitespace as well as
    the trailing one: the captured output is whitespace, then the stored
    text, then whitespace, and the stored text neither starts nor ends
    with whitespace.  For a device that occurs once in the list the text
    is still under the command when the run ends, unless the same
    command was answered again later, whose answer then replaced it. *)
Theorem stored_output_is_stripped devices commands GenericHandler
    os output_type output_dir now schedule i d h c raw :
  let batch := run devices commands GenericHandler os output_type output_dir now schedule in
  (forall s e k rest,
      Dict.get d (output_data s) = Some e ->
      Netcore.sendCommand h k c = Some raw ->
      exists e',
        Dict.get d (output_data
          (snapshot_step devices commands GenericHandler i d (Sending h k (c :: rest)) s).2)
        = Some e'
        /\ Dict.get c (command_output e') = Some (PyStr.strip raw))
  /\ (exists lead trail,
        raw = lead +:+ PyStr.strip raw +:+ trail
        /\ PyStr.all_chars PyStr.isspace lead = true
        /\ PyStr.all_chars PyStr.isspace trail = true
        /\ PyStr.starts_clean (PyStr.strip raw) /\ PyStr.ends_clean (PyStr.strip raw))
  /\ (forall j,
        devices !! i = Some d -> once devices d i -> GenericHandler i d = Some h ->
        answers commands h (S j) -> commands !! j = Some c ->
        Netcore.sendCommand h j c = Some raw ->
        (forall j', j < j' -> answers commands h (S j') -> commands !! j' ≠ Some c) ->
        exists e, Dict.get d (output_data (final batch)) = Some e
                  /\ Dict.get c (command_output e) = Some (PyStr.strip raw)).
Proof.
  intros batch. split; [|split].
  - intros s e k rest He Hraw. simpl. rewrite Hraw.
    assert (Hm : modify d (set_output c (PyStr.strip raw)) (record (EvSend i c) s)
                 = Some (assign d (set_output c (PyStr.strip raw) e)
                           (record (EvSend i c) s))) by (by apply modify_present).
    rewrite Hm. simpl. eexists. split; [apply get_set_eq|]. simpl. apply get_set_eq.
  - apply strip_spec.
  - intros j Hd Honce Hgh Hans Hc Hraw Hlast.
    destruct (run_task_ok devices commands GenericHandler os output_type output_dir now
                schedule i d Hd) as (r & Hr & Hshape).
    assert (Hne : commands ≠ []) by (by destruct commands).
    destruct (ends_stored commands GenericHandler i d h _ _ _ _ Hgh Hne Hshape)
      as (k & Hk & Hansk & Hend & Hentry).
    eexists. split; [by apply Hentry|]. simpl.
    assert (Hjk : j < k).
    { destruct Hend as [->|(c' & Hc' & Hs')]; [by eapply lookup_lt_Some|].
      destruct (decide (j < k)) as [?|Hge]; [done|].
      destruct (Hans k c') as [? ?]; [lia|done|congruence]. }
    apply (stored_get commands h k j c raw Hjk Hc Hraw).
    intros j' Hj Hj'. apply Hlast; [done|].
    intros j0 c0 Hj0. apply Hansk. lia.
Qed.

(** ** The reports *)

Section ReportFacts.
Import Report.

Lemma append_nil_r (a : string) : a +:+ "" = a.
Proof. induction a as [|x a IH]; [done|]. rewrite append_cons. by rewrite IH. Qed.



(** The files of the text loop are those of the entries, in order. *)
Lemma text_loop_lookup os output_dir now n (items : list (string * Entry)) k file :
  (text_loop os output_dir now n items).1 !! k = Some file ->
  exists device data,
    items !! k = Some (device, data)
    /\ file = (os_path_join os output_dir (filename data (now (n + k))), write_file data).
Proof.
  revert n k. induction items as [|[device data] items IH]; intros n k; [done|].
  cbn [text_loop].
  destruct (open_w os n _); [|done].
  destruct (text_loop os output_dir now (S n) items) as [files exception] eqn:Hloop.
  destruct k as [|k]; cbn [fst].
  - intros [= <-]. exists device, data. by rewrite Nat.add_0_r.
  - intros Hk. specialize (IH (S n) k). rewrite Hloop in IH.
    destruct (IH Hk) as (device' & data' & Hitem & ->).
    exists device', data'. by rewrite Nat.add_succ_r.
Qed.


(** The loop returns when every file can be opened. *)
Lemma text_loop_returns os output_dir now n (items : list (string * Entry)) :
  (forall k device data, items !! k = Some (device, data) ->
     open_w os (n + k) (os_path_join os output_dir (filename data (now (n + k)))) = true) ->
  (text_loop os output_dir now n items).2 = None.
Proof.
  revert n. induction items as [|[device data] items IH]; intros n Hopen; [done|].
  cbn [text_loop]. pose proof (Hopen 0 device data eq_refl) as H0.
  rewrite Nat.add_0_r in H0. rewrite H0.
  specialize (IH (S n)).
  destruct (text_loop os output_dir now (S n) items) as [files exception].
  apply IH. intros k device' data' Hk.
  specialize (Hopen (S k) device' data' Hk). by rewrite Nat.add_succ_r in Hopen.
Qed.

(** The file of an entry that was reached. *)
Lemma text_report_lookup os output_dir now (output_data : list (string * Entry))
    n device data :
  output_data !! n = Some (device, data) ->
  n < length (text_report os output_dir now output_data).1 ->
  (text_report os output_dir now output_data).1 !! n
  = Some (os_path_join os output_dir (filename data (now n)), write_file data).
Proof.
  intros Hn Hlen. destruct (lookup_lt_is_Some_2 _ _ Hlen) as [file Hfile].
  rewrite Hfile. unfold text_report in Hfile.
  apply text_loop_lookup in Hfile as (device' & data' & Hitem & ->).
  rewrite Hn in Hitem. by injection Hitem as <- <-.
Qed.




Lemma repeat_char_all c n :
  PyStr.all_chars (fun x => bool_decide (x = c)) (PyStr.repeat_char c n) = true.
Proof.
  induction n as [|n IH]; simpl; [done|]. rewrite IH. by rewrite bool_decide_eq_true_2.
Qed.

Lemma set_new {K V} `{EqDecision K} (d : list (K * V)) k v :
  k ∉ Dict.keys d -> Dict.set k v d = d ++ [(k, v)].
Proof.
  induction d as [|[k' v'] d IH]; simpl; [done|].
  intros Hk. destruct (decide (k = k')) as [->|Hne].
  - exfalso. apply Hk, list_elem_of_here.
  - f_equal. apply IH. intros Hin. apply Hk. by apply list_elem_of_further.
Qed.

Lemma set_set {K V} `{EqDecision K} (d : list (K * V)) k v v' :
  Dict.set k v (Dict.set k v' d) = Dict.set k v d.
Proof.
  induction d as [|[k0 v0] d IH]; simpl.
  - by rewrite decide_True.
  - destruct (decide (k = k0)) as [->|Hne]; simpl.
    + by rewrite decide_True.
    + rewrite decide_False by done. by rewrite IH.
Qed.

(** The row of a device: the label, then its command outputs. *)
Lemma dump_data_fold (l : Dict.dict string Entry) idx
    (dump : Dict.dict nat (Dict.dict string string)) :
  (forall k, k ∈ Dict.keys dump -> k < idx) ->
  fold_left (fun '(idx, dump) '(device, data) =>
               let dump := Dict.set idx [("Device", PyStr.but_last (prompt data))] dump in
               let dump :=
                 match Dict.get idx dump with
                 | Some row => Dict.set idx (Dict.update row (command_output data)) dump
                 | None => dump
                 end in
               (S idx, dump))
            l (idx, dump)
  = (idx + length l,
     dump ++ imap (fun k '(device, data) =>
                     (idx + k,
                      Dict.update [("Device", PyStr.but_last (prompt data))]
                                  (command_output data))) l).
Proof.
  revert idx dump. induction l as [|[device data] l IH]; intros idx dump Hlt; simpl.
  - by rewrite Nat.add_0_r, app_nil_r.
  - rewrite get_set_eq, set_set.
    assert (Hnew : idx ∉ Dict.keys dump) by (intros Hin%Hlt; lia).
    rewrite (set_new dump idx _ Hnew), IH.
    + rewrite <- app_assoc. simpl. rewrite Nat.add_0_r. f_equal; [lia|].
      f_equal. f_equal. apply imap_ext. intros k [device' data'] _. simpl.
      by rewrite Nat.add_succ_r.
    + intros k. unfold Dict.keys. rewrite map_app, elem_of_app. simpl.
      rewrite list_elem_of_singleton. intros [Hin%Hlt| ->]; lia.
Qed.

Lemma dump_data_eq (output_data : Dict.dict string Entry) :
  dump_data output_data
  = imap (fun n '(device, data) =>
            (S n, Dict.update [("Device", PyStr.but_last (prompt data))]
                              (command_output data)))
         output_data.
Proof.
  unfold dump_data. rewrite dump_data_fold; [done|].
  by intros k ?%elem_of_nil.
Qed.

Lemma dump_data_keys (output_data : list (string * Entry)) :
  Dict.keys (dump_data output_data) = seq 1 (length output_data).
Proof.
  rewrite dump_data_eq. unfold Dict.keys.
  apply list_eq. intros n. rewrite list_lookup_fmap, list_lookup_imap.
  destruct (output_data !! n) as [[device data]|] eqn:Hn; simpl.
  - symmetry. apply lookup_seq. split; [done|]. by eapply lookup_lt_Some.
  - symmetry. apply lookup_seq_ge. by apply lookup_ge_None.
Qed.

End ReportFacts.

(** ** The batch result is made of dictionaries *)

Section WellFormed.
Variable devices : list string.
Variable commands : list string.
Variable GenericHandler : nat -> string -> option Netcore.GenericHandler.

Lemma get_elem {K V} `{EqDecision K} (d : list (K * V)) k v :
  Dict.get k d = Some v -> (k, v) ∈ d.
Proof.
  induction d as [|[k' v'] d IH]; simpl; [done|].
  destruct (decide (k = k')) as [->|Hne].
  - intros [= ->]. apply list_elem_of_here.
  - intros Hg. apply list_elem_of_further. by apply IH.
Qed.

Lemma Forall_set {K V} `{EqDecision K} (P : K * V -> Prop) (d : list (K * V)) k v :
  Forall P d -> P (k, v) -> Forall P (Dict.set k v d).
Proof.
  intros Hd Hkv. induction Hd as [|[k' v'] d Hx Hd IH]; simpl.
  - by constructor.
  - destruct (decide (k = k')); by constructor.
Qed.

Lemma modify_wf device f s s' :
  (forall e, NoDup (Dict.keys (command_output e)) ->
             NoDup (Dict.keys (command_output (f e)))) ->
  Forall (fun kv => NoDup (Dict.keys (command_output kv.2))) (output_data s) ->
  modify device f s = Some s' ->
  Forall (fun kv => NoDup (Dict.keys (command_output kv.2))) (output_data s').
Proof.
  intros Hf Hwf. unfold modify.
  destruct (Dict.get device (output_data s)) as [e|] eqn:He; [|done].
  intros [= <-]. simpl. apply Forall_set; [done|]. simpl. apply Hf.
  apply get_elem in He. rewrite Forall_forall in Hwf. by apply (Hwf _ He).
Qed.

Lemma outputs_wf_preserved :
  preserved devices commands GenericHandler
    (fun s _ => Forall (fun kv => NoDup (Dict.keys (command_output kv.2))) (output_data s)).
Proof.
  intros s tasks i device p Hwf _ _.
  destruct p as [| |h|h k rest|r]; simpl.
  - apply Forall_set; [done|]. apply NoDup_nil_2.
  - by destruct (GenericHandler i device).
  - destruct (modify _ _ _) as [s1|] eqn:Hm; [|done].
    apply modify_wf in Hm; [|done|done]. by destruct commands.
  - destruct rest as [|c rest]; simpl; [done|].
    destruct (Netcore.sendCommand _ _ _); simpl; [|done].
    destruct (modify _ _ _) as [s1|] eqn:Hm; simpl; [|done].
    apply modify_wf in Hm; [done| |done].
    intros e He. simpl. by apply set_keys_NoDup.
  - done.
Qed.

(** In the batch result of a run no command is a key twice. *)
Lemma run_outputs_wf os output_type output_dir now schedule device data :
  (device, data) ∈ output_data
    (final (run devices commands GenericHandler os output_type output_dir now schedule)) ->
  NoDup (Dict.keys (command_output data)).
Proof.
  rewrite run_output_data. intros Hin.
  pose proof (executor_invariant devices commands GenericHandler _ outputs_wf_preserved
                schedule initial_state) as Hwf.
  simpl in Hwf. specialize (Hwf (Forall_nil_2 _)).
  rewrite Forall_forall in Hwf. by apply (Hwf _ Hin).
Qed.

End WellFormed.


(** C7, as amended.  In the other mode the rows dumped into the
    worksheet have the keys 1, 2, ... in the order of the batch result.
    In the row of a device, every command of its result is a column
    holding the output stored for it, a command that is not in its
    result is no column, and the column ["Device"] holds the prompt
    without its last character unless ["Device"] is itself one of the
    commands of the result (that column then holds the output of the
    command).  A device with the empty prompt and no outputs, as one
    whose session did not open, has the row with the empty ["Device"]
    and nothing else. *)
Theorem tabular_rows devices commands GenericHandler os output_type output_dir now schedule :
  output_type ≠ "Text" ->
  let batch := run devices commands GenericHandler os output_type output_dir now schedule in
  exists rows,
    (written batch).1 = Report.Workbook "Snapshot" rows
    /\ Dict.keys rows = seq 1 (length (output_data (final batch)))
    /\ forall n device data, output_data (final batch) !! n = Some (device, data) ->
         exists row, rows !! n = Some (S n, row)
           /\ ("Device" ∉ Dict.keys (command_output data) ->
               Dict.get "Device" row = Some (PyStr.but_last (prompt data)))
           /\ (forall c out, Dict.get c (command_output data) = Some out ->
                             Dict.get c row = Some out)
           /\ (forall c, c ≠ "Device" -> Dict.get c (command_output data) = None ->
                         Dict.get c row = None)
           /\ (data = empty_entry -> row = [("Device", "")]).
Proof.
  intros Htype batch.
  exists (Report.dump_data (output_data (final batch))).
  split; [|split; [apply dump_data_keys|]].
  - unfold batch. rewrite run_written, run_output_data. unfold Report.generate_report.
    by rewrite decide_False.
  - intros n device data Hn. rewrite dump_data_eq.
    eexists. split.
    { etransitivity; [apply list_lookup_imap|].
      by replace (output_data (final batch) !! n) with (Some (device, data)). }
    split; [|split; [|split]].
    + intros Hout. rewrite get_update_out.
      * reflexivity.
      * destruct (Dict.get "Device" (command_output data)) eqn:Hg; [|done].
        by apply get_Some_keys in Hg.
    + intros c out Hc. apply get_update_in; [|done].
      apply (run_outputs_wf devices commands GenericHandler os output_type output_dir now
               schedule device).
      by eapply list_elem_of_lookup_2.
    + intros c Hne Hc. rewrite get_update_out by done. simpl. by rewrite decide_False.
    + by intros ->.
Qed.

(** ** The steps of a task and [snapshot_task] *)

Section Sequential.
Variable devices : list string.
Variable commands : list string.
Variable GenericHandler : nat -> string -> option Netcore.GenericHandler.

Local Abbreviation step1 := (snapshot_step devices commands GenericHandler).
Local Abbreviation pool_step := (step devices commands GenericHandler).
Local Abbreviation task := (snapshot_task devices commands GenericHandler).
Local Abbreviation loop := (command_loop devices commands).

Lemma step_at (c : Pool) i d p :
  devices !! i = Some d -> c.2 !! i = Some p ->
  pool_step c i = ((step1 i d p c.1).2, <[i := (step1 i d p c.1).1]> c.2).
Proof.
  intros Hd Hp. unfold step. rewrite Hd, Hp. by destruct (step1 i d p c.1).
Qed.

Lemma iter_finished cmds n (c : Pool) i r :
  c.2 !! i = Some (Finished r) ->
  Nat.iter n (fun c => step devices cmds GenericHandler c i) c = c.
Proof.
  intros Hr. induction n as [|n IH]; [done|]. simpl. rewrite IH.
  unfold step. destruct (devices !! i); [|done]. rewrite Hr. simpl.
  rewrite list_insert_id by done. by destruct c.
Qed.

Lemma insert_lookup_eq (tasks : list pc) i p p0 :
  tasks !! i = Some p0 -> (<[i := p]> tasks) !! i = Some p.
Proof. intros Hi. apply list_lookup_insert_eq. by eapply lookup_lt_Some. Qed.

Local Opaque Nat.iter.

(** The steps of the loop add up to [command_loop]. *)
Lemma iter_command_loop i d h rest k s (tasks : list pc) n :
  devices !! i = Some d -> tasks !! i = Some (Sending h k rest) ->
  length rest + 1 <= n ->
  Nat.iter n (fun c => pool_step c i) (s, tasks)
  = ((loop i d h k rest s).2, <[i := Finished (loop i d h k rest s).1]> tasks).
Proof.
  intros Hd. revert k s tasks n.
  induction rest as [|c rest IH]; intros k s tasks n Hp Hn;
    (destruct n as [|n]; [simpl in Hn; lia|]);
    rewrite Nat.iter_succ_r, (step_at (s, tasks) i d _ Hd Hp); cbn [fst snd].
  - simpl. apply (iter_finished commands n _ i None). simpl. by eapply insert_lookup_eq.
  - simpl. destruct (Netcore.sendCommand h k c) as [raw|]; simpl.
    + destruct (modify d _ _) as [s1|]; simpl.
      * rewrite (IH (S k) _ _ n); [|by eapply insert_lookup_eq|simpl in Hn; lia].
        by rewrite list_insert_insert_eq.
      * apply (iter_finished commands n _ i (Some (KeyError d))). simpl.
        by eapply insert_lookup_eq.
    + apply (iter_finished commands n _ i (Some (CommandError d c))). simpl.
      by eapply insert_lookup_eq.
Qed.

(** A task that runs alone from its submission to its end does what
    [snapshot_task] does. *)
Lemma finish_snapshot_task i d s (tasks : list pc) :
  devices !! i = Some d -> tasks !! i = Some Submitted ->
  finish devices commands GenericHandler (s, tasks) i
  = ((task i d s).2, <[i := Finished (task i d s).1]> tasks).
Proof.
  intros Hd Hp. unfold finish. cbn [fst snd]. rewrite Hp.
  replace (steps_left commands Submitted) with (S (S (S (length commands + 1))))
    by (simpl; lia).
  rewrite Nat.iter_succ_r, (step_at (s, tasks) i d _ Hd Hp). cbn [fst snd].
  change (step1 i d Submitted s) with (Connecting, begin_task devices i d s).
  cbn [fst snd]. unfold snapshot_task. set (s0 := begin_task devices i d s).
  rewrite Nat.iter_succ_r, (step_at (s0, _) i d Connecting Hd)
    by (by eapply insert_lookup_eq).
  cbn [fst snd]. rewrite list_insert_insert_eq.
  change (step1 i d Connecting s0)
    with (match GenericHandler i d with
          | None => (Finished (Some (ConnectionError d)), s0)
          | Some handler => (Connected handler, s0)
          end).
  destruct (GenericHandler i d) as [h|]; cbn [fst snd].
  - rewrite Nat.iter_succ_r, (step_at (s0, _) i d (Connected h) Hd)
      by (by eapply insert_lookup_eq).
    cbn [fst snd]. rewrite list_insert_insert_eq. unfold with_handler.
    change (step1 i d (Connected h) s0)
      with (match modify d (set_prompt (Netcore.prompt h)) s0 with
            | None => (Finished (Some (KeyError d)), s0)
            | Some s1 =>
                match commands with
                | [] => (Finished (Some ZeroDivisionError),
                         emit (B64.mul (available_progress devices) (B64.lit 0.2)) s1)
                | _ => (Sending h 0 commands,
                        emit (B64.mul (available_progress devices) (B64.lit 0.2)) s1)
                end
            end).
    destruct (modify d _ s0) as [s1|]; cbn [fst snd].
    + destruct commands as [|c0 cs] eqn:Hcs; cbn [fst snd].
      * apply (iter_finished [] _ _ i (Some ZeroDivisionError)). cbn [fst snd].
        by eapply insert_lookup_eq.
      * rewrite <- Hcs.
        rewrite (iter_command_loop i d h commands 0 _ _ (length commands + 1));
          [|done|by eapply insert_lookup_eq|lia].
        by rewrite list_insert_insert_eq.
    + apply (iter_finished commands _ _ i (Some (KeyError d))). cbn [fst snd].
      by eapply insert_lookup_eq.
  - apply (iter_finished commands _ _ i (Some (ConnectionError d))). cbn [fst snd].
    by eapply insert_lookup_eq.
Qed.

Local Transparent Nat.iter.

End Sequential.

(** ** Sample batches *)

Section Samples.
Import Sample.
Import PrimFloat.

Local Abbreviation one_router := ["router1"].
Local Abbreviation two_routers := ["router1"; "router2"].
Local Abbreviation same_router_twice := ["router1"; "router1"].
Local Abbreviation show_version := ["show version"].

Lemma once_single (d : string) : once [d] d 0.
Proof. intros [|j] Hj; [reflexivity|discriminate]. Defined.

Lemma reachable_answers commands n : answers commands router1 n.
Proof. intros j c _ _. by eexists. Defined.

Lemma reachable_succeeds (devices commands : list string) i :
  i < length devices -> succeeds devices commands reachable i.
Proof.
  intros Hi. destruct (lookup_lt_is_Some_2 devices i Hi) as [d Hd].
  exists d, router1. split; [exact Hd|]. split; [reflexivity|].
  apply reachable_answers.
Defined.

(** C1: a device listed twice has one entry, and a task that makes
    its assignment first comes first. *)
Lemma repeated_device_shares_one_entry :
  length (output_data
            (thread_executor same_router_twice show_version reachable [] initial_state).1.1)
  ≠ length same_router_twice
  /\ Dict.keys (output_data
                 (thread_executor two_routers show_version reachable [1] initial_state).1.1)
     ≠ two_routers.
Proof. split; vm_compute; discriminate. Qed.

Lemma output_data_keys_by_assignment_witness :
  Dict.keys (output_data
               (thread_executor two_routers show_version reachable [] initial_state).1.1)
  = two_routers.
Proof.
  destruct (output_data_keys_by_assignment two_routers show_version reachable [])
    as (_ & _ & _ & _ & Hkeys).
  apply Hkeys.
  - apply NoDup_cons. split; [|apply NoDup_singleton].
    intros Hin%list_elem_of_singleton. discriminate.
  - reflexivity.
Defined.



(** The increments of one device and one command: the rounding of
    binary64 written out gives the floats of the machine. *)
Lemma sample_increments :
  map Qred (add_progress
              (final (run one_router show_version reachable posix "Text" "out" clock [])))
  = [9; 9; 18; 8866461766385663 # 140737488355328; 2]%Q
  /\ map (fun x => option_map Qred (Binary64.to_Q x)) (Binary64.increments [true] 1)
     = map Some [9; 9; 18; 8866461766385663 # 140737488355328; 2]%Q
  /\ Binary64.increments [true] 1
     = [9; 9; 18; 0x1.f7fffffffffffp+5; 2]%float.
Proof. split; [by vm_compute|]. split; [by vm_compute|reflexivity]. Qed.

(** For every batch of up to 24 devices and 24 commands, the three
    increments of a task are the floats the machine computes for
    them. *)
Lemma binary64_agrees :
  forallb (fun D =>
    forallb (fun C =>
      let devices := repeat "" D in
      let commands := repeat "" C in
      match map Binary64.to_Q (Binary64.task D C true) with
      | Some x :: Some y :: Some z :: _ =>
          Qeq_bool x (B64.mul (available_progress devices) (B64.lit 0.1))
          && Qeq_bool y (B64.mul (available_progress devices) (B64.lit 0.2))
          && Qeq_bool z (command_progress devices commands)
      | _ => false
      end) (seq 1 24)) (seq 1 24)
  = true.
Proof. by vm_compute. Qed.

(** Ties go to the even neighbour and small numbers become subnormal or
    zero, as on the machine. *)
Lemma binary64_ties_and_subnormals :
  Binary64.to_Q (1 + 0x1p-53)%float = Some (B64.round (1 + B64.pow2 (-53)))
  /\ option_map Qred (Binary64.to_Q (1 + 0x1.8p-52)%float)
     = Some (Qred (B64.round (1 + 3 * B64.pow2 (-53))))
  /\ option_map Qred (Binary64.to_Q (0x1p-1073 * 0.75)%float)
     = Some (Qred (B64.round (B64.pow2 (-1073) * (3 # 4))))
  /\ option_map Qred (Binary64.to_Q (0x1p-1074 * 0.5)%float)
     = Some (Qred (B64.round (B64.pow2 (-1074) * (1 # 2)))).
Proof. repeat split; by vm_compute. Qed.

(** The sum computed by the machine stays within rounding of 101 for 20
    devices and 13 commands. *)
Lemma binary64_total_near_101 :
  PrimFloat.ltb
    (PrimFloat.abs
       (PrimFloat.sub (Binary64.total (Binary64.increments (repeat true 20) 13)) 101))
    0x1.0c6f7a0b5ed8dp-20 = true.
Proof. reflexivity. Qed.

(** C3: one device, one command, everything succeeds and the report is
    written; the increments add up to 101 within 1e-6, more than 1e-6
    away from 100, and the machine adds them up to 101. *)
Lemma full_success_total_is_not_100 :
  let batch := run one_router show_version reachable posix "Text" "out" clock [] in
  let emitted := total (add_progress (final batch)) in
  raised batch = None
  /\ ~ (Qabs (emitted - 100) <= 1 # 1000000)%Q
  /\ (Qabs (emitted - 101) <= 1 # 1000000)%Q
  /\ Binary64.total (Binary64.increments [true] 1) = 101%float.
Proof.
  split; [reflexivity|]. split; [|split; [by vm_compute|reflexivity]].
  intros Hle. vm_compute in Hle. by apply Hle.
Qed.

Lemma full_success_emits_101_witness :
  let batch := run two_routers show_version reachable posix "Text" "out" clock [1; 0; 1] in
  (Qabs (total (add_progress (final batch)) - 101) <= 1 # 1000000)%Q.
Proof.
  apply full_success_emits_101; [discriminate|discriminate|reflexivity|reflexivity| |].
  - apply reachable_succeeds.
  - reflexivity.
Defined.

(** C4.  The failing input: a device listed twice whose first
    connection fails while the second one succeeds.  The exception of
    the first task stays in its future and nothing is logged, although
    [thread_executor] is documented to log any exceptions: the
    dictionary of futures is keyed by the device, so the second future
    replaces the first. *)
Lemma earlier_exception_is_not_logged :
  let batch := run same_router_twice show_version first_fails posix "Text" "out" clock [] in
  tasks batch = [Finished (Some (ConnectionError "router1")); Finished None]
  /\ futures same_router_twice = [("router1", 1)]
  /\ errors batch = [].
Proof. split; [reflexivity|]. split; reflexivity. Qed.

Lemma device_exceptions_are_contained_witness :
  tasks (run two_routers show_version first_fails posix "Text" "out" clock []) !! 1
  = Some (Finished None).
Proof.
  destruct (device_exceptions_are_contained two_routers show_version first_fails
              posix "Text" "out" clock []) as (_ & _ & Hok & _).
  apply Hok; [discriminate|].
  exists "router2", router1. split; [reflexivity|]. split; [reflexivity|].
  apply reachable_answers.
Defined.

(** C5: the first session for a device listed twice does not open, the
    second one does and records its prompt in the entry they share. *)
Lemma reopened_device_entry_is_not_empty :
  let batch := run same_router_twice show_version first_fails posix "Text" "out" clock [] in
  first_fails 0 "router1" = None
  /\ tasks batch !! 0 = Some (Finished (Some (ConnectionError "router1")))
  /\ Dict.get "router1" (output_data (final batch))
     = Some {| prompt := "router1#"; command_output := [("show version", "Output")] |}.
Proof. split; [reflexivity|]. split; reflexivity. Qed.

Lemma unopened_device_has_empty_entry_witness :
  Dict.get "router1"
    (output_data (final (run two_routers show_version first_fails posix "Text" "out" clock [])))
  = Some {| prompt := ""; command_output := [] |}.
Proof.
  destruct (unopened_device_has_empty_entry two_routers show_version first_fails
              posix "Text" "out" clock [] "router1") as (_ & Hall & _).
  - apply list_elem_of_here.
  - apply Hall. intros [|[|j]] Hj; [reflexivity|discriminate|discriminate].
Defined.

Local Abbreviation sample_result :=
  [("router1", {| prompt := "router1#";
                  command_output := [("show ip int brief", "Output")] |})].


(** C7: a command named like the label column takes the column. *)
Lemma command_named_device_takes_the_column :
  (written (run one_router ["Device"] reachable posix "Excel" "out" clock [])).1
  = Report.Workbook "Snapshot" [(1, [("Device", "Output")])]
  /\ PyStr.but_last (Netcore.prompt router1) = "router1".
Proof. split; reflexivity. Qed.

Lemma tabular_rows_witness :
  exists rows,
    (written (run ["A"; "B"] show_version only_first posix "Excel" "out" clock [])).1
    = Report.Workbook "Snapshot" rows
    /\ Dict.keys rows = [1; 2]
    /\ rows !! 0 = Some (1, [("Device", "A"); ("show version", "X")])
    /\ rows !! 1 = Some (2, [("Device", "")]).
Proof.
  destruct (tabular_rows ["A"; "B"] show_version only_first posix "Excel" "out" clock [])
    as (rows & Hgen & Hkeys & _); [discriminate|].
  exists rows. split; [exact Hgen|]. split; [exact Hkeys|].
  injection Hgen as <-. split; reflexivity.
Defined.

(** C8: the whitespace in front of the output is removed as well. *)
Lemma leading_whitespace_is_removed :
  let batch := run one_router show_version (fun _ _ => Some padded) posix "Text" "out" clock [] in
  exists e, Dict.get "router1" (output_data (final batch)) = Some e
    /\ Dict.get "show version" (command_output e) = Some "Output"
    /\ PyStr.rstrip "  Output  " = "  Output".
Proof. eexists. split; [reflexivity|]. split; reflexivity. Qed.

Lemma stored_output_is_stripped_witness :
  exists e, Dict.get "router1"
              (output_data (final (run one_router show_version (fun _ _ => Some padded)
                                       posix "Text" "out" clock [])))
            = Some e
    /\ Dict.get "show version" (command_output e) = Some "Output".
Proof.
  destruct (stored_output_is_stripped one_router show_version (fun _ _ => Some padded)
              posix "Text" "out" clock [] 0 "router1" padded "show version" "  Output  ")
    as (_ & _ & Hfinal).
  apply (Hfinal 0).
  - reflexivity.
  - apply once_single.
  - reflexivity.
  - intros j c _ _. by eexists.
  - reflexivity.
  - reflexivity.
  - intros [|j'] Hj _; [lia|discriminate].
Defined.

(** C9: the only device cannot be reached; the increments add up to
    20, in the model and on the machine. *)
Lemma unreachable_device_total_is_20 :
  let batch := run one_router show_version unreachable posix "Text" "out" clock [] in
  let emitted := total (add_progress (final batch)) in
  raised batch = None
  /\ (emitted == 20)%Q /\ ~ (100 <= emitted)%Q
  /\ Binary64.total (Binary64.increments [false] 1) = 20%float.
Proof.
  split; [reflexivity|]. split; [by vm_compute|]. split; [|reflexivity].
  intros Hle. vm_compute in Hle. by apply Hle.
Qed.

Lemma failed_open_loses_nine_tenths_witness :
  let batch := run two_routers show_version first_fails posix "Text" "out" clock [] in
  (Qabs (total (add_progress (final batch)) - (101 - 81 * Qnat 1 / Qnat 2))
   <= 1 # 1000000)%Q.
Proof.
  destruct (failed_open_loses_nine_tenths two_routers show_version first_fails
              posix "Text" "out" clock []) as [_ Hsum].
  - discriminate.
  - discriminate.
  - reflexivity.
  - reflexivity.
  - intros [|[|i]] Hi.
    + left. reflexivity.
    + right. exists "router2", router1. split; [reflexivity|]. split; [reflexivity|].
      apply reachable_answers.
    + simpl in Hi. lia.
  - exact Hsum.
Defined.

(** A prompt with slashes names a file in a directory that does not
    exist: [open] raises, no file is written, and the 2 of line 50 is
    not emitted. *)
Lemma report_raises_for_a_prompt_with_slashes :
  let batch := run one_router show_version (fun _ _ => Some route_processor)
                   flat "Text" "out" clock [] in
  written batch
  = (Report.TextFiles [],
     Some (Report.OSError "out/RP/0/RSP0/CPU0:ios_2026-11-04.txt"))
  /\ last (add_progress (final batch)) ≠ Some 2%Q
  /\ tasks batch = [Finished None].
Proof. split; [by vm_compute|]. split; [by vm_compute|reflexivity]. Qed.

(** Two sessions for one device write their prompts into the entry
    they share; the schedule decides which prompt is left, and with it
    whether the file of the device can be opened. *)
Lemma schedule_decides_the_report :
  raised (run same_router_twice show_version first_route_processor
              flat "Text" "out" clock [])
  = None
  /\ raised (run same_router_twice show_version first_route_processor
                 flat "Text" "out" clock [1; 1; 1; 1; 1; 0; 0; 0])
     = Some (Report.OSError "out/RP/0/RSP0/CPU0:ios_2026-11-04.txt").
Proof. split; by vm_compute. Qed.

Lemma empty_command_list_divides_by_zero_witness :
  tasks (run one_router [] reachable posix "Text" "out" clock []) !! 0
  = Some (Finished (Some ZeroDivisionError)).
Proof.
  destruct (empty_command_list_divides_by_zero one_router reachable posix "Text" "out" clock []
              0 "router1" router1 eq_refl eq_refl) as (_ & Hend & _).
  exact Hend.
Defined.

End Samples.

(** * More of the code *)

(** ** Reading the device and command lists *)

Section InputFacts.
Import Input.

Lemma is_lf_linebreak c : is_lf c = true -> is_linebreak c = true.
Proof.
  unfold is_lf, is_linebreak. intros ->%Nat.eqb_eq. reflexivity.
Qed.

Lemma splitlines_after_nil s : splitlines_after false s = [] -> s = "".
Proof.
  destruct s as [|c s]; [done|]. simpl.
  destruct (is_linebreak c); [done|]. by destruct (splitlines_after false s).
Qed.

Lemma splitlines_after_unbroken cr s : Forall unbroken (splitlines_after cr s).
Proof.
  revert cr. induction s as [|c s IH]; intros cr; simpl; [constructor|].
  destruct (cr && is_lf c); [apply IH|].
  destruct (is_linebreak c) eqn:Hc.
  - constructor; [reflexivity|apply IH].
  - specialize (IH false). destruct (splitlines_after false s) as [|line lines].
    + constructor; [|constructor]. unfold unbroken. simpl. by rewrite Hc.
    + apply Forall_cons in IH as [Hline Hlines]. constructor; [|done].
      unfold unbroken in *. simpl. by rewrite Hc, Hline.
Qed.

(** A line without line ends is one line. *)
Lemma splitlines_line line : unbroken line -> line ≠ "" -> splitlines line = [line].
Proof.
  unfold splitlines. induction line as [|c line IH]; [done|].
  unfold unbroken. simpl. intros [Hc Hline]%andb_prop _.
  apply negb_true_iff in Hc. rewrite Hc.
  destruct line as [|c' line]; [done|]. by rewrite IH.
Qed.

(** Two texts with a newline between them: the lines of the first, at
    most one empty line, and the lines of the second. *)
Lemma splitlines_after_newline cr a b :
  exists extra, (extra = [] \/ extra = [""])
    /\ splitlines_after cr (a +:+ PyStr.newline +:+ b)
       = splitlines_after cr a ++ extra ++ splitlines_after false b.
Proof.
  revert cr. induction a as [|c a IH]; intros cr.
  - rewrite append_nil_l. destruct cr.
    + exists []. split; [by left|]. reflexivity.
    + exists [""]. split; [by right|]. reflexivity.
  - rewrite append_cons. cbn [splitlines_after].
    destruct (cr && is_lf c); [apply IH|].
    destruct (is_linebreak c).
    + destruct (IH (is_cr c)) as (extra & Hextra & ->). by exists extra.
    + destruct (IH false) as (extra & Hextra & Heq). rewrite Heq.
      destruct (splitlines_after false a) as [|line lines] eqn:Ha.
      * apply splitlines_after_nil in Ha as ->. rewrite append_nil_l in Heq.
        exists []. split; [by left|].
        change (splitlines_after false (PyStr.newline +:+ b))
          with ("" :: splitlines_after false b) in Heq.
        cbn [app] in Heq |- *. by rewrite <- Heq.
      * by exists extra.
Qed.

Lemma filter_truthy_extra (extra : list string) :
  extra = [] \/ extra = [""] -> List.filter truthy extra = [].
Proof. by intros [-> | ->]. Qed.

Lemma lines_of_newline a b :
  lines_of (a +:+ PyStr.newline +:+ b) = lines_of a ++ lines_of b.
Proof.
  unfold lines_of, splitlines.
  destruct (splitlines_after_newline false a b) as (extra & Hextra & ->).
  by rewrite !List.filter_app, (filter_truthy_extra extra Hextra).
Qed.

Lemma lines_of_line line : unbroken line -> line ≠ "" -> lines_of line = [line].
Proof.
  intros Hline Hne. unfold lines_of. rewrite splitlines_line by done.
  simpl. by destruct line.
Qed.

Lemma lines_of_blank_after cr s :
  List.filter truthy (splitlines_after cr s) = []
  <-> PyStr.all_chars is_linebreak s = true.
Proof.
  revert cr. induction s as [|c s IH]; intros cr; [done|]. simpl.
  destruct (cr && is_lf c) eqn:Hcr.
  - apply andb_prop in Hcr as [_ Hlf]. rewrite (is_lf_linebreak c Hlf). apply IH.
  - destruct (is_linebreak c); simpl; [apply IH|].
    split; [|done]. by destruct (splitlines_after false s).
Qed.

End InputFacts.

(** X1.  What [run] takes as its devices and commands: every item is a
    non-empty line without a line end in it. *)
Theorem lines_of_items text line :
  In line (Input.lines_of text) ->
  line ≠ "" /\ PyStr.all_chars (fun c => negb (Input.is_linebreak c)) line = true.
Proof.
  unfold Input.lines_of. intros [Hin Htrue]%List.filter_In. split.
  - by destruct line.
  - pose proof (splitlines_after_unbroken false text) as Hall.
    rewrite Forall_forall in Hall. apply Hall. by apply list_elem_of_In.
Qed.

(** X2.  Lines that are not empty and hold no line end are read back as they
    are from the text that lists them one per line, with or without a
    newline after the last one; a line is taken as it is, with its
    blanks. *)
Theorem lines_of_join_lines (lines : list string) :
  Forall (fun line =>
            line ≠ ""
            /\ PyStr.all_chars (fun c => negb (Input.is_linebreak c)) line = true) lines ->
  Input.lines_of (Input.join_lines lines) = lines
  /\ Input.lines_of (Input.join_lines lines +:+ PyStr.newline) = lines.
Proof.
  intros Hall.
  assert (Hjoin : Input.lines_of (Input.join_lines lines) = lines).
  { induction Hall as [|line lines [Hne Hline] Hall IH]; [done|].
    destruct lines as [|line' lines].
    - by apply lines_of_line.
    - change (Input.join_lines (line :: line' :: lines))
        with (line +:+ PyStr.newline +:+ Input.join_lines (line' :: lines)).
      rewrite lines_of_newline, IH, lines_of_line by done. done. }
  split; [exact Hjoin|].
  rewrite <- (append_nil_r (Input.join_lines lines +:+ PyStr.newline)).
  rewrite append_assoc, lines_of_newline, Hjoin. apply app_nil_r.
Qed.

(** X3.  A newline between two texts keeps their items apart: the items of
    the whole are those of the first text followed by those of the
    second. *)
Theorem lines_of_two_texts a b :
  Input.lines_of (a +:+ PyStr.newline +:+ b) = Input.lines_of a ++ Input.lines_of b.
Proof. apply lines_of_newline. Qed.

(** X4.  A text gives no item exactly when it holds nothing but line ends. *)
Theorem lines_of_blank text :
  Input.lines_of text = [] <-> PyStr.all_chars Input.is_linebreak text = true.
Proof. apply lines_of_blank_after. Qed.

(** ** The tasks, whatever the schedule *)

Section Outcomes.
Variable devices : list string.
Variable commands : list string.
Variable GenericHandler : nat -> string -> option Netcore.GenericHandler.

Local Abbreviation final1 := (final_shape commands GenericHandler).

(** How a task ends, what it sent, whether it closed and what it left
    are fixed by its session. *)
Lemma final_shape_unique i d r1 r2 sent1 sent2 close1 close2
    (holds1 holds2 : Entry -> Prop) :
  final1 i d r1 sent1 close1 holds1 -> final1 i d r2 sent2 close2 holds2 ->
  r1 = r2 /\ sent1 = sent2 /\ close1 = close2 /\ exists e, holds1 e /\ holds2 e.
Proof.
  intros H1 H2. destruct (GenericHandler i d) as [h|] eqn:Hgh.
  - destruct (decide (commands = [])) as [Hnil|Hne].
    + destruct (ends_without_commands commands GenericHandler i d h _ _ _ _ Hgh Hnil H1)
        as (-> & -> & -> & He1).
      destruct (ends_without_commands commands GenericHandler i d h _ _ _ _ Hgh Hnil H2)
        as (-> & -> & -> & He2).
      eauto 10.
    + destruct (ends_stored commands GenericHandler i d h _ _ _ _ Hgh Hne H1)
        as (k & Hk & Hans & [-> | (c & Hc & Hs)] & _).
      * destruct (ends_answered commands GenericHandler i d h _ _ _ _ Hgh Hne Hans H1)
          as (-> & -> & -> & He1).
        destruct (ends_answered commands GenericHandler i d h _ _ _ _ Hgh Hne Hans H2)
          as (-> & -> & -> & He2).
        eauto 10.
      * destruct (ends_at_first_failure commands GenericHandler i d h k c _ _ _ _
                    Hgh Hans Hc Hs H1) as (-> & -> & -> & He1).
        destruct (ends_at_first_failure commands GenericHandler i d h k c _ _ _ _
                    Hgh Hans Hc Hs H2) as (-> & -> & -> & He2).
        eauto 10.
  - destruct (ends_unopened commands GenericHandler i d _ _ _ _ Hgh H1)
      as (-> & -> & -> & He1).
    destruct (ends_unopened commands GenericHandler i d _ _ _ _ Hgh H2)
      as (-> & -> & -> & He2).
    eauto 10.
Qed.

Lemma sent_prefix i d r sent close holds :
  final1 i d r sent close holds -> exists k, sent = take k commands.
Proof.
  destruct r as [[d'|d' c| |k]|]; simpl.
  - intros (_ & _ & -> & _). by exists 0.
  - intros (_ & h & n & _ & _ & _ & _ & -> & _). by exists (S n).
  - intros (h & _ & _ & -> & _). by exists 0.
  - done.
  - intros (h & _ & _ & _ & -> & _). exists (length commands). by rewrite firstn_all.
Qed.

Lemma close_iff_returned i d r sent close holds :
  final1 i d r sent close holds -> close = if r is None then 1 else 0.
Proof.
  destruct r as [[d'|d' c| |k]|]; simpl.
  - by intros (_ & _ & _ & -> & _).
  - by intros (_ & h & n & _ & _ & _ & _ & _ & -> & _).
  - by intros (h & _ & _ & _ & -> & _).
  - done.
  - by intros (h & _ & _ & _ & _ & -> & _).
Qed.

End Outcomes.

(** X5.  A session is closed exactly when its task returns without an
    exception, and then once: the future of every task is done, and
    [close] was called once if it holds no exception and not at all if
    it holds one, whatever the schedule. *)
Theorem session_closed_iff_task_returned devices commands GenericHandler
    os output_type output_dir now schedule i d :
  devices !! i = Some d ->
  let batch := run devices commands GenericHandler os output_type output_dir now schedule in
  exists r, tasks batch !! i = Some (Finished r)
    /\ close_count i (final batch) = if r is None then 1 else 0.
Proof.
  intros Hd batch.
  destruct (run_task_ok devices commands GenericHandler os output_type output_dir now
              schedule i d Hd) as (r & Hr & Hshape).
  exists r. split; [exact Hr|]. by eapply close_iff_returned.
Qed.

(** X6.  What a task sends is a prefix of the command list, in its order:
    nothing when its session does not open, the commands up to and
    including the first one that fails (none after it), and the whole
    list when every command is answered; whatever the schedule. *)
Theorem commands_sent_in_order devices commands GenericHandler
    os output_type output_dir now schedule i d :
  devices !! i = Some d ->
  let sent :=
    sent_by i (final (run devices commands GenericHandler os output_type output_dir now
                          schedule)) in
  (exists k, sent = take k commands)
  /\ (GenericHandler i d = None -> sent = [])
  /\ (forall h n c, GenericHandler i d = Some h -> answers commands h n ->
        commands !! n = Some c -> Netcore.sendCommand h n c = None ->
        sent = take (S n) commands)
  /\ (forall h, GenericHandler i d = Some h -> answers commands h (length commands) ->
        sent = commands).
Proof.
  intros Hd sent.
  destruct (run_task_ok devices commands GenericHandler os output_type output_dir now
              schedule i d Hd) as (r & Hr & Hshape).
  fold sent in Hshape. split; [by eapply sent_prefix|]. split; [|split].
  - intros Hgh. by destruct (ends_unopened commands GenericHandler i d _ _ _ _ Hgh Hshape)
      as (_ & ? & _).
  - intros h n c Hgh Hans Hc Hs.
    by destruct (ends_at_first_failure commands GenericHandler i d h n c _ _ _ _
                   Hgh Hans Hc Hs Hshape) as (_ & ? & _).
  - intros h Hgh Hans. destruct (decide (commands = [])) as [Hnil|Hne].
    + destruct (ends_without_commands commands GenericHandler i d h _ _ _ _ Hgh Hnil Hshape)
        as (_ & -> & _). by rewrite Hnil.
    + by destruct (ends_answered commands GenericHandler i d h _ _ _ _ Hgh Hne Hans Hshape)
        as (_ & ? & _).
Qed.

(** X8.  The schedule decides the order of the entries of the batch result
    and nothing else of what the tasks do: for every two schedules the
    futures hold the same results, the same errors are logged, every
    task has sent the same commands and closed as often, a device that
    occurs once has the same entry, and the increments add up to the
    same, but for the 2 of line 50 in a run whose report raises (the
    order of the entries, and the entry of a device listed twice,
    decide which files are opened). *)
Theorem outcome_independent_of_schedule devices commands GenericHandler
    os output_type output_dir now schedule1 schedule2 :
  let batch1 := run devices commands GenericHandler os output_type output_dir now schedule1 in
  let batch2 := run devices commands GenericHandler os output_type output_dir now schedule2 in
  tasks batch1 = tasks batch2
  /\ errors batch1 = errors batch2
  /\ (forall i d, devices !! i = Some d ->
        sent_by i (final batch1) = sent_by i (final batch2)
        /\ close_count i (final batch1) = close_count i (final batch2)
        /\ (once devices d i ->
            Dict.get d (output_data (final batch1))
            = Dict.get d (output_data (final batch2))))
  /\ (total (add_progress (final batch1)) + match raised batch1 with None => 0 | Some _ => 2 end
      == total (add_progress (final batch2))
         + match raised batch2 with None => 0 | Some _ => 2 end)%Q.
Proof.
  intros batch1 batch2.
  assert (Htasks : tasks batch1 = tasks batch2).
  { apply list_eq. intros i. unfold batch1, batch2.
    destruct (devices !! i) as [d|] eqn:Hd.
    - destruct (run_task_ok devices commands GenericHandler os output_type output_dir now
                  schedule1 i d Hd) as (r1 & -> & H1).
      destruct (run_task_ok devices commands GenericHandler os output_type output_dir now
                  schedule2 i d Hd) as (r2 & -> & H2).
      by destruct (final_shape_unique commands GenericHandler i d _ _ _ _ _ _ _ _ H1 H2)
        as (-> & _).
    - apply lookup_ge_None in Hd.
      rewrite !run_tasks, !lookup_ge_None_2; [done| |];
        by rewrite executor_length. }
  split; [exact Htasks|]. split; [|split].
  - unfold batch1, batch2 in *. rewrite !run_errors.
    rewrite !run_tasks in Htasks. by rewrite Htasks.
  - intros i d Hd.
    destruct (run_task_ok devices commands GenericHandler os output_type output_dir now
                schedule1 i d Hd) as (r1 & _ & H1).
    destruct (run_task_ok devices commands GenericHandler os output_type output_dir now
                schedule2 i d Hd) as (r2 & _ & H2).
    destruct (final_shape_unique commands GenericHandler i d _ _ _ _ _ _ _ _ H1 H2)
      as (_ & Hsent & Hclose & e & He1 & He2).
    split; [exact Hsent|]. split; [exact Hclose|].
    intros Honce. unfold batch1, batch2. by rewrite (He1 Honce), (He2 Honce).
  - unfold batch1, batch2. rewrite !run_progress.
    destruct (raised _), (raised _); simpl; ring.
Qed.

(** X9.  With nothing but line ends in the command box no command is sent to
    any device and no session is closed: the task of a device whose
    session opens ends with a division by zero, that of a device whose
    session does not open with its connection error. *)
Theorem blank_command_box devices_text commands_text GenericHandler
    os output_type output_dir now schedule i d :
  PyStr.all_chars Input.is_linebreak commands_text = true ->
  Input.lines_of devices_text !! i = Some d ->
  let batch := run_text devices_text commands_text GenericHandler
                        os output_type output_dir now schedule in
  sent_by i (final batch) = []
  /\ close_count i (final batch) = 0
  /\ tasks batch !! i
     = Some (Finished (Some (if GenericHandler i d is Some _
                             then ZeroDivisionError else ConnectionError d))).
Proof.
  intros Hblank Hd batch. unfold batch, run_text.
  assert (Hnone : Input.lines_of commands_text = [])
    by (by apply (lines_of_blank_after false)).
  rewrite Hnone.
  destruct (run_task_ok (Input.lines_of devices_text) [] GenericHandler
              os output_type output_dir now schedule i d Hd) as (r & Hr & Hshape).
  rewrite Hr. destruct (GenericHandler i d) as [h|] eqn:Hgh.
  - by destruct (ends_without_commands [] GenericHandler i d h _ _ _ _ Hgh eq_refl Hshape)
      as (-> & -> & -> & _).
  - by destruct (ends_unopened [] GenericHandler i d _ _ _ _ Hgh Hshape)
      as (-> & -> & -> & _).
Qed.

(** ** The increments by outcome *)

Section TaskIncrements.
Variable devices : list string.
Variable commands : list string.
Variable GenericHandler : nat -> string -> option Netcore.GenericHandler.

Local Abbreviation tenth := (B64.mul (available_progress devices) (B64.lit 0.1)).
Local Abbreviation two_tenths := (B64.mul (available_progress devices) (B64.lit 0.2)).
Local Abbreviation per_command := (command_progress devices commands).
Local Abbreviation loop := (command_loop devices commands).

Lemma modify_entry d f s s' :
  modify d f s = Some s' -> is_Some (entry_of d s') /\ add_progress s' = add_progress s.
Proof.
  unfold modify. destruct (Dict.get d (output_data s)) as [e|]; [|done].
  intros [= <-]. split; [|done]. eexists. apply entry_of_assign.
Qed.

(** The loop emits one increment for each command answered before the
    first one that fails. *)
Lemma command_loop_until_failure i d h n c rest k s :
  is_Some (entry_of d s) ->
  (forall j c', j < n -> rest !! j = Some c' ->
     is_Some (Netcore.sendCommand h (k + j) c')) ->
  rest !! n = Some c -> Netcore.sendCommand h (k + n) c = None ->
  (loop i d h k rest s).1 = Some (CommandError d c)
  /\ add_progress (loop i d h k rest s).2 = add_progress s ++ replicate n per_command.
Proof.
  revert n k s. induction rest as [|c' rest IH]; intros n k s [e He] Hans Hc Hs; [done|].
  cbn [command_loop]. destruct n as [|n].
  - injection Hc as ->. rewrite Nat.add_0_r in Hs. rewrite Hs. simpl.
    by rewrite app_nil_r.
  - destruct (Hans 0 c') as [raw Hraw]; [lia|done|]. rewrite Nat.add_0_r in Hraw.
    rewrite Hraw.
    rewrite (modify_present d _ (record (EvSend i c') s) e He).
    destruct (IH n (S k) (emit per_command
                            (assign d (set_output c' (PyStr.strip raw) e)
                                    (record (EvSend i c') s)))) as [Hr Hp].
    + eexists. exact (entry_of_assign d _ _).
    + intros j c0 Hj Hc0. replace (S k + j) with (k + S j) by lia.
      apply Hans; [lia|done].
    + done.
    + by replace (S k + n) with (k + S n) by lia.
    + split; [exact Hr|]. rewrite Hp. simpl. by rewrite <- app_assoc.
Qed.

(** The loop emits one increment for each command when all are
    answered, and returns. *)
Lemma command_loop_answered i d h rest k s :
  is_Some (entry_of d s) ->
  (forall j c, rest !! j = Some c -> is_Some (Netcore.sendCommand h (k + j) c)) ->
  (loop i d h k rest s).1 = None
  /\ add_progress (loop i d h k rest s).2
     = add_progress s ++ replicate (length rest) per_command.
Proof.
  revert k s. induction rest as [|c rest IH]; intros k s [e He] Hans.
  - simpl. by rewrite app_nil_r.
  - cbn [command_loop]. destruct (Hans 0 c eq_refl) as [raw Hraw].
    rewrite Nat.add_0_r in Hraw. rewrite Hraw.
    rewrite (modify_present d _ (record (EvSend i c) s) e He).
    destruct (IH (S k) (emit per_command
                          (assign d (set_output c (PyStr.strip raw) e)
                                  (record (EvSend i c) s)))) as [Hr Hp].
    + eexists. exact (entry_of_assign d _ _).
    + intros j c0 Hc0. replace (S k + j) with (k + S j) by lia. by apply Hans.
    + split; [exact Hr|]. rewrite Hp. simpl. by rewrite <- app_assoc.
Qed.

Lemma with_handler_loop i d h s e :
  commands ≠ [] -> entry_of d s = Some e ->
  with_handler devices commands i d h s
  = loop i d h 0 commands
      (emit two_tenths (assign d (set_prompt (Netcore.prompt h) e) s)).
Proof.
  intros Hne He. unfold with_handler. rewrite (modify_present d _ s e He).
  by destruct commands.
Qed.

End TaskIncrements.

(** X10.  What [snapshot_task] emits, called for a device in any state,
    by the way it ends: a tenth of the share of the device when lines
    90 to 104 raise (it ends with their exception); that and two
    tenths when the session opens and the command list is empty (it
    ends with the division by zero); those two and the increment of a
    command once for each command answered before the first that fails
    (it ends with the exception of that command); those two and the
    increment of a command once for each command when all are answered
    (it returns).  The increments are the binary64 numbers the code
    computes. *)
Theorem increments_of_a_task devices commands GenericHandler i d s :
  let result := snapshot_task devices commands GenericHandler i d s in
  let tenth := B64.mul (available_progress devices) (B64.lit 0.1) in
  let two_tenths := B64.mul (available_progress devices) (B64.lit 0.2) in
  (GenericHandler i d = None ->
   result.1 = Some (ConnectionError d)
   /\ add_progress result.2 = add_progress s ++ [tenth])
  /\ (forall h, GenericHandler i d = Some h -> commands = [] ->
      result.1 = Some ZeroDivisionError
      /\ add_progress result.2 = add_progress s ++ [tenth; two_tenths])
  /\ (forall h n c, GenericHandler i d = Some h -> answers commands h n ->
      commands !! n = Some c -> Netcore.sendCommand h n c = None ->
      result.1 = Some (CommandError d c)
      /\ add_progress result.2
         = add_progress s ++ [tenth; two_tenths]
           ++ replicate n (command_progress devices commands))
  /\ (forall h, GenericHandler i d = Some h -> commands ≠ [] ->
      answers commands h (length commands) ->
      result.1 = None
      /\ add_progress result.2
         = add_progress s ++ [tenth; two_tenths]
           ++ replicate (length commands) (command_progress devices commands)).
Proof.
  intros result tenth two_tenths. subst result tenth two_tenths. unfold snapshot_task.
  assert (He : entry_of d (begin_task devices i d s) = Some empty_entry).
  { unfold begin_task, entry_of. simpl. apply get_set_eq. }
  split; [|split; [|split]].
  - intros ->. split; [done|]. reflexivity.
  - intros h -> ->. unfold with_handler. rewrite (modify_present d _ _ _ He).
    split; [done|]. simpl. by rewrite <- app_assoc.
  - intros h n c -> Hans Hc Hs.
    assert (Hne : commands ≠ []) by (by destruct commands).
    rewrite (with_handler_loop devices commands i d h _ _ Hne He).
    destruct (command_loop_until_failure devices commands i d h n c commands 0
                (emit (B64.mul (available_progress devices) (B64.lit 0.2))
                   (assign d (set_prompt (Netcore.prompt h) empty_entry)
                      (begin_task devices i d s)))) as [Hr Hp].
    + eexists. exact (entry_of_assign d _ _).
    + intros j c' Hj Hc'. by apply Hans.
    + exact Hc.
    + exact Hs.
    + split; [exact Hr|]. rewrite Hp. simpl. rewrite <- !app_assoc. reflexivity.
  - intros h -> Hne Hans.
    rewrite (with_handler_loop devices commands i d h _ _ Hne He).
    destruct (command_loop_answered devices commands i d h commands 0
                (emit (B64.mul (available_progress devices) (B64.lit 0.2))
                   (assign d (set_prompt (Netcore.prompt h) empty_entry)
                      (begin_task devices i d s)))) as [Hr Hp].
    + eexists. exact (entry_of_assign d _ _).
    + intros j c Hc. apply Hans; [by eapply lookup_lt_Some|done].
    + split; [exact Hr|]. rewrite Hp. simpl. rewrite <- !app_assoc. reflexivity.
Qed.

(** ** The files of the text report *)

Section DiskFacts.

Lemma on_disk_snoc files path body p :
  on_disk (files ++ [(path, body)]) p
  = if decide (p = path) then Some body else on_disk files p.
Proof.
  unfold on_disk. rewrite update_snoc. destruct (decide (p = path)) as [->|Hne].
  - apply get_set_eq.
  - by apply get_set_ne.
Qed.

(** A path holds what was written to it last. *)
Lemma on_disk_last (files : list (string * string)) p body :
  on_disk files p = Some body
  <-> exists n, files !! n = Some (p, body)
        /\ forall n' body', n < n' -> files !! n' ≠ Some (p, body').
Proof.
  revert body. induction files as [|[path b] files IH] using rev_ind; intros body.
  - split; [done|]. by intros (n & Hn & _).
  - rewrite on_disk_snoc. destruct (decide (p = path)) as [->|Hne].
    + split.
      * intros [= ->]. exists (length files). split; [by apply list_lookup_middle|].
        intros n' body' Hn' Hsome. apply lookup_lt_Some in Hsome.
        rewrite length_app in Hsome. simpl in Hsome. lia.
      * intros (n & Hn & Hlast). destruct (decide (n = length files)) as [->|Hlt].
        -- rewrite list_lookup_middle in Hn by done. by simplify_eq.
        -- exfalso. apply (Hlast (length files) b).
           ++ apply lookup_lt_Some in Hn. rewrite length_app in Hn. simpl in Hn. lia.
           ++ by apply list_lookup_middle.
    + rewrite IH. split.
      * intros (n & Hn & Hlast). exists n. split; [by apply lookup_app_l_Some|].
        intros n' body' Hn' Hsome. apply lookup_app_Some in Hsome as [Hsome|[_ Hsome]].
        -- by apply (Hlast n' body').
        -- apply list_lookup_singleton_Some in Hsome as [_ [= <- _]]. done.
      * intros (n & Hn & Hlast).
        assert (Hn' : files !! n = Some (p, body)).
        { apply lookup_app_Some in Hn as [?|[_ Hn]]; [done|].
          apply list_lookup_singleton_Some in Hn as [_ [= <- _]]. done. }
        exists n. split; [done|]. intros n' body' Hlt Hsome.
        apply (Hlast n' body' Hlt). by apply lookup_app_l_Some.
Qed.

Lemma on_disk_written (files : list (string * string)) n p body :
  files !! n = Some (p, body) -> is_Some (on_disk files p).
Proof.
  revert n. induction files as [|[path b] files IH] using rev_ind; intros n; [done|].
  rewrite on_disk_snoc. intros Hn. destruct (decide (p = path)); [by eexists|].
  apply lookup_app_Some in Hn as [Hn|[_ Hn]]; [by eapply IH|].
  apply list_lookup_singleton_Some in Hn as [_ [= <- _]]. done.
Qed.

End DiskFacts.

(** X11.  Two devices whose prompts agree up to the last character are
    written, on the same date, to the same file, when the loop gets as
    far as the later one: the file of the earlier one is replaced, and
    what the path holds in the end is what the later one, or a device
    after it, has written. *)
Theorem same_prompt_same_file os output_dir now (output_data : list (string * Entry))
    n1 n2 device1 device2 data1 data2 :
  output_data !! n1 = Some (device1, data1) ->
  output_data !! n2 = Some (device2, data2) ->
  n1 < n2 ->
  PyStr.but_last (prompt data1) = PyStr.but_last (prompt data2) ->
  Report.strftime_Ymd (now n1) = Report.strftime_Ymd (now n2) ->
  let files := (Report.text_report os output_dir now output_data).1 in
  n2 < length files ->
  exists path,
    files !! n1 = Some (path, Report.write_file data1)
    /\ files !! n2 = Some (path, Report.write_file data2)
    /\ exists n device data,
         n2 <= n /\ output_data !! n = Some (device, data)
         /\ on_disk files path = Some (Report.write_file data).
Proof.
  intros H1 H2 Hlt Hprompt Hdate files Hlen.
  exists (os_path_join os output_dir (Report.filename data2 (now n2))).
  assert (Hf2 : files !! n2
                = Some (os_path_join os output_dir (Report.filename data2 (now n2)),
                        Report.write_file data2)).
  { unfold files. by apply (text_report_lookup _ _ _ _ n2 device2). }
  split; [|split; [exact Hf2|]].
  - unfold files. rewrite (text_report_lookup _ _ _ _ n1 device1 data1 H1) by (fold files; lia).
    unfold Report.filename. by rewrite Hprompt, Hdate.
  - destruct (on_disk_written files n2 _ _ Hf2) as [body Hbody].
    pose proof Hbody as Hlast. apply on_disk_last in Hlast as (n & Hn & Hlast).
    assert (Hle : n2 <= n).
    { destruct (decide (n2 <= n)) as [?|Hgt]; [done|]. exfalso.
      apply (Hlast n2 (Report.write_file data2)); [lia|done]. }
    unfold files, Report.text_report in Hn.
    apply text_loop_lookup in Hn as (device & data & Hdata & [= _ ->]).
    exists n, device, data. by rewrite Hbody.
Qed.


(** ** The increments one by one *)

Section Increments.
Variable devices : list string.
Variable commands : list string.
Variable GenericHandler : nat -> string -> option Netcore.GenericHandler.

Local Abbreviation of_a_task q :=
  (q = B64.mul (available_progress devices) (B64.lit 0.1)
   \/ q = B64.mul (available_progress devices) (B64.lit 0.2)
   \/ q = command_progress devices commands).

Lemma modify_add_progress d f s s' :
  modify d f s = Some s' -> add_progress s' = add_progress s.
Proof. unfold modify. destruct (Dict.get d (output_data s)); [|done]. by intros [= <-]. Qed.

Lemma increments_preserved :
  preserved devices commands GenericHandler
    (fun s _ => exists l, add_progress s = 9%Q :: l /\ Forall (fun q => of_a_task q) l).
Proof.
  intros s tasks i device p (l & Hl & HP) Hd Hp.
  destruct p as [| |h|h k rest|r]; simpl.
  - exists (l ++ [B64.mul (available_progress devices) (B64.lit 0.1)]). rewrite Hl.
    split; [done|]. apply Forall_app. split; [done|]. constructor; [by left|done].
  - destruct (GenericHandler i device); simpl; by exists l.
  - destruct (modify device _ s) as [s1|] eqn:Hm; [|by exists l].
    apply modify_add_progress in Hm.
    assert (Hthen : exists l',
               add_progress (emit (B64.mul (available_progress devices) (B64.lit 0.2)) s1)
               = 9%Q :: l' /\ Forall (fun q => of_a_task q) l').
    { exists (l ++ [B64.mul (available_progress devices) (B64.lit 0.2)]). simpl.
      rewrite Hm, Hl. split; [done|]. apply Forall_app. split; [done|].
      constructor; [by right; left|done]. }
    by destruct commands.
  - destruct rest as [|c rest]; simpl; [by exists l|].
    destruct (Netcore.sendCommand h k c) as [raw|]; simpl; [|by exists l].
    destruct (modify device _ _) as [s1|] eqn:Hm; simpl; [|by exists l].
    apply modify_add_progress in Hm. simpl in Hm.
    exists (l ++ [command_progress devices commands]). rewrite Hm, Hl.
    split; [done|]. apply Forall_app. split; [done|].
    constructor; [by right; right|done].
  - by exists l.
Qed.

Lemma run_increments os output_type output_dir now schedule :
  exists l,
    add_progress (final (run devices commands GenericHandler os output_type output_dir
                             now schedule))
    = 9%Q :: l ++ match raised (run devices commands GenericHandler os output_type
                                    output_dir now schedule)
                  with
                  | None => [2%Q]
                  | Some _ => []
                  end
    /\ Forall (fun q => of_a_task q) l.
Proof.
  rewrite run_add_progress.
  destruct (executor_invariant devices commands GenericHandler _ increments_preserved
              schedule initial_state) as (l & Hl & HP).
  - by exists [].
  - exists l. by rewrite Hl.
Qed.

End Increments.

(** X15.  A run emits 9 first, whatever the schedule and whatever the
    sessions do, then nothing but the three increments of the tasks (a
    tenth of the share of a device, two tenths of it, and the increment
    of a command, as binary64 computes them), and 2 last when
    [generate_report] has returned; when it raises, line 50 is not
    reached and the 2 is missing. *)
Theorem increments_of_a_run devices commands GenericHandler
    os output_type output_dir now schedule :
  let batch := run devices commands GenericHandler os output_type output_dir now schedule in
  exists l,
    add_progress (final batch)
    = 9%Q :: l ++ match raised batch with None => [2%Q] | Some _ => [] end
    /\ Forall (fun q => q = B64.mul (available_progress devices) (B64.lit 0.1)
                        \/ q = B64.mul (available_progress devices) (B64.lit 0.2)
                        \/ q = command_progress devices commands) l.
Proof. apply run_increments. Qed.

(** ** The progress bar *)

Section Bar.
Local Open Scope Z_scope.

Lemma int_nonneg (q : Q) : (0 <= q)%Q -> 0 <= Ui.int q /\ (inject_Z (Ui.int q) <= q)%Q.
Proof.
  destruct q as [n d]. unfold Qle, Ui.int. simpl. intros Hn.
  rewrite Z.mul_1_r in Hn. rewrite Z.quot_div_nonneg by lia. split.
  - apply Z.div_pos; lia.
  - rewrite Z.mul_1_r, Z.mul_comm. apply Z.mul_div_le. lia.
Qed.

Lemma int_fraction (q : Q) : (-1 < q)%Q -> (q < 1)%Q -> Ui.int q = 0.
Proof.
  destruct q as [n d]. unfold Qlt, Ui.int. simpl. intros Hlo Hhi.
  apply Z.quot_small_iff; lia.
Qed.

Lemma update_progress_fraction q bar :
  (-1 < q)%Q -> (q < 1)%Q -> Ui.update_progress q bar = bar.
Proof.
  intros Hlo Hhi. unfold Ui.update_progress, Ui.setValue.
  rewrite (int_fraction q Hlo Hhi), Z.add_0_r. by case_match.
Qed.

Lemma received_fractions qs bar :
  Forall (fun q => (-1 < q)%Q /\ (q < 1)%Q) qs -> Ui.received qs bar = bar.
Proof.
  intros Hqs. induction Hqs as [|q qs [Hlo Hhi] _ IH]; [done|].
  unfold Ui.received in *. simpl. by rewrite update_progress_fraction.
Qed.

Lemma update_progress_nonneg q bar :
  (0 <= q)%Q -> 0 <= bar <= 100 ->
  bar <= Ui.update_progress q bar <= 100
  /\ (inject_Z (Ui.update_progress q bar) <= inject_Z bar + q)%Q.
Proof.
  intros Hq Hbar. destruct (int_nonneg q Hq) as [Hint Hle].
  unfold Ui.update_progress, Ui.setValue.
  destruct ((bar + Ui.int q <? 0) || (100 <? bar + Ui.int q)) eqn:Hout.
  - split; [lia|]. rewrite <- (Qplus_0_r (inject_Z bar)) at 1.
    apply Qplus_le_compat; [apply Qle_refl|done].
  - apply orb_false_iff in Hout as [_ Hmax%Z.ltb_ge]. split; [lia|].
    rewrite inject_Z_plus. apply Qplus_le_compat; [apply Qle_refl|done].
Qed.

End Bar.

(** X16.  The slot adds [int(value)] to the bar.  With increments that are
    not negative the bar never goes back, never leaves the range
    0..100, and never shows more than its value at the start and the
    sum of the increments received. *)
Theorem bar_never_ahead increments bar :
  Forall (fun value => (0 <= value)%Q) increments ->
  (0 <= bar <= 100)%Z ->
  let shown := Ui.received increments bar in
  (bar <= shown <= 100)%Z
  /\ (inject_Z shown <= inject_Z bar + total increments)%Q.
Proof.
  intros Hqs. revert bar. induction Hqs as [|q qs Hq _ IH]; intros bar Hbar shown.
  - unfold shown. simpl. split; [lia|]. rewrite Qplus_0_r. apply Qle_refl.
  - destruct (update_progress_nonneg q bar Hq Hbar) as [Hrange Hle].
    destruct (IH (Ui.update_progress q bar)) as [Hrange' Hle']; [lia|].
    change shown with (Ui.received qs (Ui.update_progress q bar)).
    split; [lia|]. eapply Qle_trans; [exact Hle'|].
    cbn [total fold_right]. rewrite Qplus_assoc.
    apply Qplus_le_compat; [done|apply Qle_refl].
Qed.

(** X17.  An increment below 1 does not move the bar: its fraction is cut
    off by [int], and nothing keeps what was cut off. *)
Theorem fractions_never_reach_the_bar increments bar :
  Forall (fun value => (-1 < value)%Q /\ (value < 1)%Q) increments ->
  Ui.received increments bar = bar.
Proof. apply received_fractions. Qed.

Section LargeBatch.
Variable devices : list string.
Variable commands : list string.
Hypothesis many_devices : 18 < length devices.
Hypothesis many_commands : 63 < length devices * length commands.
Hypothesis devices_fit : (Z.of_nat (length devices) < 2 ^ 63)%Z.
Hypothesis commands_fit : (Z.of_nat (length commands) < 2 ^ 63)%Z.

Lemma Qnat_lt n m : (n < m)%nat -> (Qnat n < Qnat m)%Q.
Proof. intros Hlt. unfold Qnat. rewrite <- Zlt_Qlt. lia. Qed.

(** An increment known within [2 ** -50] of a number up to 63/64 is a
    fraction. *)
Lemma near_fraction x y :
  B64.near (B64.pow2 (-50)) x y -> (0 <= y)%Q -> (y <= 63 # 64)%Q ->
  (-1 < x)%Q /\ (x < 1)%Q.
Proof.
  intros [H1 H2] Hy0 Hy1.
  assert (Htol : (0 <= B64.pow2 (-50) <= 1 # 64)%Q) by (split; by vm_compute).
  revert H1 H2 Htol. generalize (B64.pow2 (-50)). intros tol H1 H2 [Ht0 Ht1].
  split; nra.
Qed.

Lemma share_is_fraction q :
  (1 # 20 <= q)%Q -> (q <= 1 # 5)%Q ->
  (-1 < B64.mul (available_progress devices) (B64.lit q))%Q
  /\ (B64.mul (available_progress devices) (B64.lit q) < 1)%Q.
Proof.
  intros Hq1 Hq2.
  assert (Hd : devices ≠ []) by (destruct devices; [simpl in many_devices; lia|done]).
  assert (HD : (19 <= Qnat (length devices))%Q).
  { change 19%Q with (Qnat 19). unfold Qnat. rewrite <- Zle_Qle. lia. }
  apply (near_fraction _ (90 * q / Qnat (length devices))).
  - apply (near_weaken (B64.pow2 (-51))); [by vm_compute| |].
    + apply Qle_shift_div_l; [lra|]. nra.
    + apply share_near; [done|done|]. split; lra.
  - apply Qle_shift_div_l; [lra|]. nra.
  - apply Qle_shift_div_r; [lra|]. nra.
Qed.

Lemma command_progress_is_fraction :
  (-1 < command_progress devices commands)%Q /\ (command_progress devices commands < 1)%Q.
Proof.
  assert (Hd : devices ≠ []) by (destruct devices; [simpl in many_devices; lia|done]).
  assert (Hc : commands ≠ []).
  { destruct commands; [|done]. simpl in many_commands. lia. }
  destruct (length_bounds devices Hd devices_fit) as [HD1 _].
  destruct (length_bounds commands Hc commands_fit) as [HC1 _].
  fold (Qnat (length devices)) in HD1. fold (Qnat (length commands)) in HC1.
  assert (Hdc : (64 <= Qnat (length devices) * Qnat (length commands))%Q).
  { change 64%Q with (Qnat 64). unfold Qnat. rewrite <- inject_Z_mult, <- Zle_Qle. lia. }
  apply (near_fraction _ (63 / Qnat (length devices) / Qnat (length commands))).
  - by apply command_progress_near.
  - apply Qle_shift_div_l; [lra|]. apply Qle_shift_div_l; [lra|]. nra.
  - apply Qle_shift_div_r; [lra|]. apply Qle_shift_div_r; [lra|]. nra.
Qed.

End LargeBatch.

(** X18.  With more than 18 devices, and more than 63 commands over all
    devices (fewer than 2^63 of each), every increment of a task is
    below 1 as binary64 computes it: whatever the sessions do and
    whatever the schedule, the bar that was reset by [run_start_event]
    and received every increment of the run shows the 9 of the pool
    start, and the 2 of line 50 with it when [generate_report] has
    returned, so 11 or 9, until [run_finish_event] sets it to 100. *)
Theorem bar_of_a_large_batch devices commands GenericHandler
    os output_type output_dir now schedule bar :
  18 < length devices ->
  63 < length devices * length commands ->
  (Z.of_nat (length devices) < 2 ^ 63)%Z -> (Z.of_nat (length commands) < 2 ^ 63)%Z ->
  let batch := run devices commands GenericHandler os output_type output_dir now schedule in
  let shown := Ui.received (add_progress (final batch)) (Ui.run_start_event bar) in
  shown = match raised batch with None => 11%Z | Some _ => 9%Z end
  /\ Ui.run_finish_event shown = 100%Z.
Proof.
  intros Hd Hc HD HC batch shown.
  assert (Hshown : shown = match raised batch with None => 11%Z | Some _ => 9%Z end);
    [|rewrite Hshown; by destruct (raised batch)].
  unfold shown, batch.
  destruct (run_increments devices commands GenericHandler os output_type output_dir
              now schedule) as (l & -> & Hl).
  unfold Ui.received. cbn [fold_left]. rewrite fold_left_app.
  fold (Ui.received l (Ui.update_progress 9 (Ui.run_start_event bar))).
  rewrite (received_fractions l).
  - change (Ui.run_start_event bar) with 0%Z.
    destruct (raised _); reflexivity.
  - eapply Forall_impl; [exact Hl|]. intros q [->|[->| ->]].
    + eapply share_is_fraction; first [eassumption | by vm_compute].
    + eapply share_is_fraction; first [eassumption | by vm_compute].
    + by apply command_progress_is_fraction.
Qed.

(** ** Sample inputs *)

Section MoreSamples.
Import Sample.

Local Abbreviation routers := ["router1"; "router2"].
Local Abbreviation show := ["show version"].
Local Abbreviation twins :=
  [("10.0.0.1", {| prompt := "router1#"; command_output := [("show version", "A")] |});
   ("10.0.0.2", {| prompt := "router1>"; command_output := [("show version", "B")] |})].

Lemma lines_of_items_witness :
  "router1" ≠ ""
  /\ PyStr.all_chars (fun c => negb (Input.is_linebreak c)) "router1" = true.
Proof.
  apply (lines_of_items ("router1" +:+ PyStr.newline +:+ PyStr.newline +:+ "router2")).
  vm_compute. by left.
Defined.

Lemma lines_of_join_lines_witness :
  Input.lines_of (Input.join_lines routers) = routers
  /\ Input.lines_of (Input.join_lines routers +:+ PyStr.newline) = routers.
Proof.
  apply (lines_of_join_lines routers).
  repeat (constructor; [split; [discriminate|reflexivity]|]). constructor.
Defined.

Lemma session_closed_iff_task_returned_witness :
  exists r,
    tasks (run routers show first_fails posix "Text" "out" clock []) !! 1 = Some (Finished r)
    /\ close_count 1 (final (run routers show first_fails posix "Text" "out" clock []))
       = if r is None then 1 else 0.
Proof.
  apply (session_closed_iff_task_returned routers show first_fails posix "Text" "out" clock []
           1 "router2").
  reflexivity.
Defined.

Lemma commands_sent_in_order_witness :
  sent_by 1 (final (run routers show first_fails posix "Text" "out" clock [])) = show.
Proof.
  destruct (commands_sent_in_order routers show first_fails posix "Text" "out" clock []
              1 "router2" eq_refl) as (_ & _ & _ & Hall).
  apply (Hall router1); [reflexivity|]. intros j c _ _. by eexists.
Defined.

Lemma blank_command_box_witness :
  tasks (run_text "router1" (PyStr.newline +:+ PyStr.newline) reachable
                  posix "Text" "out" clock []) !! 0
  = Some (Finished (Some ZeroDivisionError)).
Proof.
  destruct (blank_command_box "router1" (PyStr.newline +:+ PyStr.newline) reachable
              posix "Text" "out" clock [] 0 "router1") as (_ & _ & Hend).
  - reflexivity.
  - reflexivity.
  - exact Hend.
Defined.

Lemma same_prompt_same_file_witness :
  exists path,
    (Report.text_report posix "out" clock twins).1 !! 0
    = Some (path, "router1#show version"
              +:+ PyStr.newline +:+ "A" +:+ PyStr.newline +:+ PyStr.repeat_char "-" 79
              +:+ PyStr.newline)
    /\ on_disk (Report.text_report posix "out" clock twins).1 path
       = Some ("router1>show version" +:+ PyStr.newline +:+ "B" +:+ PyStr.newline
                 +:+ PyStr.repeat_char "-" 79 +:+ PyStr.newline).
Proof.
  destruct (same_prompt_same_file posix "out" clock twins 0 1 _ _ _ _ eq_refl eq_refl)
    as (path & Hfirst & Hsecond & _); [lia|reflexivity|reflexivity|simpl; lia|].
  exists path. split; [exact Hfirst|].
  vm_compute in Hsecond. injection Hsecond as <-. reflexivity.
Defined.


Lemma bar_never_ahead_witness :
  (0 <= Ui.received [9%Q; 4.5%Q; 2%Q] 0 <= 100)%Z
  /\ (inject_Z (Ui.received [9%Q; 4.5%Q; 2%Q] 0) <= inject_Z 0 + total [9%Q; 4.5%Q; 2%Q])%Q.
Proof.
  apply (bar_never_ahead [9%Q; 4.5%Q; 2%Q] 0%Z).
  - repeat (constructor; [discriminate|]). constructor.
  - lia.
Defined.

Lemma fractions_never_reach_the_bar_witness :
  Ui.received [0.5%Q; 0.9%Q] 10%Z = 10%Z.
Proof.
  apply (fractions_never_reach_the_bar [0.5%Q; 0.9%Q] 10%Z).
  repeat (constructor; [split; reflexivity|]). constructor.
Defined.

Lemma bar_of_a_large_batch_witness :
  Ui.received
    (add_progress
       (final (run (replicate 19 "router1") (replicate 4 "show version") reachable
                   posix "Text" "out" clock [])))
    (Ui.run_start_event 0%Z) = 11%Z.
Proof.
  destruct (bar_of_a_large_batch (replicate 19 "router1") (replicate 4 "show version")
              reachable posix "Text" "out" clock [] 0%Z) as [Hshown _].
  - rewrite length_replicate. lia.
  - rewrite !length_replicate. lia.
  - reflexivity.
  - reflexivity.
  - exact Hshown.
Defined.

End MoreSamples.
